(** * Icestorm: the Go implementation of the Iceberg scripting engine

    A shallow embedding of [iceberg-go/icestorm.go]: the operand
    classifier, the line tokenizer, the program assembler with its label
    pass, the argument resolver, the variable store, the built-in
    instruction handlers and the dispatch loop, followed by the properties
    of the engine that are established about them.

    Conventions of the embedding.
    - Go's [int64] is a [Z] together with {!wrap64}; [float64] is the
      binary64 instance of the Standard Library's [spec_float] (one NaN,
      no payload); [string] is [string]; [[]byte] is [list ascii].
    - [os.Exit] after a diagnostic, and a Go run-time panic, end the run:
      every operation that can reach one returns a [Result].
    - The maps of the VM are [gmap]s.  The instruction table holds
      functions over the rest of the VM state, so the state the handlers
      work on ([exec_pos], [label_table], [var_table], the text written to
      standard output) is the record [IcebergVM] and the table is carried
      next to it.
    - Functions of Go's standard library are written out from their
      documentation ([strconv.ParseInt], [strconv.ParseFloat],
      [strconv.FormatInt], [strconv.FormatFloat], [math.Floor], the
      [strings] helpers, [encoding/binary]); [math.Pow], which has no
      closed description, is a section variable. *)

From Stdlib Require Import ZArith Lia List Ascii String Bool.
From Stdlib Require Import Floats.SpecFloat DecimalString DecimalZ.
From stdpp Require Import base gmap strings list.

Open Scope Z_scope.

(* ================================================================== *)
(** * Part I. The embedding                                            *)
(* ================================================================== *)

(** ** Failures and results *)

(** The ways a call can end the process: [compile_error] and
    [Runtime_error] print a message and call [os.Exit(1)]; the Go run time
    panics on a slice or index out of range, an integer division by zero or
    a call through a nil function value; an unbounded recursion overflows
    the goroutine stack. *)
Inductive Failure : Type :=
| CompileError (line : Z) (message : string)
| RuntimeError (pos : Z) (message : string)
| GoPanic (message : string)
| StackOverflow.

Inductive Result (A : Type) : Type :=
| Ok (a : A)
| Fail (f : Failure).
Arguments Ok {A} a.
Arguments Fail {A} f.

(** Sequencing stops at the first failure; [x ← r; k] is stdpp's notation
    for [mbind]. *)
#[global] Instance Result_bind : MBind Result :=
  fun A B (k : A -> Result B) (r : Result A) =>
    match r with
    | Ok a => k a
    | Fail f => Fail f
    end.

#[global] Instance Result_ret : MRet Result := fun A (a : A) => Ok a.

(** ** Go primitives *)

Module Go.

(** *** Integers *)

Definition MinInt64 : Z := - 2 ^ 63.
Definition MaxInt64 : Z := 2 ^ 63 - 1.

(** Two's complement wrap-around of 64-bit signed arithmetic. *)
Definition wrap64 (z : Z) : Z := (z + 2 ^ 63) mod 2 ^ 64 - 2 ^ 63.

Definition in_int64 (z : Z) : bool := (MinInt64 <=? z) && (z <=? MaxInt64).

(** *** Bytes, runes and strings *)

Definition byte_val (c : ascii) : Z := Z.of_N (N_of_ascii c).

(** [byte(c)] for a wider integer [c]: the low eight bits. *)
Definition to_byte (z : Z) : ascii := ascii_of_N (Z.to_N (z mod 256)).

(** [string(b)] and [[]byte(s)]. *)
Definition string_of_bytes (b : list ascii) : string := string_of_list_ascii b.
Definition bytes_of_string (s : string) : list ascii := list_ascii_of_string s.

Definition RuneError : Z := 0xFFFD.

Definition between (lo hi : Z) (c : ascii) : bool :=
  (lo <=? byte_val c) && (byte_val c <=? hi).

Definition low6 (c : ascii) : Z := Z.land (byte_val c) 0x3F.

(** [utf8.DecodeRuneInString]: the rune at the head of [b0 :: rest] and
    the number of bytes it takes after [b0].  An invalid or truncated
    encoding yields [RuneError] and takes one byte. *)
Definition decode_rune (b0 : ascii) (rest : list ascii) : Z * nat :=
  let x := byte_val b0 in
  if x <? 0x80 then (x, 0%nat)
  else if (0xC2 <=? x) && (x <=? 0xDF) then
    match rest with
    | b1 :: _ =>
        if between 0x80 0xBF b1
        then (Z.lor (Z.shiftl (Z.land x 0x1F) 6) (low6 b1), 1%nat)
        else (RuneError, 0%nat)
    | _ => (RuneError, 0%nat)
    end
  else if (0xE0 <=? x) && (x <=? 0xEF) then
    let lo := if x =? 0xE0 then 0xA0 else 0x80 in
    let hi := if x =? 0xED then 0x9F else 0xBF in
    match rest with
    | b1 :: b2 :: _ =>
        if between lo hi b1 && between 0x80 0xBF b2
        then (Z.lor (Z.shiftl (Z.land x 0x0F) 12)
                (Z.lor (Z.shiftl (low6 b1) 6) (low6 b2)), 2%nat)
        else (RuneError, 0%nat)
    | _ => (RuneError, 0%nat)
    end
  else if (0xF0 <=? x) && (x <=? 0xF4) then
    let lo := if x =? 0xF0 then 0x90 else 0x80 in
    let hi := if x =? 0xF4 then 0x8F else 0xBF in
    match rest with
    | b1 :: b2 :: b3 :: _ =>
        if between lo hi b1 && between 0x80 0xBF b2 && between 0x80 0xBF b3
        then (Z.lor (Z.shiftl (Z.land x 0x07) 18)
                (Z.lor (Z.shiftl (low6 b1) 12)
                   (Z.lor (Z.shiftl (low6 b2) 6) (low6 b3))), 3%nat)
        else (RuneError, 0%nat)
    | _ => (RuneError, 0%nat)
    end
  else (RuneError, 0%nat).

(** The runes [for _, c := range s] goes through.  [skip] counts the
    continuation bytes of the rune decoded last. *)
Fixpoint runes_from (skip : nat) (b : list ascii) : list Z :=
  match b with
  | [] => []
  | b0 :: rest =>
      match skip with
      | S k => runes_from k rest
      | O => let '(r, w) := decode_rune b0 rest in r :: runes_from w rest
      end
  end.

Definition runes (s : string) : list Z := runes_from 0 (bytes_of_string s).

(** The code point of an ASCII character literal such as [','] . *)
Definition rune (c : ascii) : Z := byte_val c.

(** [strings.IndexRune(s, c) == 0] for an ASCII [c]: [s] begins with [c]. *)
Definition begins_with (c : ascii) (s : string) : bool :=
  match s with
  | String c0 _ => Ascii.eqb c0 c
  | EmptyString => false
  end.

(** [strings.IndexRune(s, c) == -1] for an ASCII [c]. *)
Fixpoint lacks (c : ascii) (s : string) : bool :=
  match s with
  | EmptyString => true
  | String c0 r => if Ascii.eqb c0 c then false else lacks c r
  end.

(** [strings.SplitN(s, sep, 2)] for a one-byte separator that occurs in
    [s]: the text before the first separator and the text after it.  When
    [sep] does not occur the second component is empty. *)
Fixpoint SplitN2 (sep : ascii) (s : string) : string * string :=
  match s with
  | EmptyString => (EmptyString, EmptyString)
  | String c r =>
      if Ascii.eqb c sep then (EmptyString, r)
      else let '(a, b) := SplitN2 sep r in (String c a, b)
  end.

(** [strings.Split(s, sep)] for a one-byte separator: always at least one
    field. *)
Fixpoint Split (sep : ascii) (s : string) : list string :=
  match s with
  | EmptyString => [EmptyString]
  | String c r =>
      if Ascii.eqb c sep then EmptyString :: Split sep r
      else match Split sep r with
           | f :: fs => String c f :: fs
           | [] => [String c EmptyString]
           end
  end.

(** [strings.TrimLeftFunc(s, f)] for a predicate on ASCII characters. *)
Fixpoint TrimLeftFunc (f : ascii -> bool) (s : string) : string :=
  match s with
  | EmptyString => EmptyString
  | String c r => if f c then TrimLeftFunc f r else s
  end.

(** *** [strconv.FormatInt(i, 10)] and [strconv.ParseInt(s, 10, 64)] *)

Definition FormatInt (i : Z) : string := NilZero.string_of_int (Z.to_int i).

Definition digit_val (c : ascii) : option Z :=
  if between 48 57 c then Some (byte_val c - 48) else None.

Fixpoint digits_value (acc : Z) (s : string) : option Z :=
  match s with
  | EmptyString => Some acc
  | String c r =>
      match digit_val c with
      | Some d => digits_value (acc * 10 + d) r
      | None => None
      end
  end.

(** [None] stands for a non-nil [err], which is all the caller looks at:
    a syntax error (no digits, or a byte that is not a decimal digit) or a
    value out of the 64-bit signed range. *)
Definition ParseInt (s : string) : option Z :=
  match s with
  | EmptyString => None
  | String c r =>
      let '(neg, ds) :=
        if Ascii.eqb c "+" then (false, r)
        else if Ascii.eqb c "-" then (true, r)
        else (false, s) in
      match ds with
      | EmptyString => None
      | _ =>
          match digits_value 0 ds with
          | None => None
          | Some un =>
              if neg then (if un <=? 2 ^ 63 then Some (- un) else None)
              else (if un <? 2 ^ 63 then Some un else None)
          end
      end
  end.

(** *** [float64] *)

Definition float64 : Type := spec_float.
Definition prec : Z := 53.
Definition emax : Z := 1024.

Definition fadd : float64 -> float64 -> float64 := SFadd prec emax.
Definition fsub : float64 -> float64 -> float64 := SFsub prec emax.
Definition fmul : float64 -> float64 -> float64 := SFmul prec emax.
Definition fdiv : float64 -> float64 -> float64 := SFdiv prec emax.
Definition feqb : float64 -> float64 -> bool := SFeqb.
Definition fltb : float64 -> float64 -> bool := SFltb.
Definition fleb : float64 -> float64 -> bool := SFleb.
Definition fzero : float64 := S754_zero false.
Definition NaN : float64 := S754_nan.

(** [float64(i)] for an [int64]: the nearest float, ties to even. *)
Definition float64_of_int (i : Z) : float64 :=
  binary_normalize prec emax i 0 false.

(** The integer part, toward zero, of a finite float. *)
Definition trunc_Z (f : float64) : option Z :=
  match f with
  | S754_zero _ => Some 0
  | S754_finite s m e =>
      Some (cond_Zopp s (if 0 <=? e then Z.shiftl (Zpos m) e
                         else Z.shiftr (Zpos m) (- e)))
  | _ => None
  end.

(** [int64(f)]: truncation toward zero.  For a NaN, an infinity or a value
    out of range the language leaves the result to the implementation; on
    amd64 the conversion instruction (CVTTSD2SQ) gives the bit pattern
    [0x8000000000000000], that is [MinInt64], which is what is modelled. *)
Definition int64_of_float (f : float64) : Z :=
  match trunc_Z f with
  | Some z => if in_int64 z then z else MinInt64
  | None => MinInt64
  end.

(** [math.Floor]: zeros, infinities and NaN are returned unchanged. *)
Definition Floor (f : float64) : float64 :=
  match f with
  | S754_finite s m e =>
      if 0 <=? e then f
      else
        let q := Z.shiftr (Zpos m) (- e) in
        if Z.shiftl q (- e) =? Zpos m then f
        else if s then binary_normalize prec emax (- (q + 1)) 0 true
        else binary_normalize prec emax q 0 false
  | _ => f
  end.

(** [math.Float64bits] and [math.Float64frombits].  [spec_float] has one
    NaN: the sign and the payload of a NaN are not part of the model.
    [Float64bits] gives it the pattern of [math.NaN()], which is the one
    [strconv.ParseFloat] returns; the pattern a computation leaves (on
    amd64 [0xFFF8000000000000] for an invalid operation) is not told
    apart, and what is read back is a NaN in each case. *)
Definition Float64bits (f : float64) : Z :=
  let sign (s : bool) := if s then 2 ^ 63 else 0 in
  match f with
  | S754_zero s => sign s
  | S754_infinity s => sign s + 0x7FF0000000000000
  | S754_nan => 0x7FF8000000000001
  | S754_finite s m e =>
      sign s + (if 2 ^ 52 <=? Zpos m
                then (e + 1075) * 2 ^ 52 + (Zpos m - 2 ^ 52)
                else Zpos m)
  end.

Definition Float64frombits (b : Z) : float64 :=
  let s := Z.testbit b 63 in
  let E := (b / 2 ^ 52) mod 2 ^ 11 in
  let frac := b mod 2 ^ 52 in
  if E =? 2047 then (if frac =? 0 then S754_infinity s else S754_nan)
  else if E =? 0 then
    match frac with
    | Zpos m => S754_finite s m (-1074)
    | _ => S754_zero s
    end
  else
    match frac + 2 ^ 52 with
    | Zpos m => S754_finite s m (E - 1075)
    | _ => S754_nan
    end.

(** The float nearest to [n / d] ([0 < n], [0 < d]), ties to even, with
    sign [neg]: the quotient is taken with at least 63 significant bits and
    a sticky bit, which [binary_normalize] then rounds. *)
Definition round_ratio (neg : bool) (n d : Z) : float64 :=
  let s := Z.max 0 (64 + Z.log2 d - Z.log2 n) in
  let q := (n * 2 ^ s) / d in
  let r := (n * 2 ^ s) mod d in
  let m := 2 * q + (if r =? 0 then 0 else 1) in
  binary_normalize prec emax (cond_Zopp neg m) (- s - 1) neg.

(** *** [strconv.ParseFloat(s, 64)] *)

(** [lower(c)] of package strconv: [c | ('x' - 'X')]. *)
Definition lower (c : ascii) : ascii := to_byte (Z.lor (byte_val c) 32).

Fixpoint commonPrefixLenIgnoreCase (s pre : string) : Z :=
  match s, pre with
  | String c s', String p pre' =>
      let c' := if between 65 90 c then to_byte (byte_val c + 32) else c in
      if Ascii.eqb c' p then 1 + commonPrefixLenIgnoreCase s' pre' else 0
  | _, _ => 0
  end.

(** [special]: an optionally signed [inf] or [infinity], or [nan], in any
    letter case, at the head of [s]; the value and the bytes taken. *)
Definition special (s : string) : option (float64 * Z) :=
  let inf (neg : bool) (nsign : Z) (t : string) :=
    let n := commonPrefixLenIgnoreCase t "infinity" in
    let n := if (3 <? n) && (n <? 8) then 3 else n in
    if (n =? 3) || (n =? 8) then Some (S754_infinity neg, nsign + n) else None in
  match s with
  | EmptyString => None
  | String c r =>
      if Ascii.eqb c "+" then inf false 1 r
      else if Ascii.eqb c "-" then inf true 1 r
      else if Ascii.eqb c "i" || Ascii.eqb c "I" then inf false 0 s
      else if Ascii.eqb c "n" || Ascii.eqb c "N" then
        (if commonPrefixLenIgnoreCase s "nan" =? 3 then Some (NaN, 3) else None)
      else None
  end.

(** [underscoreOK]: underscores only between digits, or between a base
    prefix and a digit. *)
Inductive saw : Type := SawStart | SawDigit | SawUnderscore | SawOther.

Fixpoint underscore_scan (hex : bool) (last : saw) (s : string) : bool :=
  match s with
  | EmptyString => match last with SawUnderscore => false | _ => true end
  | String c r =>
      if between 48 57 c || (hex && between 97 102 (lower c))
      then underscore_scan hex SawDigit r
      else if Ascii.eqb c "_" then
        match last with
        | SawDigit => underscore_scan hex SawUnderscore r
        | _ => false
        end
      else
        match last with
        | SawUnderscore => false
        | _ => underscore_scan hex SawOther r
        end
  end.

Definition underscoreOK (s : string) : bool :=
  let s := match s with
           | String c r => if Ascii.eqb c "-" || Ascii.eqb c "+" then r else s
           | EmptyString => s
           end in
  match s with
  | String c0 (String c1 r) =>
      if Ascii.eqb c0 "0" &&
         (Ascii.eqb (lower c1) "b" || Ascii.eqb (lower c1) "o" || Ascii.eqb (lower c1) "x")
      then underscore_scan (Ascii.eqb (lower c1) "x") SawDigit r
      else underscore_scan false SawStart s
  | _ => underscore_scan false SawStart s
  end.

(** The state of [readFloat]'s loop over the mantissa.  The mantissa is
    kept whole (the Go code keeps 19 digits and a truncation flag, and
    recovers the exact rounding on its slow path). *)
Record mantissa_state : Type := {
  sawdot : bool;
  sawdigits : bool;
  nd : Z;
  dp : Z;
  mantissa : Z;
  underscores : bool
}.

Fixpoint read_mantissa (hex : bool) (st : mantissa_state) (s : string)
  : mantissa_state * string :=
  match s with
  | EmptyString => (st, s)
  | String c r =>
      if Ascii.eqb c "_" then
        read_mantissa hex
          {| sawdot := sawdot st; sawdigits := sawdigits st; nd := nd st;
             dp := dp st; mantissa := mantissa st; underscores := true |} r
      else if Ascii.eqb c "." then
        if sawdot st then (st, s)
        else read_mantissa hex
          {| sawdot := true; sawdigits := sawdigits st; nd := nd st;
             dp := nd st; mantissa := mantissa st;
             underscores := underscores st |} r
      else if between 48 57 c then
        if Ascii.eqb c "0" && (nd st =? 0) then
          read_mantissa hex
            {| sawdot := sawdot st; sawdigits := true; nd := nd st;
               dp := dp st - 1; mantissa := mantissa st;
               underscores := underscores st |} r
        else read_mantissa hex
          {| sawdot := sawdot st; sawdigits := true; nd := nd st + 1;
             dp := dp st;
             mantissa := mantissa st * (if hex then 16 else 10) + (byte_val c - 48);
             underscores := underscores st |} r
      else if hex && between 97 102 (lower c) then
        read_mantissa hex
          {| sawdot := sawdot st; sawdigits := true; nd := nd st + 1;
             dp := dp st;
             mantissa := mantissa st * 16 + (byte_val (lower c) - 97 + 10);
             underscores := underscores st |} r
      else (st, s)
  end.

(** The digits of the exponent: [e] stops growing once it reaches 10000. *)
Fixpoint read_exponent (e : Z) (us : bool) (s : string) : Z * bool * string :=
  match s with
  | EmptyString => (e, us, s)
  | String c r =>
      if Ascii.eqb c "_" then read_exponent e true r
      else if between 48 57 c then
        read_exponent (if e <? 10000 then e * 10 + (byte_val c - 48) else e) us r
      else (e, us, s)
  end.

(** [readFloat] followed by the conversion: the value of the longest
    well-formed prefix of [s] and the text left over.  The first component
    of the value is the sign, the second tells a hexadecimal mantissa, then
    come the mantissa and the exponent of the base (10, or 2 for a
    hexadecimal mantissa). *)
Definition readFloat (s : string) : option (bool * bool * Z * Z * string) :=
  match s with
  | EmptyString => None
  | String c0 r0 =>
      let '(neg, s1) :=
        if Ascii.eqb c0 "+" then (false, r0)
        else if Ascii.eqb c0 "-" then (true, r0)
        else (false, s) in
      let '(hex, s2) :=
        match s1 with
        | String z (String x (String c r)) =>
            if Ascii.eqb z "0" && Ascii.eqb (lower x) "x"
            then (true, String c r) else (false, s1)
        | _ => (false, s1)
        end in
      let '(st, s3) :=
        read_mantissa hex
          {| sawdot := false; sawdigits := false; nd := 0; dp := 0;
             mantissa := 0; underscores := false |} s2 in
      if negb (sawdigits st) then None
      else
        let dp0 := if sawdot st then dp st else nd st in
        let scale := if hex then 4 else 1 in
        let expchar := if hex then "p"%char else "e"%char in
        let finish (dp1 : Z) (us : bool) (rest : string) :=
          let consumed :=
            String.substring 0 (String.length s - String.length rest) s in
          if us && negb (underscoreOK consumed) then None
          else Some (neg, hex, mantissa st, dp1 - scale * nd st, rest) in
        match s3 with
        | String c r =>
            if Ascii.eqb (lower c) expchar then
              match r with
              | EmptyString => None
              | String sg r' =>
                  let '(esign, s4) :=
                    if Ascii.eqb sg "+" then (1, r')
                    else if Ascii.eqb sg "-" then (-1, r')
                    else (1, r) in
                  match s4 with
                  | String d _ =>
                      if between 48 57 d then
                        let '(e, us, rest) := read_exponent 0 (underscores st) s4 in
                        finish (scale * dp0 + e * esign) us rest
                      else None
                  | EmptyString => None
                  end
              end
            else if hex then None
            else finish (scale * dp0) (underscores st) s3
        | EmptyString =>
            if hex then None else finish (scale * dp0) (underscores st) s3
        end
  end.

(** [None] stands for a non-nil [err]: a syntax error, text after the
    number, or a value that rounds beyond the largest finite float
    ([ErrRange]).  Otherwise the nearest float, ties to even.  The syntax
    is the one of Go 1.13 and later (hexadecimal mantissas and underscores
    between digits are read). *)
Definition ParseFloat (s : string) : option float64 :=
  match special s with
  | Some (f, n) => if n =? Z.of_nat (String.length s) then Some f else None
  | None =>
      match readFloat s with
      | Some (neg, hex, m, e, EmptyString) =>
          let f :=
            if m =? 0 then S754_zero neg
            else if hex then binary_normalize prec emax (cond_Zopp neg m) e neg
            else if 0 <=? e then round_ratio neg (m * 10 ^ e) 1
            else round_ratio neg m (10 ^ (- e)) in
          match f with
          | S754_infinity _ => None
          | _ => Some f
          end
      | _ => None
      end
  end.

(** *** [strconv.FormatFloat(f, 'f', -1, 64)] *)

(** The shortest decimal that reads back as [m * 2^e]: the three numbers
    [lower < value < upper] (the value and the half-way points to its
    neighbours) are scaled by [10^k] to integers [L], [V], [U]; digits are
    dropped from [V] as long as rounding down or up stays inside the
    interval (the ends count when [m] is even).  The result is the kept
    integer, still scaled by [10^k]. *)
Fixpoint shortest_from (j : nat) (inclusive : bool) (L V U : Z) : Z :=
  let p := 10 ^ Z.of_nat j in
  let down := V / p * p in
  let up := down + p in
  let okdown := (L <? down) || (inclusive && (L =? down)) in
  let okup := (up <? U) || (inclusive && (up =? U)) in
  let nearest :=
    match Z.compare (2 * (V - down)) p with
    | Lt => down
    | Gt => up
    | Eq => if Z.even (down / p) then down else up
    end in
  if okdown && okup then nearest
  else if okdown then down
  else if okup then up
  else match j with
       | O => V
       | S j' => shortest_from j' inclusive L V U
       end.

Definition shortest (m : positive) (e : Z) : Z * Z :=
  let k := Z.max 0 (2 - e) in
  let unit := if 0 <=? e - 2 then 2 ^ (e - 2) else 5 ^ k in
  let V := 4 * Zpos m * unit in
  let U := (4 * Zpos m + 2) * unit in
  let L := if (2 ^ 52 <? Zpos m) || (e =? -1074)
           then (4 * Zpos m - 2) * unit
           else (4 * Zpos m - 1) * unit in
  (shortest_from (Z.to_nat (Z.log2 U / 3 + 1)) (Z.even (Zpos m)) L V U, k).

(** The digits of [n] on [k] places, then without the zeros at the end. *)
Fixpoint fraction_digits (k : nat) (n : Z) (acc : string) : string :=
  match k with
  | O => acc
  | S k' =>
      let d := n mod 10 in
      let acc' := match acc with
                  | EmptyString => if d =? 0 then EmptyString
                                   else String (to_byte (48 + d)) EmptyString
                  | _ => String (to_byte (48 + d)) acc
                  end in
      fraction_digits k' (n / 10) acc'
  end.

Definition FormatFloat (f : float64) : string :=
  match f with
  | S754_nan => "NaN"
  | S754_infinity s => if s then "-Inf" else "+Inf"
  | S754_zero s => if s then "-0" else "0"
  | S754_finite s m e =>
      let '(r, k) := shortest m e in
      let int_part := FormatInt (r / 10 ^ k) in
      let frac := fraction_digits (Z.to_nat k) (r mod 10 ^ k) EmptyString in
      (if s then "-" else EmptyString) +:+ int_part +:+
      match frac with
      | EmptyString => EmptyString
      | _ => String "." frac
      end
  end.

End Go.

Import Go.

(** The double quote, which a string literal of this file cannot hold. *)
Definition dquote : ascii := "034"%char.
Definition squote : ascii := "'"%char.

(** ** Iceberg types *)

Definition T_UNDET : Z := 0.
Definition T_INT : Z := 1.
Definition T_FLOAT : Z := 2.
Definition T_BOOL : Z := 4.
Definition T_STR : Z := 8.
Definition T_LABEL : Z := 16.
Definition T_ANY : Z := 31.

Record Entity : Type := {
  Data : list ascii;
  E_type : Z
}.

Record instruction : Type := {
  Inst : string;
  Args : list Entity
}.

(** The field [label_table] of [Bytecode] is [code_labels] here, the name
    being taken by the field of the VM. *)
Record Bytecode : Type := {
  inst_list : list instruction;
  code_labels : gmap string Z
}.

(** What a handler or a host passes in an [interface{}]: an [int64], a
    [float64], a [bool] or a [string]; [VNamed] for a value of a defined
    type whose kind is one of these four (on which the type assertion of
    [itoentity] fails); [VOther] for a (non-nil) value of any other
    kind. *)
Inductive scalar : Type :=
| VInt (i : Z)
| VFloat (f : float64)
| VBool (b : bool)
| VString (s : string)
| VNamed
| VOther.

(** What the engine writes to standard output without stopping: the
    warnings, the lines of the host's [print] handler, and the listing of
    [dump] (whose line order follows Go's map iteration and is left
    open: the event holds the table). *)
Inductive Output : Type :=
| Warning (pos : Z) (message : string)
| Println (text : string)
| Dump (vars : gmap string Entity).

Record IcebergVM : Type := {
  exec_pos : Z;
  label_table : gmap string Z;
  var_table : gmap string Entity;
  stdout : list Output
}.

Record InstructionDesc : Type := {
  Function : list Entity -> IcebergVM -> Result IcebergVM;
  N_args : Z
}.

Definition set_exec_pos (pos : Z) (vm : IcebergVM) : IcebergVM :=
  {| exec_pos := pos; label_table := label_table vm;
     var_table := var_table vm; stdout := stdout vm |}.

Definition set_label_table (t : gmap string Z) (vm : IcebergVM) : IcebergVM :=
  {| exec_pos := exec_pos vm; label_table := t;
     var_table := var_table vm; stdout := stdout vm |}.

Definition set_var_table (t : gmap string Entity) (vm : IcebergVM) : IcebergVM :=
  {| exec_pos := exec_pos vm; label_table := label_table vm;
     var_table := t; stdout := stdout vm |}.

Definition print (o : Output) (vm : IcebergVM) : IcebergVM :=
  {| exec_pos := exec_pos vm; label_table := label_table vm;
     var_table := var_table vm; stdout := stdout vm ++ [o] |}.

(** ** Diagnostics *)

Definition compile_error {A : Type} (vm : IcebergVM) (message : string) : Result A :=
  Fail (CompileError (exec_pos vm + 1) message).

Definition Runtime_error {A : Type} (vm : IcebergVM) (message : string) : Result A :=
  Fail (RuntimeError (exec_pos vm) message).

Definition Runtime_warning (vm : IcebergVM) (message : string) : IcebergVM :=
  print (Warning (exec_pos vm) message) vm.

(** ** [encoding/binary], little endian *)

Definition write_uint64 (u : Z) : list ascii :=
  map (fun k => to_byte (Z.shiftr u (8 * k))) [0; 1; 2; 3; 4; 5; 6; 7].

Definition write_bool (b : bool) : list ascii :=
  [to_byte (if b then 1 else 0)].

(** [binary.Read] into a fixed-size value fails with [io.EOF] on an empty
    source and with [io.ErrUnexpectedEOF] on a short one; the result is the
    text of the error. *)
Definition short_read (data : list ascii) : string :=
  match data with
  | [] => "EOF"
  | _ => "unexpected EOF"
  end.

Definition read_uint64 (data : list ascii) : string + Z :=
  match data with
  | b0 :: b1 :: b2 :: b3 :: b4 :: b5 :: b6 :: b7 :: _ =>
      inr (fold_right (fun b acc => byte_val b + 256 * acc) 0
             [b0; b1; b2; b3; b4; b5; b6; b7])
  | _ => inl (short_read data)
  end.

Definition read_bool (data : list ascii) : string + bool :=
  match data with
  | b0 :: _ => inr (negb (byte_val b0 =? 0))
  | [] => inl (short_read data)
  end.

(** [b[lo:hi]]: a run-time panic unless [0 <= lo <= hi <= len(b)]. *)
Definition slice {A : Type} (b : list A) (lo hi : Z) : Result (list A) :=
  if (0 <=? lo) && (lo <=? hi) && (hi <=? Z.of_nat (length b))
  then Ok (take (Z.to_nat (hi - lo)) (drop (Z.to_nat lo) b))
  else Fail (GoPanic "runtime error: slice bounds out of range").

(** [a[i]]: a run-time panic unless [0 <= i < len(a)]. *)
Definition index {A : Type} (a : list A) (i : Z) : Result A :=
  if i <? 0 then Fail (GoPanic "runtime error: index out of range")
  else match a !! Z.to_nat i with
       | Some x => Ok x
       | None => Fail (GoPanic "runtime error: index out of range")
       end.

(** ** The operand classifier *)

(** [binary.Write] into a [bytes.Buffer] does not fail on the values
    written here, so the [System ERROR] branches after it are not taken. *)
Definition conv_arg (bs_arg : list ascii) : Result Entity :=
  let arg_str := string_of_bytes bs_arg in
  (* Label? *)
  if begins_with "@" arg_str then
    Ok {| Data := bytes_of_string arg_str; E_type := T_LABEL |}
  (* String? *)
  else if begins_with dquote arg_str || begins_with squote arg_str then
    let b_arg_str := bytes_of_string arg_str in
    inner ← slice b_arg_str 1 (Z.of_nat (length b_arg_str) - 1);
    Ok {| Data := inner; E_type := T_STR |}
  (* Boolean? *)
  else if String.eqb arg_str "true" || String.eqb arg_str "false" then
    Ok {| Data := write_bool (String.eqb arg_str "true"); E_type := T_BOOL |}
  else
    (* Int? *)
    match ParseInt arg_str with
    | Some int_arg => Ok {| Data := write_uint64 int_arg; E_type := T_INT |}
    | None =>
        (* Float? *)
        match ParseFloat arg_str with
        | Some float_arg =>
            Ok {| Data := write_uint64 (Float64bits float_arg); E_type := T_FLOAT |}
        | None =>
            Ok {| Data := bytes_of_string arg_str; E_type := T_UNDET |}
        end
    end.

(** ** The line tokenizer *)

(** The local variables of [parse_args]; [buf] is the filled part
    [buf[:buf_idx]] of the buffer. *)
Record tokenizer : Type := {
  args : list Entity;
  buf : list ascii;
  d_quote : bool;
  s_quote : bool;
  after_parentheses : bool
}.

Definition tokenizer_start : tokenizer :=
  {| args := []; buf := []; d_quote := false; s_quote := false;
     after_parentheses := false |}.

(** [buf[buf_idx] = b; buf_idx++] *)
Definition push (b : ascii) (st : tokenizer) : tokenizer :=
  {| args := args st; buf := buf st ++ [b]; d_quote := d_quote st;
     s_quote := s_quote st; after_parentheses := after_parentheses st |}.

(** [args = append(args, vm.conv_arg(buf[:buf_idx])); buf_idx = 0] *)
Definition emit (st : tokenizer) : Result tokenizer :=
  e ← conv_arg (buf st);
  Ok {| args := args st ++ [e]; buf := []; d_quote := d_quote st;
        s_quote := s_quote st; after_parentheses := after_parentheses st |}.

Definition set_quotes (d s ap : bool) (st : tokenizer) : tokenizer :=
  {| args := args st; buf := buf st; d_quote := d; s_quote := s;
     after_parentheses := ap |}.

Definition expected_comma (q : ascii) : string :=
  "Syntax ERROR: Expected , before " +:+ String q EmptyString.

Definition missing_quote (q : ascii) : string :=
  "Syntax ERROR: Missing " +:+ String q EmptyString.

(** One turn of the loop [for _, c := range line]. *)
Definition parse_args_step (vm : IcebergVM) (st : tokenizer) (c : Z)
  : Result tokenizer :=
  if d_quote st then
    if c =? rune dquote then
      st' ← emit (push dquote st);
      Ok (set_quotes false (s_quote st') true st')
    else Ok (push (to_byte c) st)
  else if s_quote st then
    if c =? rune squote then
      st' ← emit (push squote st);
      Ok (set_quotes (d_quote st') false true st')
    else Ok (push (to_byte c) st)
  else
    if c =? rune "," then
      if negb (after_parentheses st) then emit st
      else Ok (set_quotes (d_quote st) (s_quote st) false st)
    else if c =? rune dquote then
      if negb (Z.of_nat (length (buf st)) =? 0)
      then compile_error vm (expected_comma dquote)
      else Ok (set_quotes true (s_quote st) (after_parentheses st) (push dquote st))
    else if c =? rune squote then
      if negb (Z.of_nat (length (buf st)) =? 0)
      then compile_error vm (expected_comma squote)
      else Ok (set_quotes (d_quote st) true (after_parentheses st) (push squote st))
    else if negb (c =? rune " ") then
      if negb (after_parentheses st) then Ok (push (to_byte c) st)
      else Ok st
    else Ok st.

Fixpoint parse_args_loop (vm : IcebergVM) (st : tokenizer) (cs : list Z)
  : Result tokenizer :=
  match cs with
  | [] => Ok st
  | c :: cs' => st' ← parse_args_step vm st c; parse_args_loop vm st' cs'
  end.

Definition parse_args (vm : IcebergVM) (line : string) : Result (list Entity) :=
  st ← parse_args_loop vm tokenizer_start (runes line);
  st ← (if negb (Z.of_nat (length (buf st)) =? 0) then emit st else Ok st);
  if d_quote st then compile_error vm (missing_quote dquote)
  else if s_quote st then compile_error vm (missing_quote squote)
  else Ok (args st).

(** ** The program assembler *)

Definition chk_nargs (vm : IcebergVM) (args : list Entity) (expected_nargs : Z)
  : Result unit :=
  let n_elements := Z.of_nat (length args) in
  if expected_nargs <? n_elements then
    compile_error vm
      ("Syntax ERROR: Too many arguments(" +:+ FormatInt expected_nargs +:+
       " expected but " +:+ FormatInt n_elements +:+ " given)")
  else if n_elements <? expected_nargs then
    compile_error vm
      ("Syntax ERROR: Too few arguments(" +:+ FormatInt expected_nargs +:+
       " expected but " +:+ FormatInt n_elements +:+ " given)")
  else Ok tt.

Definition parse_oneline (Inst_table : gmap string InstructionDesc)
    (vm : IcebergVM) (line : string) (program : list instruction)
  : Result (list instruction) :=
  if lacks " " line then
    let instr := line in
    match Inst_table !! instr with
    | Some desc =>
        _ ← chk_nargs vm [] (N_args desc);
        Ok (program ++ [{| Inst := instr; Args := [] |}])
    | None =>
        if begins_with "@" line then
          Ok (program ++ [{| Inst := instr; Args := [] |}])
        else if negb (String.eqb line EmptyString) then
          compile_error vm ("Syntax ERROR: Unknown instruction " +:+ instr)
        else Ok program
    end
  else
    let '(instr, operands) := SplitN2 " " line in
    match Inst_table !! instr with
    | Some desc =>
        args ← parse_args vm operands;
        _ ← chk_nargs vm args (N_args desc);
        Ok (program ++ [{| Inst := instr; Args := args |}])
    | None =>
        if begins_with "@" instr then
          compile_error vm "Syntax ERROR: Expected newline after label definition"
        else
          compile_error vm ("Syntax ERROR: Unknown instruction " +:+ instr)
    end.

(** [new_program[i].Inst = "nop"] *)
Definition as_nop (instr : instruction) : instruction :=
  {| Inst := "nop"; Args := Args instr |}.

(** The loop of [set_labels] from index [i] on, [rest] being [program[i:]]. *)
Fixpoint set_labels_from (i : nat) (rest : list instruction)
    (new_program : list instruction) (label_table : gmap string Z)
  : list instruction * gmap string Z :=
  match rest with
  | [] => (new_program, label_table)
  | instr :: rest' =>
      if begins_with "@" (Inst instr) then
        set_labels_from (S i) rest'
          (alter as_nop i new_program)
          (<[Inst instr := Z.of_nat i]> label_table)
      else set_labels_from (S i) rest' new_program label_table
  end.

Definition set_labels (program : list instruction)
  : list instruction * gmap string Z :=
  set_labels_from 0 program program ∅.

Definition is_left_space (c : ascii) : bool :=
  Ascii.eqb c "010" || Ascii.eqb c "009" || Ascii.eqb c " ".

(** The loop of [parse_script] from line [i] on. *)
Fixpoint parse_lines (Inst_table : gmap string InstructionDesc) (i : Z)
    (lines : list string) (vm : IcebergVM) (program : list instruction)
  : Result (IcebergVM * list instruction) :=
  match lines with
  | [] => Ok (vm, program)
  | line :: lines' =>
      let vm := set_exec_pos i vm in
      let line := TrimLeftFunc is_left_space line in
      program ← parse_oneline Inst_table vm line program;
      parse_lines Inst_table (i + 1) lines' vm program
  end.

Definition parse_script (Inst_table : gmap string InstructionDesc)
    (vm : IcebergVM) (script : string)
  : Result (IcebergVM * (list instruction * gmap string Z)) :=
  '(vm, program) ← parse_lines Inst_table 0 (Split "010" script) vm [];
  Ok (vm, set_labels program).

(** The VM comes back with [exec_pos] at the last line read. *)
Definition Gen_bytecode (Inst_table : gmap string InstructionDesc)
    (vm : IcebergVM) (script : string) : Result (IcebergVM * Bytecode) :=
  '(vm, (program, label_table)) ← parse_script Inst_table vm script;
  Ok (vm, {| inst_list := program; code_labels := label_table |}).

(** ** The argument resolver *)

Definition read_failed (vm : IcebergVM) {A : Type} (err : string) : Result A :=
  Runtime_error vm ("System ERROR: Get_argument() failed. err: " +:+ err).

(** The part of [Get_argument] after the symbol indirection. *)
Definition decode (vm : IcebergVM) (arg : Entity) (type_mask : Z)
  : Result (scalar * Z) :=
  if Z.land (E_type arg) type_mask =? 0 then
    Runtime_error vm "Type ERROR: Type mismatch"
  else if E_type arg =? T_INT then
    match read_uint64 (Data arg) with
    | inr u => Ok (VInt (wrap64 u), T_INT)
    | inl err => read_failed vm err
    end
  else if E_type arg =? T_FLOAT then
    match read_uint64 (Data arg) with
    | inr u => Ok (VFloat (Float64frombits u), T_FLOAT)
    | inl err => read_failed vm err
    end
  else if E_type arg =? T_BOOL then
    match read_bool (Data arg) with
    | inr b => Ok (VBool b, T_BOOL)
    | inl err => read_failed vm err
    end
  else if E_type arg =? T_STR then
    Ok (VString (string_of_bytes (Data arg)), T_STR)
  else if E_type arg =? T_LABEL then
    Ok (VString (string_of_bytes (Data arg)), T_LABEL)
  else
    Runtime_error vm
      ("System ERROR: Unknown typeid " +:+ FormatInt (E_type arg) +:+
       ". Maybe incompatible bytecode?").

(** [Get_argument] calls itself on the value a symbol is bound to; [depth]
    bounds the calls still allowed. *)
Fixpoint Get_argument_rec (depth : nat) (vm : IcebergVM) (arg : Entity)
    (type_mask : Z) : Result (scalar * Z) :=
  if E_type arg =? T_UNDET then
    let symbol := string_of_bytes (Data arg) in
    match var_table vm !! symbol with
    | None => Runtime_error vm ("Argument ERROR: Unbound symbol " +:+ symbol)
    | Some sym_value =>
        match depth with
        | O => Fail StackOverflow
        | S depth' => Get_argument_rec depth' vm sym_value type_mask
        end
    end
  else decode vm arg type_mask.

(** A chain of bindings that ends visits each symbol at most once, so it
    makes at most [size (var_table vm)] calls; a longer one runs in a cycle
    and never returns. *)
Definition Get_argument (vm : IcebergVM) (arg : Entity) (type_mask : Z)
  : Result (scalar * Z) :=
  Get_argument_rec (S (size (var_table vm))) vm arg type_mask.

Definition Get_baresymbol (vm : IcebergVM) (value : Entity) : Result string :=
  if negb (E_type value =? T_UNDET) then
    Runtime_error vm "Type ERROR: Type mismatch"
  else Ok (string_of_bytes (Data value)).

(** ** The variable store *)

Definition itoentity (vm : IcebergVM) (value : scalar) : Result Entity :=
  match value with
  | VInt i => Ok {| Data := write_uint64 i; E_type := T_INT |}
  | VFloat f => Ok {| Data := write_uint64 (Float64bits f); E_type := T_FLOAT |}
  | VBool b => Ok {| Data := write_bool b; E_type := T_BOOL |}
  | VString s => Ok {| Data := bytes_of_string s; E_type := T_STR |}
  | VNamed => Fail (GoPanic "interface conversion")
  | VOther =>
      Runtime_error vm
        "VM ERROR: Tried to convert a value with type that is not compatible with Iceberg"
  end.

Definition Assign_var (vm : IcebergVM) (symbol : string) (value : scalar)
  : Result IcebergVM :=
  source ← itoentity vm value;
  match var_table vm !! symbol with
  | Some registered =>
      if negb (E_type registered =? E_type source) then
        Runtime_error vm "Type ERROR: Type mismatch"
      else Ok (set_var_table (<[symbol := source]> (var_table vm)) vm)
  | None =>
      test_ent ← conv_arg (bytes_of_string symbol);
      if negb (E_type test_ent =? T_UNDET) then
        Runtime_error vm ("Type ERROR: Invalid symbol name " +:+ symbol)
      else Ok (set_var_table (<[symbol := source]> (var_table vm)) vm)
  end.

(** ** The built-in handlers *)

(** A failed type assertion [x.(T)] panics. *)
Definition bad_assertion {A : Type} : Result A :=
  Fail (GoPanic "interface conversion").

Definition inst_nop (args : list Entity) (vm : IcebergVM) : Result IcebergVM :=
  Ok vm.

Definition inst_let (args : list Entity) (vm : IcebergVM) : Result IcebergVM :=
  a0 ← index args 0;
  sym_name ← Get_baresymbol vm a0;
  a1 ← index args 1;
  '(value, _) ← Get_argument vm a1 T_ANY;
  Assign_var vm sym_name value.

(** [x % y] on [int64]: a run-time panic when [y] is zero; the remainder
    has the sign of [x] (and [MinInt64 % -1] is 0). *)
Definition int64_rem (x y : Z) : Result Z :=
  if y =? 0 then Fail (GoPanic "runtime error: integer divide by zero")
  else Ok (Z.rem x y).

Section Arithmetic.

(** [math.Pow] *)
Variable math_Pow : float64 -> float64 -> float64.

Definition arb_calc (args : list Entity) (operator : string) (vm : IcebergVM)
  : Result IcebergVM :=
  a0 ← index args 0;
  '(ope_a, type_a) ← Get_argument vm a0 (Z.lor T_INT T_FLOAT);
  a1 ← index args 1;
  '(ope_b, _) ← Get_argument vm a1 type_a;
  '(ope_a_s, ope_b_s) ←
    (if type_a =? T_INT then
       match ope_a, ope_b with
       | VInt a, VInt b => Ok (float64_of_int a, float64_of_int b)
       | _, _ => bad_assertion
       end
     else
       match ope_a, ope_b with
       | VFloat a, VFloat b => Ok (a, b)
       | _, _ => bad_assertion
       end);
  '(source, is_divr) ←
    (if String.eqb operator "+" then Ok (fadd ope_a_s ope_b_s, false)
     else if String.eqb operator "-" then Ok (fsub ope_a_s ope_b_s, false)
     else if String.eqb operator "*" then Ok (fmul ope_a_s ope_b_s, false)
     else if String.eqb operator "//" then
       if feqb ope_b_s fzero then Runtime_error vm "Math ERROR: Division by zero"
       else Ok (Floor (fdiv ope_a_s ope_b_s), false)
     else if String.eqb operator "/" then
       if feqb ope_b_s fzero then Runtime_error vm "Math ERROR: Division by zero"
       else Ok (fdiv ope_a_s ope_b_s, true)
     else if String.eqb operator "%" then
       if feqb ope_b_s fzero then Runtime_error vm "Math ERROR: Division by zero"
       else
         r ← int64_rem (int64_of_float ope_a_s) (int64_of_float ope_b_s);
         Ok (float64_of_int r, false)
     else if String.eqb operator "**" then Ok (math_Pow ope_a_s ope_b_s, false)
     else
       Runtime_error vm
         ("System ERROR: Unknown operator " +:+ operator +:+
          " Possibly a bug in VM"));
  let ans :=
    if (type_a =? T_INT) && negb is_divr
    then VInt (int64_of_float source)
    else VFloat source in
  a2 ← index args 2;
  sym_name ← Get_baresymbol vm a2;
  Assign_var vm sym_name ans.

Definition inst_add (args : list Entity) := arb_calc args "+".
Definition inst_sub (args : list Entity) := arb_calc args "-".
Definition inst_mul (args : list Entity) := arb_calc args "*".
Definition inst_div (args : list Entity) := arb_calc args "//".
Definition inst_div_r (args : list Entity) := arb_calc args "/".
Definition inst_mod (args : list Entity) := arb_calc args "%".
Definition inst_pow (args : list Entity) := arb_calc args "**".

End Arithmetic.

(** [%x] of a string: two lower-case hexadecimal digits for each byte. *)
Definition hex_digit (d : Z) : ascii :=
  if d <? 10 then to_byte (48 + d) else to_byte (87 + d).

Fixpoint hex_of_string (s : string) : string :=
  match s with
  | EmptyString => EmptyString
  | String c r =>
      String (hex_digit (byte_val c / 16))
        (String (hex_digit (byte_val c mod 16)) (hex_of_string r))
  end.

(** The six comparators on a three-way comparison; [None] when the
    operands are unordered (a NaN). *)
Definition compare_by (op : string) (c : option comparison) : option bool :=
  let holds (x : comparison) :=
    match c with
    | Some y => match x, y with
                | Lt, Lt | Eq, Eq | Gt, Gt => true
                | _, _ => false
                end
    | None => false
    end in
  if String.eqb op ">" then Some (holds Gt)
  else if String.eqb op ">=" then Some (holds Gt || holds Eq)
  else if String.eqb op "==" then Some (holds Eq)
  else if String.eqb op "<=" then Some (holds Lt || holds Eq)
  else if String.eqb op "<" then Some (holds Lt)
  else if String.eqb op "!=" then Some (negb (holds Eq))
  else None.

Definition inst_cmp (args : list Entity) (vm : IcebergVM) : Result IcebergVM :=
  a0 ← index args 0;
  '(ope_a, type_a) ←
    Get_argument vm a0 (Z.lxor (Z.lxor T_ANY T_BOOL) T_LABEL);
  a1 ← index args 1;
  '(ope_b, _) ← Get_argument vm a1 T_STR;
  a2 ← index args 2;
  '(ope_c, _) ← Get_argument vm a2 type_a;
  source ←
    (if type_a =? T_STR then
       match ope_b, ope_a, ope_c with
       | VString op, VString a, VString c =>
           match compare_by op (Some (String.compare a c)) with
           | Some b => Ok b
           | None => Runtime_error vm ("Argument ERROR: Unknown oeprator " +:+ op)
           end
       | _, _, _ => bad_assertion
       end
     else
       '(ope_a_s, ope_c_s) ←
         (if type_a =? T_INT then
            match ope_a, ope_c with
            | VInt a, VInt c => Ok (float64_of_int a, float64_of_int c)
            | _, _ => bad_assertion
            end
          else
            match ope_a, ope_c with
            | VFloat a, VFloat c => Ok (a, c)
            | _, _ => bad_assertion
            end);
       match ope_b with
       | VString op =>
           match compare_by op (SFcompare ope_a_s ope_c_s) with
           | Some b => Ok b
           | None =>
               Runtime_error vm
                 ("Argument ERROR: Unknown oeprator " +:+ hex_of_string op +:+
                  ", " +:+ hex_of_string "<")
           end
       | _ => bad_assertion
       end);
  a3 ← index args 3;
  sym_name ← Get_baresymbol vm a3;
  Assign_var vm sym_name (VBool source).

Definition arb_bool (args : list Entity) (operator : string) (vm : IcebergVM)
  : Result IcebergVM :=
  a0 ← index args 0;
  '(ope_a, _) ← Get_argument vm a0 T_BOOL;
  a1 ← index args 1;
  '(ope_b, _) ← Get_argument vm a1 T_BOOL;
  source ←
    match ope_a, ope_b with
    | VBool a, VBool b =>
        if String.eqb operator "and" then Ok (a && b)
        else if String.eqb operator "or" then Ok (a || b)
        else if String.eqb operator "xor" then Ok (xorb a b)
        else
          Runtime_error vm
            ("System ERROR: Unknown operator " +:+ operator +:+
             " Possibly a bug in VM")
    | _, _ =>
        if String.eqb operator "and" || String.eqb operator "or" ||
           String.eqb operator "xor"
        then bad_assertion
        else
          Runtime_error vm
            ("System ERROR: Unknown operator " +:+ operator +:+
             " Possibly a bug in VM")
    end;
  a2 ← index args 2;
  sym_name ← Get_baresymbol vm a2;
  Assign_var vm sym_name (VBool source).

Definition inst_and (args : list Entity) := arb_bool args "and".
Definition inst_or (args : list Entity) := arb_bool args "or".
Definition inst_xor (args : list Entity) := arb_bool args "xor".

Definition inst_not (args : list Entity) (vm : IcebergVM) : Result IcebergVM :=
  a0 ← index args 0;
  '(operand, _) ← Get_argument vm a0 T_BOOL;
  a1 ← index args 1;
  sym_name ← Get_baresymbol vm a1;
  match operand with
  | VBool b => Assign_var vm sym_name (VBool (negb b))
  | _ => bad_assertion
  end.

Definition inst_int (args : list Entity) (vm : IcebergVM) : Result IcebergVM :=
  a1 ← index args 1;
  '(operand, type_o) ← Get_argument vm a1 (Z.lor T_INT T_FLOAT);
  '(vm, source) ←
    (if type_o =? T_INT then
       let vm := Runtime_warning vm "Unnecessary cast T_INT->T_INT" in
       match operand with
       | VInt i => Ok (vm, i)
       | _ => bad_assertion
       end
     else
       match operand with
       | VFloat f => Ok (vm, int64_of_float f)
       | _ => bad_assertion
       end);
  a0 ← index args 0;
  sym_name ← Get_baresymbol vm a0;
  Assign_var vm sym_name (VInt source).

Definition inst_float (args : list Entity) (vm : IcebergVM) : Result IcebergVM :=
  a1 ← index args 1;
  '(operand, type_o) ← Get_argument vm a1 (Z.lor T_INT T_FLOAT);
  '(vm, source) ←
    (if type_o =? T_FLOAT then
       let vm := Runtime_warning vm "Unnecessary cast T_FLOAT->T_FLOAT" in
       match operand with
       | VFloat f => Ok (vm, f)
       | _ => bad_assertion
       end
     else
       match operand with
       | VInt i => Ok (vm, float64_of_int i)
       | _ => bad_assertion
       end);
  a0 ← index args 0;
  sym_name ← Get_baresymbol vm a0;
  Assign_var vm sym_name (VFloat source).

Definition inst_bool (args : list Entity) (vm : IcebergVM) : Result IcebergVM :=
  a1 ← index args 1;
  '(operand, type_o) ← Get_argument vm a1 (Z.lxor T_ANY T_LABEL);
  '(vm, source) ←
    (if type_o =? T_INT then
       match operand with
       | VInt i => Ok (vm, negb (i =? 0))
       | _ => bad_assertion
       end
     else if type_o =? T_FLOAT then
       match operand with
       | VFloat f => Ok (vm, negb (feqb f fzero))
       | _ => bad_assertion
       end
     else if type_o =? T_BOOL then
       let vm := Runtime_warning vm "Unnecessary cast T_BOOL->T_BOOL" in
       match operand with
       | VBool b => Ok (vm, b)
       | _ => bad_assertion
       end
     else if type_o =? T_STR then
       match operand with
       | VString s => Ok (vm, negb (String.eqb s EmptyString))
       | _ => bad_assertion
       end
     else Ok (vm, false));
  a0 ← index args 0;
  sym_name ← Get_baresymbol vm a0;
  Assign_var vm sym_name (VBool source).

Definition inst_str (args : list Entity) (vm : IcebergVM) : Result IcebergVM :=
  a1 ← index args 1;
  '(operand, type_o) ← Get_argument vm a1 (Z.lxor T_ANY T_LABEL);
  '(vm, source) ←
    (if type_o =? T_INT then
       match operand with
       | VInt i => Ok (vm, FormatInt i)
       | _ => bad_assertion
       end
     else if type_o =? T_FLOAT then
       match operand with
       | VFloat f => Ok (vm, FormatFloat f)
       | _ => bad_assertion
       end
     else if type_o =? T_BOOL then
       match operand with
       | VBool b => Ok (vm, if b then "false" else "true")
       | _ => bad_assertion
       end
     else if type_o =? T_STR then
       let vm := Runtime_warning vm "Unnecessary cast T_STR->T_STR" in
       match operand with
       | VString s => Ok (vm, s)
       | _ => bad_assertion
       end
     else Ok (vm, EmptyString));
  a0 ← index args 0;
  sym_name ← Get_baresymbol vm a0;
  Assign_var vm sym_name (VString source).

Definition inst_cat (args : list Entity) (vm : IcebergVM) : Result IcebergVM :=
  a0 ← index args 0;
  '(ope_a, _) ← Get_argument vm a0 T_STR;
  a1 ← index args 1;
  '(ope_b, _) ← Get_argument vm a1 T_STR;
  a2 ← index args 2;
  sym_name ← Get_baresymbol vm a2;
  match ope_a, ope_b with
  | VString a, VString b => Assign_var vm sym_name (VString (a +:+ b))
  | _, _ => bad_assertion
  end.

Definition unset_label (label : string) : string :=
  "Argument ERROR: Unset label " +:+ label.

Definition inst_goto (args : list Entity) (vm : IcebergVM) : Result IcebergVM :=
  a0 ← index args 0;
  '(operand, _) ← Get_argument vm a0 T_LABEL;
  match operand with
  | VString label =>
      match label_table vm !! label with
      | None => Runtime_error vm (unset_label label)
      | Some prog_idx => Ok (set_exec_pos prog_idx vm)
      end
  | _ => bad_assertion
  end.

Definition inst_when (args : list Entity) (vm : IcebergVM) : Result IcebergVM :=
  a1 ← index args 1;
  '(operand, _) ← Get_argument vm a1 T_LABEL;
  a0 ← index args 0;
  '(criteria, _) ← Get_argument vm a0 T_BOOL;
  match operand with
  | VString label =>
      match label_table vm !! label with
      | None => Runtime_error vm (unset_label label)
      | Some prog_idx =>
          match criteria with
          | VBool true => Ok (set_exec_pos prog_idx vm)
          | VBool false => Ok vm
          | _ => bad_assertion
          end
      end
  | _ => bad_assertion
  end.

(** [dump] resolves every stored value before it prints its line; the
    first value that does not resolve, in the order of the iteration, ends
    the run. *)
Fixpoint dump_check (vm : IcebergVM) (entries : list (string * Entity))
  : Result unit :=
  match entries with
  | [] => Ok tt
  | (_, value) :: rest =>
      _ ← Get_argument vm value T_ANY;
      dump_check vm rest
  end.

Definition inst_dump (args : list Entity) (vm : IcebergVM) : Result IcebergVM :=
  _ ← dump_check vm (map_to_list (var_table vm));
  Ok (print (Dump (var_table vm)) vm).

(** The handler [inst_print] that [misc/benchmark.go] registers. *)
Definition inst_print (args : list Entity) (vm : IcebergVM) : Result IcebergVM :=
  a0 ← index args 0;
  '(operand, _) ← Get_argument vm a0 T_STR;
  match operand with
  | VString s => Ok (print (Println s) vm)
  | _ => bad_assertion
  end.

(** ** Initialisation *)

Definition Init_vm : IcebergVM :=
  {| exec_pos := 0; label_table := ∅; var_table := ∅; stdout := [] |}.

Definition desc (f : list Entity -> IcebergVM -> Result IcebergVM) (n : Z)
  : InstructionDesc := {| Function := f; N_args := n |}.

(** The instruction table [Init] fills. *)
Definition Init (math_Pow : float64 -> float64 -> float64)
  : gmap string InstructionDesc :=
  <["dump" := desc inst_dump 0]> (
  <["when" := desc inst_when 2]> (
  <["goto" := desc inst_goto 1]> (
  <["cat" := desc inst_cat 3]> (
  <["str" := desc inst_str 2]> (
  <["bool" := desc inst_bool 2]> (
  <["float" := desc inst_float 2]> (
  <["int" := desc inst_int 2]> (
  <["not" := desc inst_not 2]> (
  <["xor" := desc inst_xor 3]> (
  <["or" := desc inst_or 3]> (
  <["and" := desc inst_and 3]> (
  <["cmp" := desc inst_cmp 4]> (
  <["pow" := desc (inst_pow math_Pow) 3]> (
  <["mod" := desc (inst_mod math_Pow) 3]> (
  <["div_r" := desc (inst_div_r math_Pow) 3]> (
  <["div" := desc (inst_div math_Pow) 3]> (
  <["mul" := desc (inst_mul math_Pow) 3]> (
  <["sub" := desc (inst_sub math_Pow) 3]> (
  <["add" := desc (inst_add math_Pow) 3]> (
  <["let" := desc inst_let 2]> (
  <["nop" := desc inst_nop 0]> ∅))))))))))))))))))))).

(** [testVM.start] of [misc/benchmark.go]. *)
Definition start (math_Pow : float64 -> float64 -> float64)
  : gmap string InstructionDesc :=
  <["print" := desc inst_print 1]> (Init math_Pow).

(** ** The dispatch loop *)

(** One turn of the loop of [Run]: fetch, call the handler, increment. *)
Definition Run_step (Inst_table : gmap string InstructionDesc)
    (code : Bytecode) (vm : IcebergVM) : Result IcebergVM :=
  instr ← index (inst_list code) (exec_pos vm);
  match Inst_table !! Inst instr with
  | None =>
      Fail (GoPanic "runtime error: invalid memory address or nil pointer dereference")
  | Some d =>
      vm ← Function d (Args instr) vm;
      Ok (set_exec_pos (wrap64 (exec_pos vm + 1)) vm)
  end.

(** The loop itself need not end; [None] when it is still running after
    [fuel] turns. *)
Fixpoint Run_loop (fuel : nat) (Inst_table : gmap string InstructionDesc)
    (code : Bytecode) (vm : IcebergVM) : option (Result IcebergVM) :=
  let inst_max := Z.of_nat (length (inst_list code)) - 1 in
  if exec_pos vm <=? inst_max then
    match fuel with
    | O => None
    | S fuel' =>
        match Run_step Inst_table code vm with
        | Ok vm' => Run_loop fuel' Inst_table code vm'
        | Fail f => Some (Fail f)
        end
    end
  else Some (Ok vm).

(** The two assignments [Run] starts with. *)
Definition Run_enter (code : Bytecode) (vm : IcebergVM) : IcebergVM :=
  set_label_table (code_labels code) (set_exec_pos 0 vm).

Definition Run (fuel : nat) (Inst_table : gmap string InstructionDesc)
    (code : Bytecode) (vm : IcebergVM) : option (Result IcebergVM) :=
  Run_loop fuel Inst_table code (Run_enter code vm).

(** What a host does with a source text on a VM fresh from [Init]:
    [Gen_bytecode], then [Run].  The outer result is the one of the
    assembler; [None] inside it is a run that has not ended after [fuel]
    turns of the loop. *)
Definition run_script (Inst_table : gmap string InstructionDesc) (fuel : nat)
    (script : string) : Result (option (Result IcebergVM)) :=
  '(vm, code) ← Gen_bytecode Inst_table Init_vm script;
  Ok (Run fuel Inst_table code vm).

(** ** Vocabulary of the statements *)

(** The operands the classifier produces: a bare symbol, and the literals
    of each kind. *)
Definition sym (name : string) : Entity :=
  {| Data := bytes_of_string name; E_type := T_UNDET |}.
Definition lit_label (name : string) : Entity :=
  {| Data := bytes_of_string name; E_type := T_LABEL |}.
Definition lit_str (s : string) : Entity :=
  {| Data := bytes_of_string s; E_type := T_STR |}.
Definition lit_bool (b : bool) : Entity :=
  {| Data := write_bool b; E_type := T_BOOL |}.
Definition lit_int (i : Z) : Entity :=
  {| Data := write_uint64 i; E_type := T_INT |}.
Definition lit_float (f : float64) : Entity :=
  {| Data := write_uint64 (Float64bits f); E_type := T_FLOAT |}.

(** Every label of the table points at an instruction whose mnemonic is
    [nop]. *)
Definition labels_at_nops (program : list instruction) (labels : gmap string Z)
  : Prop :=
  forall (L : string) (i : Z),
    labels !! L = Some i ->
    0 <= i /\
    exists instr, program !! Z.to_nat i = Some instr /\ Inst instr = "nop".

(** A binding of [vm] is still there in [vm'], with a value of the same
    kind. *)
Definition bindings_kept (vm vm' : IcebergVM) : Prop :=
  forall (name : string) (e : Entity),
    var_table vm !! name = Some e ->
    exists e', var_table vm' !! name = Some e' /\ E_type e' = E_type e.

(** A handler that leaves the label table alone and keeps every binding
    with its kind. *)
Definition keeps_frame (h : list Entity -> IcebergVM -> Result IcebergVM)
  : Prop :=
  forall (args : list Entity) (vm vm' : IcebergVM),
    h args vm = Ok vm' ->
    label_table vm' = label_table vm /\ bindings_kept vm vm'.


(** An instruction table all of whose handlers keep the frame. *)
Definition frame_table (Inst_table : gmap string InstructionDesc) : Prop :=
  map_Forall (fun _ d => keeps_frame (Function d)) Inst_table.

(** [name] is one of the bare symbols among the operands. *)
Definition names (args : list Entity) (name : string) : Prop :=
  exists a, a ∈ args /\ E_type a = T_UNDET /\ string_of_bytes (Data a) = name.

(** Some instruction of the program has [name] among its operands. *)
Definition names_in (code : Bytecode) (name : string) : Prop :=
  exists instr, instr ∈ inst_list code /\ names (Args instr) name.

(** A handler that writes no variable but those its operands name. *)
Definition writes_its_operands
    (h : list Entity -> IcebergVM -> Result IcebergVM) : Prop :=
  forall (args : list Entity) (vm vm' : IcebergVM) (name : string),
    h args vm = Ok vm' -> ~ names args name ->
    var_table vm' !! name = var_table vm !! name.

Definition writes_table (Inst_table : gmap string InstructionDesc) : Prop :=
  map_Forall (fun _ d => writes_its_operands (Function d)) Inst_table.

(** A float of magnitude at least one: an infinity, or a finite
    [m * 2^e] with [2^(-e) <= m]. *)
Definition at_least_one (f : float64) : Prop :=
  match f with
  | S754_finite _ m e => 0 <= e \/ 2 ^ (- e) <= Zpos m
  | S754_infinity _ => True
  | _ => False
  end.

(** The operators of [div], [div_r] and [mod]. *)
Definition division_operator (operator : string) : Prop :=
  operator = "//" \/ operator = "/" \/ operator = "%".

(** A name that is one quote character and nothing else. *)
Definition lone_quote (name : string) : Prop :=
  name = String dquote EmptyString \/ name = String squote EmptyString.

(** ** Sample inputs *)

(** The floats the classifier reads from [1.0] and [0.5]. *)
Definition one : float64 := S754_finite false 4503599627370496 (-52).
Definition half : float64 := S754_finite false 4503599627370496 (-53).

(** Stands for [math.Pow] in the sample runs, none of which raises to a
    power. *)
Definition pow_unused : float64 -> float64 -> float64 := fun _ _ => NaN.

Definition newline : string := String "010" EmptyString.

(** A counting loop, and what [Gen_bytecode] makes of it. *)
Definition loop_script : string :=
  "let i, 0" +:+ newline +:+ "@loop" +:+ newline +:+
  "add i, 1, i" +:+ newline +:+ "goto @loop".

Definition loop_code : Bytecode :=
  {| inst_list :=
       [ {| Inst := "let"; Args := [sym "i"; lit_int 0] |};
         {| Inst := "nop"; Args := [] |};
         {| Inst := "add"; Args := [sym "i"; lit_int 1; sym "i"] |};
         {| Inst := "goto"; Args := [lit_label "@loop"] |} ];
     code_labels := {[ "@loop" := 1 ]} |}.

(** The VM about to run the [goto] of the loop. *)
Definition vm_at_goto : IcebergVM :=
  {| exec_pos := 3; label_table := code_labels loop_code;
     var_table := {[ "i" := lit_int 1 ]}; stdout := [] |}.

(** Two programs run one after the other on one VM. *)
Definition first_code : Bytecode :=
  {| inst_list := [ {| Inst := "let"; Args := [sym "x"; lit_int 3] |} ];
     code_labels := ∅ |}.

Definition second_code : Bytecode :=
  {| inst_list :=
       [ {| Inst := "nop"; Args := [] |};
         {| Inst := "let"; Args := [sym "y"; lit_int 4] |} ];
     code_labels := {[ "@a" := 0 ]} |}.

Definition vm_after_first : IcebergVM :=
  {| exec_pos := 1; label_table := ∅;
     var_table := {[ "x" := lit_int 3 ]}; stdout := [] |}.

Definition vm_after_second : IcebergVM :=
  {| exec_pos := 2; label_table := {[ "@a" := 0 ]};
     var_table := <[ "y" := lit_int 4 ]> {[ "x" := lit_int 3 ]}; stdout := [] |}.

(** A second program that assigns the variable of the first, and the VM
    after it. *)
Definition reassign_code : Bytecode :=
  {| inst_list := [ {| Inst := "let"; Args := [sym "x"; lit_int 4] |} ];
     code_labels := ∅ |}.

Definition vm_after_reassign : IcebergVM :=
  {| exec_pos := 1; label_table := ∅;
     var_table := {[ "x" := lit_int 4 ]}; stdout := [] |}.

(** A VM in which [x] holds the INT 5, and the same after [str D, x]. *)
Definition vm_x5 : IcebergVM :=
  {| exec_pos := 0; label_table := ∅;
     var_table := {[ "x" := lit_int 5 ]}; stdout := [] |}.

Definition vm_x5_D : IcebergVM :=
  set_var_table (<[ "D" := lit_str "5" ]> (var_table vm_x5)) vm_x5.

(** Operand texts with quoted tokens: a quoted [a]; the same followed by
    a bare [b]; the same followed by a quoted [b]. *)
Definition quoted_a : string := String dquote ("a" +:+ String dquote EmptyString).


(** The tokenizer inside the quoted token of [quoted_a], and after it. *)
Definition inside_quoted_a : tokenizer :=
  {| args := []; buf := [dquote; "a"%char]; d_quote := true; s_quote := false;
     after_parentheses := false |}.




(** ** Vocabulary of the further properties *)

(** A float [Float64bits] represents faithfully. *)
Definition valid_float (f : float64) : Prop := valid_binary prec emax f = true.

(** The kind [itoentity] gives a host value. *)
Definition kind_of (value : scalar) : Z :=
  match value with
  | VInt _ => T_INT
  | VFloat _ => T_FLOAT
  | VBool _ => T_BOOL
  | VString _ => T_STR
  | VNamed => T_UNDET
  | VOther => T_UNDET
  end.

(** A host value of one of the four kinds, in the range of its Go type. *)
Definition storable (value : scalar) : Prop :=
  match value with
  | VInt i => MinInt64 <= i <= MaxInt64
  | VFloat f => valid_float f
  | VBool _ => True
  | VString _ => True
  | VNamed => False
  | VOther => False
  end.

(** A resolved scalar has the Go type of its kind, in range. *)
Definition resolved_shape (value : scalar) (kind : Z) : Prop :=
  storable value /\
  (kind = kind_of value \/ (kind = T_LABEL /\ exists s, value = VString s)).

(** The two quote characters. *)
Definition is_quote (q : ascii) : Prop := q = dquote \/ q = squote.

(** The bytes an unquoted stretch of characters leaves in the buffer:
    spaces are skipped, every other character is cut to its low byte. *)
Definition unquoted_bytes (cs : list Z) : list ascii :=
  map to_byte (filter (fun c => c <> rune " ") cs).

(** No comma and no quote. *)
Definition token_char (c : Z) : Prop :=
  c <> rune "," /\ c <> rune dquote /\ c <> rune squote.

(** The ways the handler of the instruction at [pos] is written to stop a
    run: a runtime diagnostic that carries [pos], and the division of
    [mod]. *)
Definition run_failure (pos : Z) (f : Failure) : Prop :=
  (exists message, f = RuntimeError pos message) \/
  f = GoPanic "runtime error: integer divide by zero".

(** [r] yields a value that satisfies [Q], or fails as [F] allows. *)
Definition wp {A : Type} (F : Failure -> Prop) (r : Result A) (Q : A -> Prop)
  : Prop :=
  match r with
  | Ok x => Q x
  | Fail f => F f
  end.

(** The kinds [itoentity] writes. *)
Definition value_kind (k : Z) : Prop :=
  k = T_INT \/ k = T_FLOAT \/ k = T_BOOL \/ k = T_STR.

(** Every variable holds a value of one of the four kinds (and no symbol). *)
Definition values_stored (vm : IcebergVM) : Prop :=
  map_Forall (fun _ e => value_kind (E_type e)) (var_table vm).

(** An operand the classifier has produced. *)
Definition classified (e : Entity) : Prop := exists tok, conv_arg tok = Ok e.

(** A name on which the classifier returns. *)
Definition assignable (name : string) : Prop :=
  exists e, conv_arg (bytes_of_string name) = Ok e.

(** What a handler leaves behind: values of the four kinds, the label
    table it found, and a program counter that stayed or moved to a
    label. *)
Definition handler_post (vm vm' : IcebergVM) : Prop :=
  values_stored vm' /\ label_table vm' = label_table vm /\
  (exec_pos vm' = exec_pos vm \/
   exists L, label_table vm !! L = Some (exec_pos vm')).

(** The contract of a handler registered for [n] operands. *)
Definition well_behaved (n : Z)
    (h : list Entity -> IcebergVM -> Result IcebergVM) : Prop :=
  forall (args : list Entity) (vm : IcebergVM),
    Z.of_nat (length args) = n -> Forall classified args -> values_stored vm ->
    wp (run_failure (exec_pos vm)) (h args vm) (handler_post vm).

(** A table all of whose handlers keep their contract. *)
Definition well_behaved_table (Inst_table : gmap string InstructionDesc) : Prop :=
  map_Forall (fun _ d => well_behaved (N_args d) (Function d)) Inst_table.

(** An instruction the table knows, with as many operands as the table
    says, all of them from the classifier. *)
Definition known_instruction (Inst_table : gmap string InstructionDesc)
    (instr : instruction) : Prop :=
  (exists d, Inst_table !! Inst instr = Some d /\
             N_args d = Z.of_nat (length (Args instr))) /\
  Forall classified (Args instr).

(** What [parse_oneline] appends: a known instruction, or a label line. *)
Definition assembled (Inst_table : gmap string InstructionDesc)
    (instr : instruction) : Prop :=
  known_instruction Inst_table instr \/
  (Inst_table !! Inst instr = None /\ begins_with "@" (Inst instr) = true /\
   Args instr = []).

(** Code the loop of [Run] can execute: known instructions, labels that
    point inside the program, and a length an [int64] holds. *)
Definition well_formed (Inst_table : gmap string InstructionDesc)
    (code : Bytecode) : Prop :=
  Forall (known_instruction Inst_table) (inst_list code) /\
  (forall L i, code_labels code !! L = Some i ->
               0 <= i < Z.of_nat (length (inst_list code))) /\
  Z.of_nat (length (inst_list code)) <= MaxInt64.

(** A table with [nop] for no operand and no mnemonic that reads as a
    label. *)
Definition plain_table (Inst_table : gmap string InstructionDesc) : Prop :=
  (exists d, Inst_table !! "nop" = Some d /\ N_args d = 0) /\
  map_Forall (fun name _ => begins_with "@" name = false) Inst_table.

(** The state of a VM between two turns of the loop of [Run]. *)
Definition running (code : Bytecode) (vm : IcebergVM) : Prop :=
  values_stored vm /\ label_table vm = code_labels code /\
  0 <= exec_pos vm <= Z.of_nat (length (inst_list code)).

(** How the run of a program of [len] instructions stops: a diagnostic
    that carries the number of one of them, or the division of [mod]. *)
Definition stops_within (len : Z) (f : Failure) : Prop :=
  (exists pos message, f = RuntimeError pos message /\ 0 <= pos < len) \/
  f = GoPanic "runtime error: integer divide by zero".

(** What [set_labels] does to one instruction. *)
Definition relabel (instr : instruction) : instruction :=
  if begins_with "@" (Inst instr) then as_nop instr else instr.

(** A handler that leaves the program counter where it was. *)
Definition keeps_pc (h : list Entity -> IcebergVM -> Result IcebergVM) : Prop :=
  forall (args : list Entity) (vm vm' : IcebergVM),
    h args vm = Ok vm' -> exec_pos vm' = exec_pos vm.

(** A table in which only [goto] and [when] may move the program counter. *)
Definition jumps_by_goto_and_when (Inst_table : gmap string InstructionDesc)
  : Prop :=
  map_Forall (fun name d => name = "goto" \/ name = "when" \/
                            keeps_pc (Function d)) Inst_table.

(** Code without [goto] and [when]. *)
Definition straight_line (code : Bytecode) : Prop :=
  Forall (fun instr => Inst instr <> "goto" /\ Inst instr <> "when")
         (inst_list code).

(** The panic of [b[1:len(b)-1]] on a token of one byte. *)
Definition slice_panic : Failure :=
  GoPanic "runtime error: slice bounds out of range".

(** How the assembler stops: a compile error on line [line] (counted from
    one), or the panic of the classifier. *)
Definition compile_failure (first last : Z) (f : Failure) : Prop :=
  (exists line message,
     f = CompileError line message /\ first <= line <= last) \/
  f = slice_panic.

(** [f] is the float of the integer [v] and loses nothing of it: a zero
    for 0, otherwise a mantissa of 53 bits that is [|v|] shifted left. *)
Definition exact_int (f : float64) (v : Z) : Prop :=
  match f with
  | S754_zero _ => v = 0
  | S754_finite s m e =>
      -52 <= e <= 0 /\ Zdigits2 (Zpos m) = 53 /\
      cond_Zopp s (Zpos m) = v * 2 ^ (- e)
  | _ => False
  end.

(** An integer a float holds without rounding. *)
Definition small (v : Z) : Prop := Z.abs v < 2 ^ 53.

(** ** Further sample inputs *)

(** A fresh VM after [x] was bound to the INT 3. *)
Definition vm_x3 : IcebergVM :=
  set_var_table (<["x" := lit_int 3]> (var_table Init_vm)) Init_vm.

(** The characters of [a b] and of [4 2]. *)
Definition chars_a_b : list Z := [rune "a"; rune " "; rune "b"].
Definition chars_4_2 : list Z := [rune "4"; rune " "; rune "2"].

(** The operand text that is one double quote. *)
Definition lone_dquote : string := String dquote EmptyString.

(** A program whose third instruction jumps back to the first, and whose
    fourth does not; the VM about to run the one, and the other. *)
Definition when_code : Bytecode :=
  {| inst_list :=
       [ {| Inst := "nop"; Args := [] |};
         {| Inst := "nop"; Args := [] |};
         {| Inst := "when"; Args := [lit_bool true; lit_label "@top"] |};
         {| Inst := "when"; Args := [lit_bool false; lit_label "@top"] |} ];
     code_labels := {[ "@top" := 0 ]} |}.

Definition vm_at_when : IcebergVM :=
  {| exec_pos := 2; label_table := {[ "@top" := 0 ]};
     var_table := ∅; stdout := [] |}.

Definition vm_at_second_when : IcebergVM :=
  {| exec_pos := 3; label_table := {[ "@top" := 0 ]};
     var_table := ∅; stdout := [] |}.

(** A label defined twice. *)
Definition label_a : instruction := {| Inst := "@a"; Args := [] |}.
Definition plain_nop : instruction := {| Inst := "nop"; Args := [] |}.

(** A fresh VM after [F] was bound to the FLOAT of 3. *)
Definition vm_F3 : IcebergVM :=
  set_var_table (<["F" := lit_float (float64_of_int 3)]> (var_table Init_vm))
    Init_vm.

(* ================================================================== *)
(** * Part II. Properties                                              *)
(* ================================================================== *)

(** ** Reasoning about results *)

Lemma bind_Ok {A B : Type} (r : Result A) (k : A -> Result B) (b : B) :
  r ≫= k = Ok b -> exists a, r = Ok a /\ k a = Ok b.
Proof. destruct r as [a|f]; simpl; [eauto | discriminate]. Qed.

Lemma bind_Ok_l {A B : Type} (r : Result A) (k : A -> Result B) (a : A) :
  r = Ok a -> r ≫= k = k a.
Proof. intros ->. reflexivity. Qed.

Lemma bind_Fail_l {A B : Type} (r : Result A) (k : A -> Result B) (f : Failure) :
  r = Fail f -> r ≫= k = Fail f.
Proof. intros ->. reflexivity. Qed.

(** Splits a hypothesis [(x ← r; k) = Ok b] into [r = Ok a] and [k a = Ok b]. *)
Ltac inv_bind H :=
  let a := fresh "a" in
  let Ha := fresh "Ha" in
  apply bind_Ok in H; destruct H as (a & Ha & H).

(** ** Strings and bytes *)

Lemma string_of_bytes_of_string (s : string) :
  string_of_bytes (bytes_of_string s) = s.
Proof. apply string_of_list_ascii_of_string. Qed.

Lemma bytes_of_string_of_bytes (b : list ascii) :
  bytes_of_string (string_of_bytes b) = b.
Proof. apply list_ascii_of_string_of_list_ascii. Qed.

Lemma byte_val_range (c : ascii) : 0 <= byte_val c < 256.
Proof.
  unfold byte_val. pose proof (N_ascii_bounded c). lia.
Qed.

Lemma byte_val_to_byte (z : Z) : byte_val (to_byte z) = z mod 256.
Proof.
  unfold byte_val, to_byte.
  pose proof (Z.mod_pos_bound z 256 ltac:(lia)) as Hb.
  rewrite N_ascii_embedding by lia.
  apply Z2N.id. lia.
Qed.

Lemma to_byte_byte_val (c : ascii) : to_byte (byte_val c) = c.
Proof.
  unfold to_byte. rewrite Z.mod_small by apply byte_val_range.
  unfold byte_val. rewrite N2Z.id. apply ascii_N_embedding.
Qed.

Lemma wrap64_small (z : Z) : MinInt64 <= z <= MaxInt64 -> wrap64 z = z.
Proof.
  unfold wrap64, MinInt64, MaxInt64. intros H.
  rewrite Z.mod_small by lia. lia.
Qed.

Lemma wrap64_mod (i : Z) : MinInt64 <= i <= MaxInt64 -> wrap64 (i mod 2 ^ 64) = i.
Proof.
  unfold wrap64, MinInt64, MaxInt64. intros H.
  rewrite Zplus_mod_idemp_l. rewrite Z.mod_small by lia. lia.
Qed.

(** ** Little-endian payloads *)

(** Eight bytes written are read back as the same 64 bits. *)
Lemma read_write_uint64 (u : Z) :
  read_uint64 (write_uint64 u) = inr (u mod 2 ^ 64).
Proof.
  unfold write_uint64, read_uint64. cbn [map fold_right].
  rewrite !byte_val_to_byte, !Z.shiftr_div_pow2 by lia.
  f_equal.
  change (8 * 0) with 0; change (8 * 1) with 8; change (8 * 2) with 16;
  change (8 * 3) with 24; change (8 * 4) with 32; change (8 * 5) with 40;
  change (8 * 6) with 48; change (8 * 7) with 56.
  change (2 ^ 0) with 1; change (2 ^ 8) with 256; change (2 ^ 16) with (256 * 256);
  change (2 ^ 24) with (256 * 256 * 256);
  change (2 ^ 32) with (256 * 256 * 256 * 256);
  change (2 ^ 40) with (256 * 256 * 256 * 256 * 256);
  change (2 ^ 48) with (256 * 256 * 256 * 256 * 256 * 256);
  change (2 ^ 56) with (256 * 256 * 256 * 256 * 256 * 256 * 256);
  change (2 ^ 64) with (256 * (256 * (256 * (256 * (256 * (256 * (256 * 256))))))).
  rewrite Z.div_1_r.
  rewrite <- !Z.div_div by lia.
  rewrite !Z.rem_mul_r by lia.
  lia.
Qed.

Lemma read_write_bool (b : bool) : read_bool (write_bool b) = inr b.
Proof. destruct b; reflexivity. Qed.

(** Every pattern of a NaN, whatever its sign and payload, is read as the
    NaN: the pattern [Float64bits] writes for it does not show in what the
    resolver reads back. *)
Lemma Float64frombits_nan (b : Z) :
  (b / 2 ^ 52) mod 2 ^ 11 = 2047 -> b mod 2 ^ 52 <> 0 ->
  Float64frombits b = S754_nan.
Proof.
  intros HE Hf. unfold Float64frombits. rewrite HE.
  change (2047 =? 2047) with true. cbv iota.
  destruct (Z.eqb_spec (b mod 2 ^ 52) 0); [contradiction | reflexivity].
Qed.

(** ** The resolver on literals and on bound symbols *)

Lemma index_0 {A : Type} (x : A) (l : list A) : index (x :: l) 0 = Ok x.
Proof. reflexivity. Qed.

Lemma index_1 {A : Type} (x y : A) (l : list A) : index (x :: y :: l) 1 = Ok y.
Proof. reflexivity. Qed.

Lemma index_in_range {A : Type} (l : list A) (i : Z) (x : A) :
  index l i = Ok x -> 0 <= i <= Z.of_nat (length l) - 1.
Proof.
  unfold index. destruct (Z.ltb_spec i 0); [discriminate|].
  destruct (l !! Z.to_nat i) eqn:Hl; [|discriminate].
  intros _. apply lookup_lt_Some in Hl. lia.
Qed.

Lemma Get_argument_rec_literal (depth : nat) (vm : IcebergVM) (arg : Entity)
    (type_mask : Z) :
  E_type arg <> T_UNDET ->
  Get_argument_rec depth vm arg type_mask = decode vm arg type_mask.
Proof.
  intros H. destruct depth; simpl;
    destruct (Z.eqb_spec (E_type arg) T_UNDET); try contradiction; reflexivity.
Qed.

Lemma Get_argument_literal (vm : IcebergVM) (arg : Entity) (type_mask : Z) :
  E_type arg <> T_UNDET ->
  Get_argument vm arg type_mask = decode vm arg type_mask.
Proof. apply Get_argument_rec_literal. Qed.

Lemma Get_argument_symbol (vm : IcebergVM) (name : string) (e : Entity)
    (type_mask : Z) :
  var_table vm !! name = Some e ->
  E_type e <> T_UNDET ->
  Get_argument vm (sym name) type_mask = decode vm e type_mask.
Proof.
  intros Hl He. unfold Get_argument. simpl.
  rewrite string_of_bytes_of_string, Hl.
  apply Get_argument_rec_literal. exact He.
Qed.

Lemma Get_argument_unbound (vm : IcebergVM) (name : string) (type_mask : Z) :
  var_table vm !! name = None ->
  Get_argument vm (sym name) type_mask =
    Fail (RuntimeError (exec_pos vm) ("Argument ERROR: Unbound symbol " +:+ name)).
Proof.
  intros Hl. unfold Get_argument. simpl.
  rewrite string_of_bytes_of_string, Hl. reflexivity.
Qed.

Lemma decode_mismatch (vm : IcebergVM) (arg : Entity) (type_mask : Z) :
  Z.land (E_type arg) type_mask = 0 ->
  decode vm arg type_mask =
    Fail (RuntimeError (exec_pos vm) "Type ERROR: Type mismatch").
Proof. intros H. unfold decode. rewrite H. reflexivity. Qed.

Lemma decode_int (vm : IcebergVM) (i type_mask : Z) :
  MinInt64 <= i <= MaxInt64 ->
  Z.land T_INT type_mask <> 0 ->
  decode vm (lit_int i) type_mask = Ok (VInt i, T_INT).
Proof.
  intros Hi Hm. unfold decode.
  change (E_type (lit_int i)) with T_INT.
  change (Data (lit_int i)) with (write_uint64 i).
  rewrite read_write_uint64, wrap64_mod by exact Hi.
  destruct (Z.eqb_spec (Z.land T_INT type_mask) 0); [contradiction | reflexivity].
Qed.

Lemma decode_bool (vm : IcebergVM) (b : bool) (type_mask : Z) :
  Z.land T_BOOL type_mask <> 0 ->
  decode vm (lit_bool b) type_mask = Ok (VBool b, T_BOOL).
Proof.
  intros Hm. unfold decode.
  change (E_type (lit_bool b)) with T_BOOL.
  change (Data (lit_bool b)) with (write_bool b).
  rewrite read_write_bool.
  destruct (Z.eqb_spec (Z.land T_BOOL type_mask) 0); [contradiction | reflexivity].
Qed.

Lemma Get_argument_label (vm : IcebergVM) (L : string) :
  Get_argument vm (lit_label L) T_LABEL = Ok (VString L, T_LABEL).
Proof.
  rewrite Get_argument_literal by discriminate.
  unfold decode. simpl. rewrite string_of_bytes_of_string. reflexivity.
Qed.

Lemma Get_baresymbol_sym (vm : IcebergVM) (name : string) :
  Get_baresymbol vm (sym name) = Ok name.
Proof.
  unfold Get_baresymbol. simpl. rewrite string_of_bytes_of_string. reflexivity.
Qed.

(** A value stored by [Assign_var] as an INT is resolved to the same
    integer. *)
Lemma Get_argument_stored_int (vm : IcebergVM) (name : string) (i : Z) :
  MinInt64 <= i <= MaxInt64 ->
  var_table vm !! name = Some (lit_int i) ->
  Get_argument vm (sym name) T_ANY = Ok (VInt i, T_INT).
Proof.
  intros Hi Hl. rewrite (Get_argument_symbol vm name (lit_int i)) by (exact Hl || discriminate).
  apply decode_int; [exact Hi | discriminate].
Qed.

(** ** The variable store *)

(** What a successful [Assign_var] has done. *)
Lemma Assign_var_Ok (vm vm' : IcebergVM) (symbol : string) (value : scalar) :
  Assign_var vm symbol value = Ok vm' ->
  exists source,
    itoentity vm value = Ok source /\
    vm' = set_var_table (<[symbol := source]> (var_table vm)) vm /\
    (forall registered, var_table vm !! symbol = Some registered ->
       E_type registered = E_type source).
Proof.
  unfold Assign_var. intros H. inv_bind H. exists a. split; [exact Ha|].
  destruct (var_table vm !! symbol) as [registered|] eqn:Hl.
  - destruct (Z.eqb_spec (E_type registered) (E_type a)); simpl in H; [|discriminate].
    injection H as <-. split; [reflexivity|]. intros r [= <-]. assumption.
  - inv_bind H. destruct (E_type a0 =? T_UNDET); simpl in H; [|discriminate].
    injection H as <-. split; [reflexivity|]. intros r [=].
Qed.

(** On a bound name: the kinds must agree. *)
Lemma Assign_var_bound (vm : IcebergVM) (symbol : string) (value : scalar)
    (source registered : Entity) :
  itoentity vm value = Ok source ->
  var_table vm !! symbol = Some registered ->
  Assign_var vm symbol value =
    if E_type registered =? E_type source
    then Ok (set_var_table (<[symbol := source]> (var_table vm)) vm)
    else Fail (RuntimeError (exec_pos vm) "Type ERROR: Type mismatch").
Proof.
  intros Hs Hl. unfold Assign_var. rewrite Hs. simpl. rewrite Hl.
  destruct (E_type registered =? E_type source); reflexivity.
Qed.

(** On an unbound name the classifier accepts: the name must classify as
    UNDET. *)
Lemma Assign_var_unbound (vm : IcebergVM) (symbol : string) (value : scalar)
    (source test_ent : Entity) :
  itoentity vm value = Ok source ->
  var_table vm !! symbol = None ->
  conv_arg (bytes_of_string symbol) = Ok test_ent ->
  Assign_var vm symbol value =
    if E_type test_ent =? T_UNDET
    then Ok (set_var_table (<[symbol := source]> (var_table vm)) vm)
    else Fail (RuntimeError (exec_pos vm)
                 ("Type ERROR: Invalid symbol name " +:+ symbol)).
Proof.
  intros Hs Hl Hc. unfold Assign_var. rewrite Hs. simpl. rewrite Hl, Hc. simpl.
  destruct (E_type test_ent =? T_UNDET); reflexivity.
Qed.

Lemma slice_Fail {A : Type} (b : list A) (lo hi : Z) (f : Failure) :
  slice b lo hi = Fail f ->
  f = GoPanic "runtime error: slice bounds out of range".
Proof.
  unfold slice. destruct (_ && _); [discriminate|]. congruence.
Qed.

Lemma conv_arg_Fail (bs_arg : list ascii) (f : Failure) :
  conv_arg bs_arg = Fail f ->
  f = GoPanic "runtime error: slice bounds out of range".
Proof.
  unfold conv_arg.
  destruct (begins_with "@" _); [discriminate|].
  destruct (_ || _).
  - destruct (slice _ _ _) eqn:Hs; simpl; [discriminate|].
    intros [= <-]. eapply slice_Fail, Hs.
  - destruct (_ || _); [discriminate|].
    destruct (ParseInt _); [discriminate|].
    destruct (ParseFloat _); discriminate.
Qed.

Lemma slice_inner {A : Type} (x y : A) (l : list A) :
  exists inner, slice (x :: y :: l) 1 (Z.of_nat (length (x :: y :: l)) - 1) = Ok inner.
Proof.
  unfold slice. simpl length.
  replace ((0 <=? 1) && (1 <=? Z.of_nat (S (S (length l))) - 1)
           && (Z.of_nat (S (S (length l))) - 1 <=? Z.of_nat (S (S (length l)))))
    with true by (symmetry; rewrite !andb_true_iff, !Z.leb_le; lia).
  eexists. reflexivity.
Qed.

(** The classifier panics on a lone quote character and on nothing else. *)
Lemma conv_arg_panics_iff (name : string) :
  (exists f, conv_arg (bytes_of_string name) = Fail f) <-> lone_quote name.
Proof.
  unfold conv_arg, lone_quote. rewrite string_of_bytes_of_string.
  destruct name as [|c r].
  - simpl. split; [intros [f Hf]; discriminate | intros [H|H]; discriminate].
  - unfold begins_with.
    destruct (Ascii.eqb_spec c "@") as [->|Hat].
    { split; [intros [f Hf]; discriminate | intros [H|H]; discriminate]. }
    destruct (Ascii.eqb_spec c dquote) as [->|Hd].
    { simpl orb. cbv iota. destruct r as [|c' r'].
      - split; [left; reflexivity | intros _; eexists; reflexivity].
      - split; [|intros [H|H]; discriminate].
        intros [f Hf]. exfalso. revert Hf.
        change (bytes_of_string (String dquote (String c' r')))
          with (dquote :: c' :: bytes_of_string r').
        destruct (slice_inner dquote c' (bytes_of_string r')) as [inner ->].
        discriminate. }
    destruct (Ascii.eqb_spec c squote) as [->|Hs].
    { simpl orb. cbv iota. destruct r as [|c' r'].
      - split; [right; reflexivity | intros _; eexists; reflexivity].
      - split; [|intros [H|H]; discriminate].
        intros [f Hf]. exfalso. revert Hf.
        change (bytes_of_string (String squote (String c' r')))
          with (squote :: c' :: bytes_of_string r').
        destruct (slice_inner squote c' (bytes_of_string r')) as [inner ->].
        discriminate. }
    simpl orb. cbv iota.
    split.
    + intros [f Hf]. exfalso. revert Hf.
      destruct (_ || _); [discriminate|].
      destruct (ParseInt _); [discriminate|].
      destruct (ParseFloat _); discriminate.
    + intros [[= -> _]|[= -> _]]; contradiction.
Qed.

(** On an unbound name that is a lone quote the classifier, and with it
    the assignment, ends in a run-time panic. *)
Lemma Assign_var_lone_quote (vm : IcebergVM) (symbol : string) (value : scalar)
    (source : Entity) :
  itoentity vm value = Ok source ->
  var_table vm !! symbol = None ->
  lone_quote symbol ->
  Assign_var vm symbol value =
    Fail (GoPanic "runtime error: slice bounds out of range").
Proof.
  intros Hs Hl Hq. unfold Assign_var. rewrite Hs. simpl. rewrite Hl.
  destruct Hq as [-> | ->]; reflexivity.
Qed.

(** C7.  [Assign_var] on an unbound name that does not classify as UNDET
    is to fail with "Invalid symbol name"; on the unbound name made of one
    double quote the call ends instead in the run-time panic of the slice
    expression of the classifier.  (On every other unbound name, and on
    bound names, [Assign_var_unbound] and [Assign_var_bound] give the
    behaviour the claim states.) *)
Theorem Assign_var_lone_quote_panics :
  Assign_var Init_vm (String dquote EmptyString) (VInt 1) =
    Fail (GoPanic "runtime error: slice bounds out of range") /\
  Assign_var Init_vm (String squote EmptyString) (VInt 1) =
    Fail (GoPanic "runtime error: slice bounds out of range").
Proof. split; vm_compute; reflexivity. Qed.

Example Assign_var_literal_name :
  Assign_var Init_vm "42" (VInt 1) =
    Fail (RuntimeError 0 "Type ERROR: Invalid symbol name 42").
Proof. reflexivity. Qed.

Example Assign_var_kind_change :
  Assign_var vm_x5 "x" (VString "hi") =
    Fail (RuntimeError 0 "Type ERROR: Type mismatch").
Proof. reflexivity. Qed.

(** ** The label pass *)

Lemma labels_at_nops_alter (program : list instruction)
    (labels : gmap string Z) (j : nat) :
  labels_at_nops program labels ->
  labels_at_nops (alter as_nop j program) labels.
Proof.
  intros Hinv L i Hi. destruct (Hinv L i Hi) as (H0 & instr & Hl & Hn).
  split; [exact H0|].
  destruct (decide (j = Z.to_nat i)) as [->|Hne].
  - exists (as_nop instr). rewrite list_lookup_alter_eq, Hl. auto.
  - exists instr. rewrite list_lookup_alter_ne by exact Hne. auto.
Qed.

Lemma labels_at_nops_insert (program : list instruction)
    (labels : gmap string Z) (name : string) (j : nat) :
  (j < length program)%nat ->
  labels_at_nops program labels ->
  labels_at_nops (alter as_nop j program) (<[name := Z.of_nat j]> labels).
Proof.
  intros Hj Hinv L i Hi.
  destruct (decide (name = L)) as [->|Hne].
  - rewrite lookup_insert_eq in Hi. injection Hi as <-.
    split; [lia|]. rewrite Nat2Z.id.
    destruct (lookup_lt_is_Some_2 program j Hj) as [instr Hl].
    exists (as_nop instr). rewrite list_lookup_alter_eq, Hl. auto.
  - rewrite lookup_insert_ne in Hi by exact Hne.
    exact (labels_at_nops_alter program labels j Hinv L i Hi).
Qed.

(** The invariant of the loop of [set_labels]. *)
Lemma set_labels_from_spec (rest : list instruction) :
  forall (i : nat) (new_program : list instruction) (labels : gmap string Z),
    length new_program = (i + length rest)%nat ->
    labels_at_nops new_program labels ->
    labels_at_nops (set_labels_from i rest new_program labels).1
                   (set_labels_from i rest new_program labels).2.
Proof.
  induction rest as [|instr rest IH]; intros i np labels Hlen Hinv; simpl.
  - exact Hinv.
  - simpl in Hlen. destruct (begins_with "@" (Inst instr)).
    + apply IH.
      * rewrite length_alter. lia.
      * apply labels_at_nops_insert; [lia | exact Hinv].
    + apply IH; [lia | exact Hinv].
Qed.

Lemma set_labels_spec (program : list instruction) :
  labels_at_nops (set_labels program).1 (set_labels program).2.
Proof.
  unfold set_labels. apply set_labels_from_spec; [reflexivity|].
  intros L i Hi. rewrite lookup_empty in Hi. discriminate.
Qed.

Lemma set_labels_from_length (rest : list instruction) :
  forall (i : nat) (new_program : list instruction) (labels : gmap string Z),
    length (set_labels_from i rest new_program labels).1 = length new_program.
Proof.
  induction rest as [|instr rest IH]; intros i np labels; simpl; [reflexivity|].
  destruct (begins_with "@" (Inst instr)); rewrite IH; [apply length_alter | reflexivity].
Qed.

(** The labels of a compiled program are indices of its instruction
    list. *)
Lemma Gen_bytecode_labels_in_range
    (Inst_table : gmap string InstructionDesc) (vm vm' : IcebergVM)
    (script : string) (P : Bytecode) (L : string) (i : Z) :
  Gen_bytecode Inst_table vm script = Ok (vm', P) ->
  code_labels P !! L = Some i ->
  0 <= i < Z.of_nat (length (inst_list P)).
Proof.
  unfold Gen_bytecode, parse_script. intros H Hi.
  inv_bind H. destruct a as [vm1 [program labels]].
  inv_bind Ha. destruct a as [vm2 program0].
  injection Ha as <- Hset. injection H as _ <-. simpl in *.
  pose proof (set_labels_spec program0) as Hs. rewrite Hset in Hs.
  destruct (Hs L i Hi) as (H0 & instr & Hl & _).
  apply lookup_lt_Some in Hl. simpl in Hl. lia.
Qed.

(** C5.  For every program [P] that [Gen_bytecode] produces and every
    label name [L] of its label table, the instruction at the index [L]
    maps to has the mnemonic [nop]. *)
Theorem Gen_bytecode_labels_at_nops
    (Inst_table : gmap string InstructionDesc) (vm vm' : IcebergVM)
    (script : string) (P : Bytecode) :
  Gen_bytecode Inst_table vm script = Ok (vm', P) ->
  forall (L : string) (i : Z),
    code_labels P !! L = Some i ->
    0 <= i /\
    exists instr, inst_list P !! Z.to_nat i = Some instr /\ Inst instr = "nop".
Proof.
  unfold Gen_bytecode, parse_script. intros H.
  inv_bind H. destruct a as [vm1 [program labels]].
  inv_bind Ha. destruct a as [vm2 program0].
  injection Ha as <- Hset. injection H as _ <-. simpl.
  pose proof (set_labels_spec program0) as Hs. rewrite Hset in Hs. exact Hs.
Qed.

Lemma Gen_bytecode_labels_at_nops_witness :
  Gen_bytecode (Init pow_unused) Init_vm loop_script =
    Ok (set_exec_pos 3 Init_vm, loop_code) /\
  code_labels loop_code !! "@loop" = Some 1 /\
  (0 <= 1 /\
   exists instr,
     inst_list loop_code !! Z.to_nat 1 = Some instr /\ Inst instr = "nop").
Proof.
  assert (H1 : Gen_bytecode (Init pow_unused) Init_vm loop_script =
               Ok (set_exec_pos 3 Init_vm, loop_code))
    by (vm_compute; reflexivity).
  assert (H2 : code_labels loop_code !! "@loop" = Some 1)
    by (vm_compute; reflexivity).
  split; [exact H1|]. split; [exact H2|].
  exact (Gen_bytecode_labels_at_nops (Init pow_unused) Init_vm
           (set_exec_pos 3 Init_vm) loop_script loop_code H1 "@loop" 1 H2).
Defined.

(** ** The line tokenizer *)





(** Closing a quoted token empties the buffer, clears the quote flag and
    sets [after_parentheses]. *)
Lemma close_dquote (vm : IcebergVM) (st st' : tokenizer) :
  d_quote st = true ->
  parse_args_step vm st (rune dquote) = Ok st' ->
  buf st' = [] /\ d_quote st' = false /\ s_quote st' = s_quote st /\
  after_parentheses st' = true.
Proof.
  unfold parse_args_step. intros Hd H. rewrite Hd in H. simpl in H.
  inv_bind H. unfold emit in Ha. inv_bind Ha.
  injection Ha as <-. injection H as <-. simpl. auto.
Qed.

Lemma close_squote (vm : IcebergVM) (st st' : tokenizer) :
  d_quote st = false -> s_quote st = true ->
  parse_args_step vm st (rune squote) = Ok st' ->
  buf st' = [] /\ d_quote st' = false /\ s_quote st' = false /\
  after_parentheses st' = true.
Proof.
  unfold parse_args_step. intros Hd Hs H. rewrite Hd, Hs in H. simpl in H.
  inv_bind H. unfold emit in Ha. inv_bind Ha.
  injection Ha as <-. injection H as <-. simpl. auto.
Qed.

(** On an empty buffer outside a quoted region either quote opens a
    token. *)
Lemma open_quote_on_empty (vm : IcebergVM) (st : tokenizer) :
  d_quote st = false -> s_quote st = false -> buf st = [] ->
  parse_args_step vm st (rune dquote) =
    Ok (set_quotes true false (after_parentheses st) (push dquote st)) /\
  parse_args_step vm st (rune squote) =
    Ok (set_quotes false true (after_parentheses st) (push squote st)).
Proof.
  intros Hd Hs Hb. unfold parse_args_step. rewrite Hd, Hs, Hb. simpl. auto.
Qed.



Example quote_on_pending_token :
  parse_args Init_vm ("ab" +:+ quoted_a) =
    Fail (CompileError 1 (expected_comma dquote)).
Proof. vm_compute. reflexivity. Qed.







(** ** Jumps *)

(** C6.  [goto @L] is a fatal "Unset label" when [@L] is not in the label
    table.  When it is, the handler sets the program counter to the index
    of the label and touches nothing else, the dispatch loop adds one
    after the handler, and the loop goes on from the state whose program
    counter is the index of the label plus one: the instruction fetched
    next is the one that follows the labelled [nop]. *)
Theorem goto_jumps_past_label
    (Inst_table : gmap string InstructionDesc) (code : Bytecode)
    (vm : IcebergVM) (L : string) :
  Inst_table !! "goto" = Some (desc inst_goto 1) ->
  index (inst_list code) (exec_pos vm) =
    Ok {| Inst := "goto"; Args := [lit_label L] |} ->
  (label_table vm !! L = None ->
     inst_goto [lit_label L] vm =
       Fail (RuntimeError (exec_pos vm) ("Argument ERROR: Unset label " +:+ L)) /\
     forall fuel, Run_loop (S fuel) Inst_table code vm =
       Some (Fail (RuntimeError (exec_pos vm)
                     ("Argument ERROR: Unset label " +:+ L)))) /\
  (forall prog_idx : Z,
     label_table vm !! L = Some prog_idx ->
     MinInt64 <= prog_idx < MaxInt64 ->
     let landed (pos : Z) : IcebergVM :=
       {| exec_pos := pos; label_table := label_table vm;
          var_table := var_table vm; stdout := stdout vm |} in
     inst_goto [lit_label L] vm = Ok (landed prog_idx) /\
     Run_step Inst_table code vm = Ok (landed (prog_idx + 1)) /\
     (forall fuel, Run_loop (S fuel) Inst_table code vm =
        Run_loop fuel Inst_table code (landed (prog_idx + 1))) /\
     (forall (next : instruction) (d : InstructionDesc) (fuel : nat),
        index (inst_list code) (prog_idx + 1) = Ok next ->
        Inst_table !! Inst next = Some d ->
        Run_loop (S (S fuel)) Inst_table code vm =
          match Function d (Args next) (landed (prog_idx + 1)) with
          | Ok vm'' =>
              Run_loop fuel Inst_table code
                {| exec_pos := wrap64 (exec_pos vm'' + 1);
                   label_table := label_table vm'';
                   var_table := var_table vm''; stdout := stdout vm'' |}
          | Fail f => Some (Fail f)
          end)).
Proof.
  intros Htab Hfetch.
  assert (Hgoto : inst_goto [lit_label L] vm =
            match label_table vm !! L with
            | None => Fail (RuntimeError (exec_pos vm) (unset_label L))
            | Some prog_idx => Ok (set_exec_pos prog_idx vm)
            end).
  { unfold inst_goto.
    rewrite (bind_Ok_l _ _ (lit_label L)) by reflexivity.
    rewrite (bind_Ok_l _ _ _ (Get_argument_label vm L)).
    destruct (label_table vm !! L); reflexivity. }
  assert (Hpos : exec_pos vm <= Z.of_nat (length (inst_list code)) - 1)
    by (apply index_in_range in Hfetch; lia).
  assert (Hstep : Run_step Inst_table code vm =
            (vm' ← inst_goto [lit_label L] vm;
             Ok (set_exec_pos (wrap64 (exec_pos vm' + 1)) vm'))).
  { unfold Run_step. rewrite Hfetch. simpl. rewrite Htab. reflexivity. }
  split.
  - intros Hnone. rewrite Hgoto, Hnone in *. split; [reflexivity|].
    intros fuel. simpl. apply Z.leb_le in Hpos. rewrite Hpos, Hstep. reflexivity.
  - intros prog_idx Hsome Hrange landed. rewrite Hgoto, Hsome in *.
    assert (Hs : Run_step Inst_table code vm = Ok (landed (prog_idx + 1))).
    { rewrite Hstep. simpl.
      rewrite wrap64_small by (unfold MinInt64, MaxInt64 in *; lia).
      reflexivity. }
    assert (Hturn : forall fuel, Run_loop (S fuel) Inst_table code vm =
              Run_loop fuel Inst_table code (landed (prog_idx + 1))).
    { intros fuel. simpl. apply Z.leb_le in Hpos. rewrite Hpos, Hs.
      reflexivity. }
    split; [reflexivity|]. split; [exact Hs|]. split; [exact Hturn|].
    intros next d fuel Hnext Hd. rewrite Hturn.
    assert (Hin : prog_idx + 1 <= Z.of_nat (length (inst_list code)) - 1)
      by (apply index_in_range in Hnext; lia).
    apply Z.leb_le in Hin.
    change (Run_loop (S fuel) Inst_table code (landed (prog_idx + 1)))
      with (if prog_idx + 1 <=? Z.of_nat (length (inst_list code)) - 1
            then match Run_step Inst_table code (landed (prog_idx + 1)) with
                 | Ok vm' => Run_loop fuel Inst_table code vm'
                 | Fail f => Some (Fail f)
                 end
            else Some (Ok (landed (prog_idx + 1)))).
    rewrite Hin. unfold Run_step.
    change (exec_pos (landed (prog_idx + 1))) with (prog_idx + 1).
    rewrite Hnext. simpl. rewrite Hd.
    destruct (Function d (Args next) (landed (prog_idx + 1))); reflexivity.
Qed.

Lemma goto_jumps_past_label_witness :
  Init pow_unused !! "goto" = Some (desc inst_goto 1) /\
  index (inst_list loop_code) (exec_pos vm_at_goto) =
    Ok {| Inst := "goto"; Args := [lit_label "@loop"] |} /\
  label_table vm_at_goto !! "@loop" = Some 1 /\
  MinInt64 <= 1 < MaxInt64 /\
  Run_step (Init pow_unused) loop_code vm_at_goto =
    Ok {| exec_pos := 2; label_table := {[ "@loop" := 1 ]};
          var_table := {[ "i" := lit_int 1 ]}; stdout := [] |}.
Proof.
  assert (H1 : Init pow_unused !! "goto" = Some (desc inst_goto 1))
    by reflexivity.
  assert (H2 : index (inst_list loop_code) (exec_pos vm_at_goto) =
               Ok {| Inst := "goto"; Args := [lit_label "@loop"] |})
    by reflexivity.
  assert (H3 : label_table vm_at_goto !! "@loop" = Some 1) by reflexivity.
  assert (H4 : MinInt64 <= 1 < MaxInt64) by (unfold MinInt64, MaxInt64; lia).
  split; [exact H1|]. split; [exact H2|]. split; [exact H3|]. split; [exact H4|].
  exact (proj1 (proj2 (proj2 (goto_jumps_past_label (Init pow_unused) loop_code
                                vm_at_goto "@loop" H1 H2) 1 H3 H4))).
Defined.

Lemma inst_when_resolved (vm : IcebergVM) (cond : Entity) (L : string)
    (b : bool) (type_c : Z) :
  Get_argument vm cond T_BOOL = Ok (VBool b, type_c) ->
  inst_when [cond; lit_label L] vm =
    match label_table vm !! L with
    | None => Fail (RuntimeError (exec_pos vm) (unset_label L))
    | Some prog_idx => Ok (if b then set_exec_pos prog_idx vm else vm)
    end.
Proof.
  intros Hc. unfold inst_when.
  rewrite (bind_Ok_l _ _ (lit_label L)) by reflexivity.
  rewrite (bind_Ok_l _ _ _ (Get_argument_label vm L)).
  rewrite (bind_Ok_l _ _ cond) by reflexivity.
  rewrite (bind_Ok_l _ _ _ Hc).
  destruct (label_table vm !! L); [destruct b|]; reflexivity.
Qed.

(** C9.  [when cond, @L] with [@L] not in the label table fails with the
    fatal "Unset label" whatever boolean [cond] resolves to, [false]
    included: the label is looked up before the condition is tested. *)
Theorem when_unknown_label_fails
    (vm : IcebergVM) (cond : Entity) (L : string) (b : bool) (type_c : Z) :
  Get_argument vm cond T_BOOL = Ok (VBool b, type_c) ->
  label_table vm !! L = None ->
  inst_when [cond; lit_label L] vm =
    Fail (RuntimeError (exec_pos vm) ("Argument ERROR: Unset label " +:+ L)).
Proof.
  intros Hc Hl. rewrite (inst_when_resolved vm cond L b type_c Hc), Hl.
  reflexivity.
Qed.

Lemma when_unknown_label_fails_witness :
  Get_argument Init_vm (lit_bool false) T_BOOL = Ok (VBool false, T_BOOL) /\
  label_table Init_vm !! "@nope" = None /\
  inst_when [lit_bool false; lit_label "@nope"] Init_vm =
    Fail (RuntimeError (exec_pos Init_vm)
            ("Argument ERROR: Unset label " +:+ "@nope")).
Proof.
  assert (H1 : Get_argument Init_vm (lit_bool false) T_BOOL =
               Ok (VBool false, T_BOOL)) by reflexivity.
  assert (H2 : label_table Init_vm !! "@nope" = None) by reflexivity.
  split; [exact H1|]. split; [exact H2|].
  exact (when_unknown_label_fails Init_vm (lit_bool false) "@nope" false
           T_BOOL H1 H2).
Defined.

(** The same through the assembler and the dispatch loop. *)
Example when_false_unknown_label_script
    (math_Pow : float64 -> float64 -> float64) :
  run_script (Init math_Pow) 1 "when false, @nope" =
  Ok (Some (Fail (RuntimeError 0 "Argument ERROR: Unset label @nope"))).
Proof. vm_compute. reflexivity. Qed.

(** ** Casts *)

(** [str D, x] for a variable [x] that holds the INT [i]. *)
Lemma inst_str_int (vm : IcebergVM) (x d : string) (i : Z) :
  MinInt64 <= i <= MaxInt64 ->
  var_table vm !! x = Some (lit_int i) ->
  inst_str [sym d; sym x] vm = Assign_var vm d (VString (FormatInt i)).
Proof.
  intros Hi Hx. unfold inst_str.
  rewrite index_1. simpl mbind at 1.
  rewrite (Get_argument_symbol vm x (lit_int i)) by (exact Hx || discriminate).
  rewrite decode_int by (exact Hi || discriminate).
  simpl. rewrite string_of_bytes_of_string. reflexivity.
Qed.

(** It succeeds on a destination that is new and a proper symbol name. *)
Lemma inst_str_int_fresh (vm : IcebergVM) (x d : string) (i : Z) (test_ent : Entity) :
  MinInt64 <= i <= MaxInt64 ->
  var_table vm !! x = Some (lit_int i) ->
  var_table vm !! d = None ->
  conv_arg (bytes_of_string d) = Ok test_ent ->
  E_type test_ent = T_UNDET ->
  inst_str [sym d; sym x] vm =
    Ok (set_var_table (<[d := lit_str (FormatInt i)]> (var_table vm)) vm).
Proof.
  intros Hi Hx Hd Hc Ht. rewrite (inst_str_int vm x d i Hi Hx).
  rewrite (Assign_var_unbound vm d _ (lit_str (FormatInt i)) test_ent)
    by (reflexivity || assumption).
  rewrite Ht. reflexivity.
Qed.

(** C2 (as amended).  For an INT [i] held by a variable, [str D, x] binds
    [D] to the STR with the decimal text of [i], and the [int D2, D] that
    follows does not bring [i] back: [int] takes INT and FLOAT operands
    only and fails with the fatal "Type mismatch" on the STR in [D]. *)
Theorem str_then_int_is_a_type_mismatch
    (vm vm1 : IcebergVM) (x d d2 : string) (i : Z) :
  MinInt64 <= i <= MaxInt64 ->
  var_table vm !! x = Some (lit_int i) ->
  inst_str [sym d; sym x] vm = Ok vm1 ->
  var_table vm1 !! d = Some (lit_str (FormatInt i)) /\
  inst_int [sym d2; sym d] vm1 =
    Fail (RuntimeError (exec_pos vm1) "Type ERROR: Type mismatch").
Proof.
  intros Hi Hx Hstr. rewrite (inst_str_int vm x d i Hi Hx) in Hstr.
  apply Assign_var_Ok in Hstr. destruct Hstr as (source & Hsrc & -> & _).
  injection Hsrc as <-.
  assert (Hd : var_table (set_var_table
                 (<[d := lit_str (FormatInt i)]> (var_table vm)) vm) !! d =
               Some (lit_str (FormatInt i))).
  { simpl. apply lookup_insert_eq. }
  split; [exact Hd|].
  unfold inst_int. rewrite index_1. simpl mbind at 1.
  rewrite (Get_argument_symbol _ d _ _ Hd) by discriminate.
  rewrite decode_mismatch by reflexivity. reflexivity.
Qed.

Lemma str_then_int_is_a_type_mismatch_witness :
  MinInt64 <= 5 <= MaxInt64 /\
  var_table vm_x5 !! "x" = Some (lit_int 5) /\
  inst_str [sym "D"; sym "x"] vm_x5 = Ok vm_x5_D /\
  (var_table vm_x5_D !! "D" = Some (lit_str (FormatInt 5)) /\
   inst_int [sym "D2"; sym "D"] vm_x5_D =
     Fail (RuntimeError (exec_pos vm_x5_D) "Type ERROR: Type mismatch")).
Proof.
  assert (H1 : MinInt64 <= 5 <= MaxInt64) by (unfold MinInt64, MaxInt64; lia).
  assert (H2 : var_table vm_x5 !! "x" = Some (lit_int 5)) by reflexivity.
  assert (H3 : inst_str [sym "D"; sym "x"] vm_x5 = Ok vm_x5_D)
    by (vm_compute; reflexivity).
  split; [exact H1|]. split; [exact H2|]. split; [exact H3|].
  exact (str_then_int_is_a_type_mismatch vm_x5 vm_x5_D "x" "D" "D2" 5 H1 H2 H3).
Defined.

(** The claim as it was stated fails for the INT 5: [str D, x] succeeds,
    and no run of [int D2, D] after it succeeds, let alone one that binds
    [D2] to 5. *)
Lemma str_then_int_does_not_round_trip :
  var_table vm_x5 !! "x" = Some (lit_int 5) /\
  inst_str [sym "D"; sym "x"] vm_x5 = Ok vm_x5_D /\
  ~ (exists vm2,
       inst_int [sym "D2"; sym "D"] vm_x5_D = Ok vm2 /\
       var_table vm2 !! "D2" = Some (lit_int 5)).
Proof.
  split; [reflexivity|]. split; [vm_compute; reflexivity|].
  intros (vm2 & H & _). vm_compute in H. discriminate H.
Qed.

(** [str D, b] for a BOOL literal: no warning, and the text of the other
    boolean. *)
Lemma inst_str_bool (vm : IcebergVM) (d : string) (b : bool) :
  inst_str [sym d; lit_bool b] vm =
    Assign_var vm d (VString (if b then "false" else "true")).
Proof.
  unfold inst_str.
  rewrite (bind_Ok_l _ _ (lit_bool b)) by reflexivity.
  rewrite Get_argument_literal by discriminate.
  rewrite decode_bool by discriminate.
  simpl. rewrite string_of_bytes_of_string. destruct b; reflexivity.
Qed.

(** C3.  [str D, v] for a BOOL [v] is to give the text of the boolean;
    the code gives the text of the other one, on every VM and for every
    destination: [true] yields ["false"] and [false] yields ["true"] (and,
    as the claim says, no warning is written).  On a fresh VM [str D, true]
    ends with [D] bound to the STR ["false"]. *)
Theorem str_of_true_is_false :
  (forall (vm : IcebergVM) (d : string) (b : bool),
     inst_str [sym d; lit_bool b] vm =
       Assign_var vm d (VString (if b then "false" else "true"))) /\
  inst_str [sym "D"; lit_bool true] Init_vm =
    Ok (set_var_table {[ "D" := lit_str "false" ]} Init_vm) /\
  inst_str [sym "D"; lit_bool false] Init_vm =
    Ok (set_var_table {[ "D" := lit_str "true" ]} Init_vm).
Proof.
  split; [exact inst_str_bool|].
  split; vm_compute; reflexivity.
Qed.

(** ** Integers as floats *)

(** [float64(i)] rounds, and the rounding is [binary_round_aux] of the
    Standard Library; what the division handlers need of it is that a
    non-zero integer stays away from zero, as a float and when it is
    truncated back. *)

Lemma digits2_pos_bounds (m : positive) :
  2 ^ (Zpos (digits2_pos m) - 1) <= Zpos m < 2 ^ Zpos (digits2_pos m).
Proof.
  induction m as [m IH|m IH|]; cbn [digits2_pos].
  - rewrite Pos2Z.inj_succ.
    replace (Z.succ (Zpos (digits2_pos m)) - 1) with (Z.succ (Zpos (digits2_pos m) - 1)) by lia.
    rewrite !Z.pow_succ_r by lia. lia.
  - rewrite Pos2Z.inj_succ.
    replace (Z.succ (Zpos (digits2_pos m)) - 1) with (Z.succ (Zpos (digits2_pos m) - 1)) by lia.
    rewrite !Z.pow_succ_r by lia. lia.
  - simpl. lia.
Qed.

Lemma iter_xO_value (m k : positive) :
  Zpos (Pos.iter xO m k) = Zpos m * 2 ^ Zpos k.
Proof.
  induction k as [|k IH] using Pos.peano_ind.
  - simpl. lia.
  - rewrite Pos.iter_succ, Pos2Z.inj_succ, Z.pow_succ_r by lia.
    rewrite Pos2Z.inj_xO, IH. lia.
Qed.

Lemma iter_xO_digits (m k : positive) :
  digits2_pos (Pos.iter xO m k) = (digits2_pos m + k)%positive.
Proof.
  induction k as [|k IH] using Pos.peano_ind.
  - simpl. lia.
  - rewrite Pos.iter_succ. cbn [digits2_pos]. rewrite IH. lia.
Qed.

Lemma shr_1_m (mrs : shr_record) :
  0 <= shr_m mrs -> shr_m (shr_1 mrs) = shr_m mrs / 2.
Proof.
  destruct mrs as [m r s]. simpl. intros Hm.
  destruct m as [|p|p]; [reflexivity | | lia].
  destruct p as [p|p|]; simpl.
  - rewrite Pos2Z.inj_xI. apply Z.div_unique with 1; lia.
  - rewrite Pos2Z.inj_xO. apply Z.div_unique with 0; lia.
  - reflexivity.
Qed.

Lemma pow2_xO (p : positive) : 2 ^ Zpos p~0 = 2 ^ Zpos p * 2 ^ Zpos p.
Proof. rewrite <- Z.pow_add_r by lia. f_equal. lia. Qed.

Lemma pow2_xI (p : positive) : 2 ^ Zpos p~1 = 2 * (2 ^ Zpos p * 2 ^ Zpos p).
Proof.
  rewrite <- Z.pow_add_r, <- Z.pow_succ_r by lia. f_equal. lia.
Qed.

Lemma iter_pos_shr_1_m (p : positive) :
  forall mrs, 0 <= shr_m mrs ->
    shr_m (@SpecFloat.iter_pos shr_record shr_1 p mrs) = shr_m mrs / 2 ^ Zpos p.
Proof.
  assert (Hpow : forall q : positive, 0 < 2 ^ Zpos q)
    by (intros q; apply Z.pow_pos_nonneg; lia).
  induction p as [p IH|p IH|]; intros mrs Hm; cbn [SpecFloat.iter_pos].
  - assert (H1 : 0 <= shr_m (shr_1 mrs))
      by (rewrite shr_1_m by lia; apply Z.div_pos; lia).
    assert (H2 : 0 <= shr_m (@SpecFloat.iter_pos shr_record shr_1 p (shr_1 mrs)))
      by (rewrite IH by exact H1; apply Z.div_pos; [lia | apply Hpow]).
    rewrite IH by exact H2. rewrite IH by exact H1. rewrite shr_1_m by exact Hm.
    pose proof (Hpow p).
    rewrite !Z.div_div by lia. rewrite pow2_xI. reflexivity.
  - assert (H2 : 0 <= shr_m (@SpecFloat.iter_pos shr_record shr_1 p mrs))
      by (rewrite IH by exact Hm; apply Z.div_pos; [lia | apply Hpow]).
    rewrite IH by exact H2. rewrite IH by exact Hm.
    pose proof (Hpow p).
    rewrite !Z.div_div by lia. rewrite pow2_xO. reflexivity.
  - rewrite shr_1_m by exact Hm. reflexivity.
Qed.

Lemma fexp_normal (e : Z) : -1021 <= e -> fexp prec emax e = e - 53.
Proof. intros H. unfold fexp, emin, prec, emax. lia. Qed.

Lemma shr_record_of_loc_m (m : Z) (l : location) :
  shr_m (shr_record_of_loc m l) = m.
Proof. destruct l as [|[]]; reflexivity. Qed.

Lemma loc_of_shr_record_of_loc (m : Z) (l : location) :
  loc_of_shr_record (shr_record_of_loc m l) = l.
Proof. destruct l as [|[]]; reflexivity. Qed.

Lemma round_nearest_even_bounds (mx : Z) (lx : location) :
  mx <= round_nearest_even mx lx <= mx + 1.
Proof.
  unfold round_nearest_even. destruct lx as [|[]]; try lia.
  destruct (Z.even mx); lia.
Qed.

Lemma Zdigits2_le (z k : Z) : 0 < z -> z < 2 ^ k -> 0 <= k -> Zdigits2 z <= k.
Proof.
  intros Hz Hlt Hk. destruct z as [|p|p]; try lia. cbn [Zdigits2].
  pose proof (digits2_pos_bounds p) as [Hlo _].
  assert (H : 2 ^ (Zpos (digits2_pos p) - 1) < 2 ^ k) by lia.
  apply Z.pow_lt_mono_r_iff in H; lia.
Qed.

Lemma Zdigits2_ge (z k : Z) : 2 ^ k <= z -> 0 <= k -> k + 1 <= Zdigits2 z.
Proof.
  intros Hle Hk.
  assert (Hz : 0 < z) by (pose proof (Z.pow_pos_nonneg 2 k); lia).
  destruct z as [|p|p]; try lia. cbn [Zdigits2].
  pose proof (digits2_pos_bounds p) as [_ Hhi].
  assert (H : 2 ^ k < 2 ^ Zpos (digits2_pos p)) by lia.
  apply Z.pow_lt_mono_r_iff in H; lia.
Qed.

(** The mantissa and the exponent after [shr_fexp] on a positive
    mantissa. *)
Lemma shr_fexp_pos (m e : Z) (l : location) :
  0 < m ->
  let n := fexp prec emax (Zdigits2 m + e) - e in
  (n <= 0 /\ shr_fexp prec emax m e l = (shr_record_of_loc m l, e)) \/
  (0 < n /\ shr_m (shr_fexp prec emax m e l).1 = m / 2 ^ n /\
   (shr_fexp prec emax m e l).2 = e + n).
Proof.
  intros Hm n. unfold shr_fexp, shr. fold n.
  destruct n as [|p|p] eqn:Hn.
  - left. split; [lia | reflexivity].
  - right. split; [lia|]. simpl. split; [|reflexivity].
    rewrite iter_pos_shr_1_m by (rewrite shr_record_of_loc_m; lia).
    rewrite shr_record_of_loc_m. reflexivity.
  - left. split; [lia | reflexivity].
Qed.

Lemma at_least_one_result (s : bool) (m e : Z) :
  0 < m -> 0 <= e \/ 2 ^ (- e) <= m ->
  at_least_one
    match m with
    | Z0 => S754_zero s
    | Zpos p => if e <=? emax - prec then S754_finite s p e else S754_infinity s
    | Zneg _ => S754_nan
    end.
Proof.
  intros Hm He. destruct m as [|p|p]; try lia.
  destruct (e <=? emax - prec); simpl; auto.
Qed.

Lemma binary_round_aux_at_least_one (s : bool) (mx ex : Z) :
  0 < mx -> 53 <= Zdigits2 mx -> -52 <= ex ->
  (ex < 0 -> Zdigits2 mx = 53) ->
  at_least_one (binary_round_aux prec emax s mx ex loc_Exact).
Proof.
  intros Hm HD Hex Hcanon. unfold binary_round_aux.
  assert (Hmx : 2 ^ (Zdigits2 mx - 1) <= mx < 2 ^ Zdigits2 mx).
  { destruct mx as [|p|p]; try lia. apply digits2_pos_bounds. }
  destruct (shr_fexp_pos mx ex loc_Exact Hm) as [[Hn H1] | (Hn & Hm1 & He1)];
    rewrite fexp_normal in Hn by lia.
  - (* no shift: the mantissa has 53 digits *)
    rewrite H1. cbn [shr_record_of_loc shr_m loc_of_shr_record round_nearest_even].
    rewrite H1. cbn [shr_record_of_loc shr_m].
    apply at_least_one_result; [exact Hm|].
    destruct (Z.le_gt_cases 0 ex) as [|Hneg]; [left; assumption | right].
    replace (Zdigits2 mx) with 53 in Hmx by lia.
    assert (2 ^ (- ex) <= 2 ^ (53 - 1)) by (apply Z.pow_le_mono_r; lia).
    lia.
  - (* a shift by Zdigits2 mx - 53 bits *)
    rewrite fexp_normal in Hm1, He1 by lia.
    destruct (shr_fexp prec emax mx ex loc_Exact) as [mrs' e'] eqn:E1.
    cbn [fst snd] in Hm1, He1.
    set (n1 := Zdigits2 mx + ex - 53 - ex) in *.
    assert (Hn1 : n1 = Zdigits2 mx - 53) by (unfold n1; lia).
    assert (Hex0 : 0 <= ex) by lia.
    assert (Hp : 0 < 2 ^ n1) by (apply Z.pow_pos_nonneg; lia).
    assert (Hm1lo : 2 ^ 52 <= shr_m mrs').
    { rewrite Hm1. apply Z.div_le_lower_bound; [exact Hp|].
      rewrite <- Z.pow_add_r by lia.
      replace (n1 + 52) with (Zdigits2 mx - 1) by lia. lia. }
    assert (Hm1hi : shr_m mrs' < 2 ^ 53).
    { rewrite Hm1. apply Z.div_lt_upper_bound; [exact Hp|].
      rewrite <- Z.pow_add_r by lia.
      replace (n1 + 53) with (Zdigits2 mx) by lia. lia. }
    pose proof (round_nearest_even_bounds (shr_m mrs') (loc_of_shr_record mrs'))
      as Hround.
    set (m2 := round_nearest_even (shr_m mrs') (loc_of_shr_record mrs')) in *.
    assert (Hm2 : 0 < m2) by lia.
    assert (HD2lo : 53 <= Zdigits2 m2) by (apply (Zdigits2_ge m2 52); lia).
    assert (HD2hi : Zdigits2 m2 <= 54) by (apply Zdigits2_le; lia).
    destruct (shr_fexp_pos m2 e' loc_Exact Hm2) as [[Hn2 H2] | (Hn2 & Hm3 & He3)];
      rewrite fexp_normal in Hn2 by lia.
    + rewrite H2. cbn [shr_record_of_loc shr_m].
      apply at_least_one_result; [exact Hm2 | left; lia].
    + rewrite fexp_normal in Hm3, He3 by lia.
      destruct (shr_fexp prec emax m2 e' loc_Exact) as [mrs'' e''] eqn:E2.
      cbn [fst snd] in Hm3, He3.
      replace (Zdigits2 m2 + e' - 53 - e') with 1 in Hm3, He3 by lia.
      apply at_least_one_result; [|left; lia].
      rewrite Hm3. change (2 ^ 1) with 2.
      apply Z.div_str_pos. lia.
Qed.

Lemma float64_of_int_at_least_one (y : Z) :
  y <> 0 -> at_least_one (float64_of_int y).
Proof.
  assert (H : forall (s : bool) (m : positive),
             at_least_one (binary_round prec emax s m 0)).
  { intros s m. unfold binary_round, shl_align.
    pose proof (digits2_pos_bounds m) as Hb.
    rewrite fexp_normal by lia.
    destruct (Zpos (digits2_pos m) + 0 - 53 - 0) as [|k|k] eqn:Hk.
    - apply binary_round_aux_at_least_one; cbn [Zdigits2]; lia.
    - apply binary_round_aux_at_least_one; cbn [Zdigits2]; lia.
    - apply binary_round_aux_at_least_one; cbn [Zdigits2];
        rewrite ?iter_xO_digits; lia. }
  intros Hy. unfold float64_of_int, binary_normalize.
  destruct y as [|m|m]; [contradiction | apply H | apply H].
Qed.

Lemma at_least_one_nonzero (f : float64) :
  at_least_one f -> feqb f fzero = false /\ int64_of_float f <> 0.
Proof.
  destruct f as [s|s| |s m e]; simpl; try contradiction.
  - intros _. split; [destruct s; reflexivity | discriminate].
  - intros He. split; [destruct s; reflexivity|].
    unfold int64_of_float, trunc_Z.
    set (v := if 0 <=? e then Z.shiftl (Zpos m) e else Z.shiftr (Zpos m) (- e)).
    assert (Hv : 0 < v).
    { unfold v. destruct (Z.leb_spec 0 e) as [Hnn|Hneg].
      - rewrite Z.shiftl_mul_pow2 by exact Hnn.
        pose proof (Z.pow_pos_nonneg 2 e). lia.
      - rewrite Z.shiftr_div_pow2 by lia.
        destruct He as [He|He]; [lia|].
        apply Z.div_str_pos. pose proof (Z.pow_pos_nonneg 2 (- e)). lia. }
    destruct (in_int64 (cond_Zopp s v)); [|discriminate].
    destruct s; simpl; lia.
Qed.

(** ** Division *)

Example classifier_reads_floats :
  conv_arg (bytes_of_string "1.0") = Ok (lit_float one) /\
  conv_arg (bytes_of_string "0.5") = Ok (lit_float half).
Proof. split; vm_compute; reflexivity. Qed.

(** A zero divisor, INT or FLOAT (either zero), is the fatal "Division by
    zero" for [div], [div_r] and [mod]. *)
Lemma arb_calc_zero_divisor_int
    (math_Pow : float64 -> float64 -> float64) (vm : IcebergVM)
    (a b d : Entity) (operator : string) (x type_b : Z) :
  division_operator operator ->
  Get_argument vm a (Z.lor T_INT T_FLOAT) = Ok (VInt x, T_INT) ->
  Get_argument vm b T_INT = Ok (VInt 0, type_b) ->
  arb_calc math_Pow [a; b; d] operator vm =
    Fail (RuntimeError (exec_pos vm) "Math ERROR: Division by zero").
Proof.
  intros Hop Ha Hb. unfold arb_calc.
  rewrite index_0. simpl mbind at 1. rewrite Ha. simpl mbind at 1.
  rewrite Hb. simpl mbind at 1.
  change (T_INT =? T_INT) with true. cbv iota. simpl mbind at 1.
  change (feqb (float64_of_int 0) fzero) with true.
  destruct Hop as [-> | [-> | ->]]; reflexivity.
Qed.

Lemma arb_calc_zero_divisor_float
    (math_Pow : float64 -> float64 -> float64) (vm : IcebergVM)
    (a b d : Entity) (operator : string) (x y : float64) (type_b : Z) :
  division_operator operator ->
  Get_argument vm a (Z.lor T_INT T_FLOAT) = Ok (VFloat x, T_FLOAT) ->
  Get_argument vm b T_FLOAT = Ok (VFloat y, type_b) ->
  feqb y fzero = true ->
  arb_calc math_Pow [a; b; d] operator vm =
    Fail (RuntimeError (exec_pos vm) "Math ERROR: Division by zero").
Proof.
  intros Hop Ha Hb Hz. unfold arb_calc.
  rewrite index_0. simpl mbind at 1. rewrite Ha. simpl mbind at 1.
  rewrite Hb. simpl mbind at 1.
  change (T_FLOAT =? T_INT) with false. cbv iota. simpl mbind at 1.
  rewrite Hz.
  destruct Hop as [-> | [-> | ->]]; reflexivity.
Qed.

(** With INT operands and a divisor that is not zero, [div], [div_r] and
    [mod] go on to the assignment. *)
Lemma arb_calc_nonzero_int
    (math_Pow : float64 -> float64 -> float64) (vm : IcebergVM)
    (a b d : Entity) (operator : string) (x y type_b : Z) :
  division_operator operator ->
  y <> 0 ->
  Get_argument vm a (Z.lor T_INT T_FLOAT) = Ok (VInt x, T_INT) ->
  Get_argument vm b T_INT = Ok (VInt y, type_b) ->
  arb_calc math_Pow [a; b; d] operator vm =
    (sym_name ← Get_baresymbol vm d;
     Assign_var vm sym_name
       (let fx := float64_of_int x in
        let fy := float64_of_int y in
        if String.eqb operator "//" then
          VInt (int64_of_float (Floor (fdiv fx fy)))
        else if String.eqb operator "/" then VFloat (fdiv fx fy)
        else
          VInt (int64_of_float
                  (float64_of_int
                     (Z.rem (int64_of_float fx) (int64_of_float fy)))))).
Proof.
  intros Hop Hy Ha Hb.
  destruct (at_least_one_nonzero _ (float64_of_int_at_least_one y Hy))
    as [Hz Hi].
  unfold arb_calc.
  rewrite index_0. simpl mbind at 1. rewrite Ha. simpl mbind at 1.
  rewrite Hb. simpl mbind at 1.
  change (T_INT =? T_INT) with true. cbv iota. simpl mbind at 1.
  rewrite Hz.
  destruct Hop as [-> | [-> | ->]].
  - reflexivity.
  - reflexivity.
  - change (String.eqb "%" "+") with false. cbv iota.
    unfold int64_rem. apply Z.eqb_neq in Hi. rewrite Hi.
    reflexivity.
Qed.

(** With FLOAT operands and a divisor that is not zero, [div] and [div_r]
    go on to the assignment. *)
Lemma arb_calc_div_float
    (math_Pow : float64 -> float64 -> float64) (vm : IcebergVM)
    (a b d : Entity) (x y : float64) (type_b : Z) :
  Get_argument vm a (Z.lor T_INT T_FLOAT) = Ok (VFloat x, T_FLOAT) ->
  Get_argument vm b T_FLOAT = Ok (VFloat y, type_b) ->
  feqb y fzero = false ->
  inst_div math_Pow [a; b; d] vm =
    (sym_name ← Get_baresymbol vm d;
     Assign_var vm sym_name (VFloat (Floor (fdiv x y)))).
Proof.
  intros Ha Hb Hz. unfold inst_div, arb_calc.
  rewrite index_0. simpl mbind at 1. rewrite Ha. simpl mbind at 1.
  rewrite Hb. simpl mbind at 1.
  change (T_FLOAT =? T_INT) with false. cbv iota. simpl mbind at 1.
  rewrite Hz. reflexivity.
Qed.

Lemma arb_calc_div_r_float
    (math_Pow : float64 -> float64 -> float64) (vm : IcebergVM)
    (a b d : Entity) (x y : float64) (type_b : Z) :
  Get_argument vm a (Z.lor T_INT T_FLOAT) = Ok (VFloat x, T_FLOAT) ->
  Get_argument vm b T_FLOAT = Ok (VFloat y, type_b) ->
  feqb y fzero = false ->
  inst_div_r math_Pow [a; b; d] vm =
    (sym_name ← Get_baresymbol vm d;
     Assign_var vm sym_name (VFloat (fdiv x y))).
Proof.
  intros Ha Hb Hz. unfold inst_div_r, arb_calc.
  rewrite index_0. simpl mbind at 1. rewrite Ha. simpl mbind at 1.
  rewrite Hb. simpl mbind at 1.
  change (T_FLOAT =? T_INT) with false. cbv iota. simpl mbind at 1.
  rewrite Hz. reflexivity.
Qed.

(** [mod] converts both operands to [int64] before it takes the
    remainder: with FLOAT operands it panics exactly when the divisor,
    which passed the test against zero, truncates to zero. *)
Lemma arb_calc_mod_float
    (math_Pow : float64 -> float64 -> float64) (vm : IcebergVM)
    (a b d : Entity) (x y : float64) (type_b : Z) :
  Get_argument vm a (Z.lor T_INT T_FLOAT) = Ok (VFloat x, T_FLOAT) ->
  Get_argument vm b T_FLOAT = Ok (VFloat y, type_b) ->
  feqb y fzero = false ->
  inst_mod math_Pow [a; b; d] vm =
    if int64_of_float y =? 0
    then Fail (GoPanic "runtime error: integer divide by zero")
    else (sym_name ← Get_baresymbol vm d;
          Assign_var vm sym_name
            (VFloat (float64_of_int
                       (Z.rem (int64_of_float x) (int64_of_float y))))).
Proof.
  intros Ha Hb Hz. unfold inst_mod, arb_calc.
  rewrite index_0. simpl mbind at 1. rewrite Ha. simpl mbind at 1.
  rewrite Hb. simpl mbind at 1.
  change (T_FLOAT =? T_INT) with false. cbv iota. simpl mbind at 1.
  rewrite Hz. change (String.eqb "%" "+") with false. cbv iota.
  unfold int64_rem. destruct (int64_of_float y =? 0); reflexivity.
Qed.

(** C1.  For [div], [div_r] and [mod] a divisor that is not zero is to
    complete without a division error.  [mod 1.0, 0.5, r] does not: 0.5
    passes the test against zero, [int64(0.5)] is 0, and the integer
    remainder panics with "integer divide by zero", on any VM. *)
Theorem mod_by_a_fraction_panics
    (math_Pow : float64 -> float64 -> float64) (vm : IcebergVM) :
  inst_mod math_Pow [lit_float one; lit_float half; sym "r"] vm =
    Fail (GoPanic "runtime error: integer divide by zero").
Proof. vm_compute. reflexivity. Qed.

(** The same through the assembler and the dispatch loop. *)
Example mod_by_a_fraction_script (math_Pow : float64 -> float64 -> float64) :
  run_script (Init math_Pow) 1 "mod 1.0, 0.5, r" =
  Ok (Some (Fail (GoPanic "runtime error: integer divide by zero"))).
Proof. vm_compute. reflexivity. Qed.

Example division_by_zero_scripts (math_Pow : float64 -> float64 -> float64) :
  Forall
    (fun script =>
       run_script (Init math_Pow) 1 script =
       Ok (Some (Fail (RuntimeError 0 "Math ERROR: Division by zero"))))
    ["div 7, 0, q"; "div_r 7, 0, q"; "mod 7, 0, q";
     "div 7.5, 0.0, q"; "div_r 7.5, -0.0, q"; "mod 7.5, 0.0, q"].
Proof. repeat constructor; vm_compute; reflexivity. Qed.

(** ** What a run keeps *)

Lemma bindings_kept_same (vm vm' : IcebergVM) :
  var_table vm' = var_table vm -> bindings_kept vm vm'.
Proof. intros Heq name e H. rewrite Heq. eauto. Qed.

Lemma bindings_kept_refl (vm : IcebergVM) : bindings_kept vm vm.
Proof. apply bindings_kept_same. reflexivity. Qed.

Lemma bindings_kept_trans (vm1 vm2 vm3 : IcebergVM) :
  bindings_kept vm1 vm2 -> bindings_kept vm2 vm3 -> bindings_kept vm1 vm3.
Proof.
  intros H12 H23 name e H. destruct (H12 name e H) as (e2 & H2 & Ht2).
  destruct (H23 name e2 H2) as (e3 & H3 & Ht3). exists e3. split; congruence.
Qed.

(** [Assign_var] touches one binding and keeps its kind. *)
Lemma Assign_var_frame (vm vm' : IcebergVM) (symbol : string) (value : scalar) :
  Assign_var vm symbol value = Ok vm' ->
  label_table vm' = label_table vm /\ bindings_kept vm vm'.
Proof.
  intros H. apply Assign_var_Ok in H. destruct H as (source & _ & -> & Hty).
  split; [reflexivity|]. intros name e Hl. simpl.
  destruct (decide (symbol = name)) as [->|Hne].
  - exists source. rewrite lookup_insert_eq. split; [reflexivity|].
    symmetry. apply Hty. exact Hl.
  - exists e. rewrite lookup_insert_ne by exact Hne. auto.
Qed.

(** The casts hand [Assign_var] the VM they were given, or that VM after a
    warning. *)
Lemma warned_frame (vm vm2 vm' : IcebergVM) (symbol : string) (value : scalar) :
  vm2 = vm \/ (exists message, vm2 = Runtime_warning vm message) ->
  Assign_var vm2 symbol value = Ok vm' ->
  label_table vm' = label_table vm /\ bindings_kept vm vm'.
Proof.
  intros Hvm H. apply Assign_var_frame in H. destruct H as [Hl Hb].
  destruct Hvm as [-> | [message ->]]; auto.
Qed.

(** Peels [n] binds off a successful run of a handler. *)
Ltac peel1 H :=
  let a := fresh "a" in
  let Ha := fresh "Ha" in
  apply bind_Ok in H; destruct H as (a & Ha & H);
  try (destruct a as [? ?]); simpl in H.

Tactic Notation "peel" integer(n) hyp(H) := do n (peel1 H).

Ltac cast_frame H Hcast :=
  eapply warned_frame; [|exact H];
  repeat match type of Hcast with
         | (if ?b then _ else _) = Ok _ => destruct b
         | match ?x with _ => _ end = Ok _ => destruct x
         end;
  try discriminate Hcast; injection Hcast as <- _; eauto.

Lemma inst_nop_keeps_frame : keeps_frame inst_nop.
Proof.
  intros args vm vm' [= <-]. split; [reflexivity | apply bindings_kept_refl].
Qed.

Lemma inst_let_keeps_frame : keeps_frame inst_let.
Proof.
  intros args vm vm' H. unfold inst_let in H. peel 4 H.
  apply Assign_var_frame in H. exact H.
Qed.

Lemma arb_calc_keeps_frame (math_Pow : float64 -> float64 -> float64)
    (operator : string) :
  keeps_frame (fun args => arb_calc math_Pow args operator).
Proof.
  intros args vm vm' H. unfold arb_calc in H. peel 8 H.
  apply Assign_var_frame in H. exact H.
Qed.

Lemma inst_cmp_keeps_frame : keeps_frame inst_cmp.
Proof.
  intros args vm vm' H. unfold inst_cmp in H. peel 9 H.
  apply Assign_var_frame in H. exact H.
Qed.

Lemma arb_bool_keeps_frame (operator : string) :
  keeps_frame (fun args => arb_bool args operator).
Proof.
  intros args vm vm' H. unfold arb_bool in H. peel 7 H.
  apply Assign_var_frame in H. exact H.
Qed.

Lemma inst_not_keeps_frame : keeps_frame inst_not.
Proof.
  intros args vm vm' H. unfold inst_not in H. peel 4 H.
  destruct s; try discriminate H. apply Assign_var_frame in H. exact H.
Qed.

Lemma inst_int_keeps_frame : keeps_frame inst_int.
Proof.
  intros args vm vm' H. unfold inst_int in H.
  inv_bind H. inv_bind H. destruct a0 as [operand type_o]. simpl in H.
  inv_bind H. destruct a0 as [vm2 source]. rename Ha1 into Hcast. simpl in H.
  inv_bind H. inv_bind H.
  cast_frame H Hcast.
Qed.

Lemma inst_float_keeps_frame : keeps_frame inst_float.
Proof.
  intros args vm vm' H. unfold inst_float in H.
  inv_bind H. inv_bind H. destruct a0 as [operand type_o]. simpl in H.
  inv_bind H. destruct a0 as [vm2 source]. rename Ha1 into Hcast. simpl in H.
  inv_bind H. inv_bind H.
  cast_frame H Hcast.
Qed.

Lemma inst_bool_keeps_frame : keeps_frame inst_bool.
Proof.
  intros args vm vm' H. unfold inst_bool in H.
  inv_bind H. inv_bind H. destruct a0 as [operand type_o]. simpl in H.
  inv_bind H. destruct a0 as [vm2 source]. rename Ha1 into Hcast. simpl in H.
  inv_bind H. inv_bind H.
  cast_frame H Hcast.
Qed.

Lemma inst_str_keeps_frame : keeps_frame inst_str.
Proof.
  intros args vm vm' H. unfold inst_str in H.
  inv_bind H. inv_bind H. destruct a0 as [operand type_o]. simpl in H.
  inv_bind H. destruct a0 as [vm2 source]. rename Ha1 into Hcast. simpl in H.
  inv_bind H. inv_bind H.
  cast_frame H Hcast.
Qed.

Lemma inst_cat_keeps_frame : keeps_frame inst_cat.
Proof.
  intros args vm vm' H. unfold inst_cat in H. peel 6 H.
  destruct s; try discriminate H. destruct s0; try discriminate H.
  apply Assign_var_frame in H. exact H.
Qed.

Lemma inst_goto_keeps_frame : keeps_frame inst_goto.
Proof.
  intros args vm vm' H. unfold inst_goto in H. peel 2 H.
  destruct s; try discriminate H.
  destruct (label_table vm !! s); [|discriminate H].
  injection H as <-. split; [reflexivity | apply bindings_kept_same; reflexivity].
Qed.

Lemma inst_when_keeps_frame : keeps_frame inst_when.
Proof.
  intros args vm vm' H. unfold inst_when in H. peel 4 H.
  destruct s; try discriminate H.
  destruct (label_table vm !! s); [|discriminate H].
  destruct s0 as [| |[|]| | |]; try discriminate H;
    injection H as <-;
    (split; [reflexivity | apply bindings_kept_same; reflexivity]).
Qed.

Lemma inst_dump_keeps_frame : keeps_frame inst_dump.
Proof.
  intros args vm vm' H. unfold inst_dump in H. inv_bind H.
  injection H as <-. split; [reflexivity | apply bindings_kept_same; reflexivity].
Qed.

Lemma inst_print_keeps_frame : keeps_frame inst_print.
Proof.
  intros args vm vm' H. unfold inst_print in H. peel 2 H.
  destruct s; try discriminate H.
  injection H as <-. split; [reflexivity | apply bindings_kept_same; reflexivity].
Qed.

Create HintDb frame.
#[local] Hint Resolve inst_nop_keeps_frame inst_let_keeps_frame
  arb_calc_keeps_frame inst_cmp_keeps_frame arb_bool_keeps_frame
  inst_not_keeps_frame inst_int_keeps_frame inst_float_keeps_frame
  inst_bool_keeps_frame inst_str_keeps_frame inst_cat_keeps_frame
  inst_goto_keeps_frame inst_when_keeps_frame inst_dump_keeps_frame
  inst_print_keeps_frame : frame.

Lemma Init_keeps_frame (math_Pow : float64 -> float64 -> float64) :
  frame_table (Init math_Pow).
Proof.
  unfold frame_table, Init.
  repeat (apply map_Forall_insert_2;
          [first [ apply (arb_calc_keeps_frame math_Pow)
                 | apply arb_bool_keeps_frame
                 | solve [auto with frame] ] |]).
  apply map_Forall_empty.
Qed.

Lemma start_keeps_frame (math_Pow : float64 -> float64 -> float64) :
  frame_table (start math_Pow).
Proof.
  apply map_Forall_insert_2; [apply inst_print_keeps_frame|].
  apply Init_keeps_frame.
Qed.

Lemma Run_step_frame (Inst_table : gmap string InstructionDesc)
    (code : Bytecode) (vm vm' : IcebergVM) :
  frame_table Inst_table ->
  Run_step Inst_table code vm = Ok vm' ->
  label_table vm' = label_table vm /\ bindings_kept vm vm'.
Proof.
  intros HT H. unfold Run_step in H. inv_bind H.
  destruct (Inst_table !! Inst a) as [d|] eqn:Hd; [|discriminate H].
  inv_bind H. injection H as <-.
  apply (HT _ _ Hd) in Ha0. exact Ha0.
Qed.

(** By induction on the turns of the loop. *)
Lemma Run_loop_frame (Inst_table : gmap string InstructionDesc) (code : Bytecode) :
  frame_table Inst_table ->
  forall (fuel : nat) (vm vm' : IcebergVM),
    Run_loop fuel Inst_table code vm = Some (Ok vm') ->
    label_table vm' = label_table vm /\ bindings_kept vm vm'.
Proof.
  intros HT. induction fuel as [|fuel IH]; intros vm vm' H; simpl in H;
    destruct (exec_pos vm <=? _).
  - discriminate H.
  - injection H as <-. split; [reflexivity | apply bindings_kept_refl].
  - destruct (Run_step Inst_table code vm) as [vm1|f] eqn:Hs; [|discriminate H].
    apply (Run_step_frame _ _ _ _ HT) in Hs. destruct Hs as [Hl Hb].
    apply IH in H. destruct H as [Hl' Hb']. split; [congruence|].
    eapply bindings_kept_trans; eassumption.
  - injection H as <-. split; [reflexivity | apply bindings_kept_refl].
Qed.

(** *** What a run writes *)

Lemma Assign_var_writes (vm vm' : IcebergVM) (symbol name : string)
    (value : scalar) :
  Assign_var vm symbol value = Ok vm' -> name <> symbol ->
  var_table vm' !! name = var_table vm !! name.
Proof.
  intros H Hne. apply Assign_var_Ok in H. destruct H as (source & _ & -> & _).
  simpl. apply lookup_insert_ne. congruence.
Qed.

Lemma index_elem_of {A : Type} (l : list A) (i : Z) (x : A) :
  index l i = Ok x -> x ∈ l.
Proof.
  unfold index. destruct (i <? 0); [discriminate|].
  destruct (l !! Z.to_nat i) eqn:Hl; [|discriminate].
  intros [= <-]. eapply list_elem_of_lookup_2, Hl.
Qed.

(** The destination of a handler is one of its operands. *)
Lemma operand_write (args : list Entity) (vm vm0 vm2 vm' : IcebergVM)
    (a : Entity) (k : Z) (s name : string) (value : scalar) :
  Assign_var vm2 s value = Ok vm' ->
  Get_baresymbol vm0 a = Ok s ->
  index args k = Ok a ->
  var_table vm2 = var_table vm ->
  ~ names args name ->
  var_table vm' !! name = var_table vm !! name.
Proof.
  intros Hassign Hsym Hidx Hvm Hn.
  rewrite (Assign_var_writes _ _ _ name _ Hassign); [rewrite Hvm; reflexivity|].
  intros ->. apply Hn. exists a. split; [eapply index_elem_of, Hidx|].
  unfold Get_baresymbol in Hsym.
  destruct (Z.eqb_spec (E_type a) T_UNDET) as [He|]; [|discriminate Hsym].
  injection Hsym as <-. auto.
Qed.

Ltac to_operand H Hn :=
  eapply operand_write; [exact H | eassumption | eassumption | reflexivity | exact Hn].

Ltac cast_to_operand H Hcast Hn :=
  eapply operand_write; [exact H | eassumption | eassumption | | exact Hn];
  repeat match type of Hcast with
         | (if ?b then _ else _) = Ok _ => destruct b
         | match ?x with _ => _ end = Ok _ => destruct x
         end;
  try discriminate Hcast; injection Hcast as <- _; reflexivity.

Lemma inst_nop_writes : writes_its_operands inst_nop.
Proof. intros args vm vm' name [= <-] _. reflexivity. Qed.

Lemma inst_let_writes : writes_its_operands inst_let.
Proof.
  intros args vm vm' name H Hn. unfold inst_let in H. peel 4 H. to_operand H Hn.
Qed.

Lemma arb_calc_writes (math_Pow : float64 -> float64 -> float64)
    (operator : string) :
  writes_its_operands (fun args => arb_calc math_Pow args operator).
Proof.
  intros args vm vm' name H Hn. unfold arb_calc in H. peel 8 H. to_operand H Hn.
Qed.

Lemma inst_cmp_writes : writes_its_operands inst_cmp.
Proof.
  intros args vm vm' name H Hn. unfold inst_cmp in H. peel 9 H. to_operand H Hn.
Qed.

Lemma arb_bool_writes (operator : string) :
  writes_its_operands (fun args => arb_bool args operator).
Proof.
  intros args vm vm' name H Hn. unfold arb_bool in H. peel 7 H. to_operand H Hn.
Qed.

Lemma inst_not_writes : writes_its_operands inst_not.
Proof.
  intros args vm vm' name H Hn. unfold inst_not in H. peel 4 H.
  destruct s; try discriminate H. to_operand H Hn.
Qed.

Lemma inst_int_writes : writes_its_operands inst_int.
Proof.
  intros args vm vm' name H Hn. unfold inst_int in H.
  inv_bind H. inv_bind H. destruct a0 as [operand type_o]. simpl in H.
  inv_bind H. destruct a0 as [vm2 source]. rename Ha1 into Hcast. simpl in H.
  inv_bind H. inv_bind H.
  cast_to_operand H Hcast Hn.
Qed.

Lemma inst_float_writes : writes_its_operands inst_float.
Proof.
  intros args vm vm' name H Hn. unfold inst_float in H.
  inv_bind H. inv_bind H. destruct a0 as [operand type_o]. simpl in H.
  inv_bind H. destruct a0 as [vm2 source]. rename Ha1 into Hcast. simpl in H.
  inv_bind H. inv_bind H.
  cast_to_operand H Hcast Hn.
Qed.

Lemma inst_bool_writes : writes_its_operands inst_bool.
Proof.
  intros args vm vm' name H Hn. unfold inst_bool in H.
  inv_bind H. inv_bind H. destruct a0 as [operand type_o]. simpl in H.
  inv_bind H. destruct a0 as [vm2 source]. rename Ha1 into Hcast. simpl in H.
  inv_bind H. inv_bind H.
  cast_to_operand H Hcast Hn.
Qed.

Lemma inst_str_writes : writes_its_operands inst_str.
Proof.
  intros args vm vm' name H Hn. unfold inst_str in H.
  inv_bind H. inv_bind H. destruct a0 as [operand type_o]. simpl in H.
  inv_bind H. destruct a0 as [vm2 source]. rename Ha1 into Hcast. simpl in H.
  inv_bind H. inv_bind H.
  cast_to_operand H Hcast Hn.
Qed.

Lemma inst_cat_writes : writes_its_operands inst_cat.
Proof.
  intros args vm vm' name H Hn. unfold inst_cat in H. peel 6 H.
  destruct s; try discriminate H. destruct s0; try discriminate H.
  to_operand H Hn.
Qed.

Lemma inst_goto_writes : writes_its_operands inst_goto.
Proof.
  intros args vm vm' name H _. unfold inst_goto in H. peel 2 H.
  destruct s; try discriminate H.
  destruct (label_table vm !! s); [|discriminate H].
  injection H as <-. reflexivity.
Qed.

Lemma inst_when_writes : writes_its_operands inst_when.
Proof.
  intros args vm vm' name H _. unfold inst_when in H. peel 4 H.
  destruct s; try discriminate H.
  destruct (label_table vm !! s); [|discriminate H].
  destruct s0 as [| |[|]| | |]; try discriminate H;
    injection H as <-; reflexivity.
Qed.

Lemma inst_dump_writes : writes_its_operands inst_dump.
Proof.
  intros args vm vm' name H _. unfold inst_dump in H. inv_bind H.
  injection H as <-. reflexivity.
Qed.

Lemma inst_print_writes : writes_its_operands inst_print.
Proof.
  intros args vm vm' name H _. unfold inst_print in H. peel 2 H.
  destruct s; try discriminate H. injection H as <-. reflexivity.
Qed.

Create HintDb writes.
#[local] Hint Resolve inst_nop_writes inst_let_writes inst_cmp_writes
  inst_not_writes inst_int_writes inst_float_writes inst_bool_writes
  inst_str_writes inst_cat_writes inst_goto_writes inst_when_writes
  inst_dump_writes inst_print_writes : writes.

Lemma Init_writes (math_Pow : float64 -> float64 -> float64) :
  writes_table (Init math_Pow).
Proof.
  unfold writes_table, Init.
  repeat (apply map_Forall_insert_2;
          [first [ apply (arb_calc_writes math_Pow)
                 | apply arb_bool_writes
                 | solve [auto with writes] ] |]).
  apply map_Forall_empty.
Qed.

Lemma Run_step_writes (Inst_table : gmap string InstructionDesc)
    (code : Bytecode) (vm vm' : IcebergVM) (name : string) :
  writes_table Inst_table ->
  Run_step Inst_table code vm = Ok vm' ->
  ~ names_in code name ->
  var_table vm' !! name = var_table vm !! name.
Proof.
  intros HT H Hn. unfold Run_step in H. inv_bind H.
  destruct (Inst_table !! Inst a) as [d|] eqn:Hd; [|discriminate H].
  inv_bind H. injection H as <-. simpl.
  apply (HT _ _ Hd _ _ _ name Ha0).
  intros Hm. apply Hn. exists a. split; [eapply index_elem_of, Ha | exact Hm].
Qed.

Lemma Run_loop_writes (Inst_table : gmap string InstructionDesc)
    (code : Bytecode) (name : string) :
  writes_table Inst_table -> ~ names_in code name ->
  forall (fuel : nat) (vm vm' : IcebergVM),
    Run_loop fuel Inst_table code vm = Some (Ok vm') ->
    var_table vm' !! name = var_table vm !! name.
Proof.
  intros HT Hn. induction fuel as [|fuel IH]; intros vm vm' H; simpl in H;
    destruct (exec_pos vm <=? _).
  - discriminate H.
  - injection H as <-. reflexivity.
  - destruct (Run_step Inst_table code vm) as [vm1|f] eqn:Hs; [|discriminate H].
    rewrite (IH _ _ H). eapply Run_step_writes; eassumption.
  - injection H as <-. reflexivity.
Qed.

(** C8 (as amended).  A second [Run] on the same VM replaces the label
    table with the one of the new program and does not reset the variable
    table: it starts from the bindings the first run left, with their
    values and kinds.  When it has ended, every earlier binding is still
    there with its kind, and with its value unless an instruction of the
    second program has the variable among its operands. *)
Theorem second_Run_keeps_variables
    (math_Pow : float64 -> float64 -> float64) (fuel1 fuel2 : nat)
    (code1 code2 : Bytecode) (vm0 vm1 vm2 : IcebergVM) :
  Run fuel1 (Init math_Pow) code1 vm0 = Some (Ok vm1) ->
  Run fuel2 (Init math_Pow) code2 vm1 = Some (Ok vm2) ->
  label_table (Run_enter code2 vm1) = code_labels code2 /\
  var_table (Run_enter code2 vm1) = var_table vm1 /\
  label_table vm2 = code_labels code2 /\
  bindings_kept vm1 vm2 /\
  (forall name : string,
     ~ names_in code2 name ->
     var_table vm2 !! name = var_table vm1 !! name).
Proof.
  intros _ H2. split; [reflexivity|]. split; [reflexivity|].
  unfold Run in H2.
  pose proof (Run_loop_frame _ _ (Init_keeps_frame math_Pow) _ _ _ H2)
    as [Hl Hb].
  split; [exact Hl|]. split; [intros name e He; apply Hb; exact He|].
  intros name Hn.
  exact (Run_loop_writes _ _ name (Init_writes math_Pow) Hn _ _ _ H2).
Qed.

Lemma second_Run_keeps_variables_witness :
  Run 5 (Init pow_unused) first_code Init_vm = Some (Ok vm_after_first) /\
  Run 5 (Init pow_unused) second_code vm_after_first =
    Some (Ok vm_after_second) /\
  (label_table (Run_enter second_code vm_after_first) =
     code_labels second_code /\
   var_table (Run_enter second_code vm_after_first) =
     var_table vm_after_first /\
   label_table vm_after_second = code_labels second_code /\
   bindings_kept vm_after_first vm_after_second /\
   (forall name : string,
      ~ names_in second_code name ->
      var_table vm_after_second !! name = var_table vm_after_first !! name)).
Proof.
  assert (H1 : Run 5 (Init pow_unused) first_code Init_vm =
               Some (Ok vm_after_first)) by (vm_compute; reflexivity).
  assert (H2 : Run 5 (Init pow_unused) second_code vm_after_first =
               Some (Ok vm_after_second)) by (vm_compute; reflexivity).
  split; [exact H1|]. split; [exact H2|].
  exact (second_Run_keeps_variables pow_unused 5 5 first_code second_code
           Init_vm vm_after_first vm_after_second H1 H2).
Defined.

(** The claim as it was stated, all bindings retained with the same
    values, fails when the second program assigns a variable of the
    first: after [let x, 3], the program [let x, 4] leaves [x] bound to
    4. *)
Lemma second_Run_can_change_a_value :
  Run 5 (Init pow_unused) first_code Init_vm = Some (Ok vm_after_first) /\
  Run 5 (Init pow_unused) reassign_code vm_after_first =
    Some (Ok vm_after_reassign) /\
  var_table vm_after_first !! "x" = Some (lit_int 3) /\
  var_table vm_after_reassign !! "x" = Some (lit_int 4) /\
  var_table vm_after_reassign <> var_table vm_after_first.
Proof.
  split; [vm_compute; reflexivity|].
  split; [vm_compute; reflexivity|].
  split; [reflexivity|]. split; [reflexivity|].
  intros H.
  assert (Hx : var_table vm_after_reassign !! "x" =
               var_table vm_after_first !! "x") by (rewrite H; reflexivity).
  vm_compute in Hx. discriminate Hx.
Qed.

(** ** Whole programs *)

(** The jump lands after the label: the [let] before it is skipped, the
    one after it runs. *)
Example goto_skips_to_after_label (math_Pow : float64 -> float64 -> float64) :
  run_script (Init math_Pow) 10
    ("goto @a" +:+ newline +:+ "let x, 1" +:+ newline +:+
     "@a" +:+ newline +:+ "let y, 2") =
  Ok (Some (Ok {| exec_pos := 4; label_table := {[ "@a" := 2 ]};
                  var_table := {[ "y" := lit_int 2 ]}; stdout := [] |})).
Proof. vm_compute. reflexivity. Qed.

Example goto_unknown_label_script (math_Pow : float64 -> float64 -> float64) :
  run_script (Init math_Pow) 10 "goto @nope" =
  Ok (Some (Fail (RuntimeError 0 "Argument ERROR: Unset label @nope"))).
Proof. vm_compute. reflexivity. Qed.

(** The counting loop of the sample ends with [i] at 3. *)
Example counting_loop_script (math_Pow : float64 -> float64 -> float64) :
  run_script (Init math_Pow) 20
    ("let i, 0" +:+ newline +:+ "@loop" +:+ newline +:+
     "add i, 1, i" +:+ newline +:+ "cmp i, '<', 3, c" +:+ newline +:+
     "when c, @loop") =
  Ok (Some (Ok {| exec_pos := 5; label_table := {[ "@loop" := 1 ]};
                  var_table := <[ "c" := lit_bool false ]> {[ "i" := lit_int 3 ]};
                  stdout := [] |})).
Proof. vm_compute. reflexivity. Qed.

(** Floor division of two INTs is an INT, true division a FLOAT. *)
Example div_and_div_r_script (math_Pow : float64 -> float64 -> float64) :
  run_script (Init math_Pow) 10
    ("div 7, 2, q" +:+ newline +:+ "div_r 7, 2, r") =
  Ok (Some (Ok {| exec_pos := 2; label_table := ∅;
                  var_table :=
                    <[ "r" := lit_float (S754_finite false 7881299347898368 (-51)) ]>
                      {[ "q" := lit_int 3 ]};
                  stdout := [] |})).
Proof. vm_compute. reflexivity. Qed.

Example str_then_int_script (math_Pow : float64 -> float64 -> float64) :
  run_script (Init math_Pow) 10
    ("let x, 5" +:+ newline +:+ "str D, x" +:+ newline +:+ "int D2, D") =
  Ok (Some (Fail (RuntimeError 2 "Type ERROR: Type mismatch"))).
Proof. vm_compute. reflexivity. Qed.

Example str_of_bool_script (math_Pow : float64 -> float64 -> float64) :
  run_script (Init math_Pow) 10 "str D, true" =
  Ok (Some (Ok {| exec_pos := 1; label_table := ∅;
                  var_table := {[ "D" := lit_str "false" ]}; stdout := [] |})).
Proof. vm_compute. reflexivity. Qed.

(** A cast to the kind the operand has already warns and goes on. *)
Example unnecessary_cast_script (math_Pow : float64 -> float64 -> float64) :
  run_script (Init math_Pow) 10 "str D, 'a'" =
  Ok (Some (Ok {| exec_pos := 1; label_table := ∅;
                  var_table := {[ "D" := lit_str "a" ]};
                  stdout := [Warning 0 "Unnecessary cast T_STR->T_STR"] |})).
Proof. vm_compute. reflexivity. Qed.

(** The host's [print] of [misc/benchmark.go]. *)
Example print_script (math_Pow : float64 -> float64 -> float64) :
  run_script (start math_Pow) 10
    ("let x, 3" +:+ newline +:+ "add x, 4, y" +:+ newline +:+
     "str s, y" +:+ newline +:+ "print s") =
  Ok (Some (Ok {| exec_pos := 4; label_table := ∅;
                  var_table :=
                    <[ "s" := lit_str "7" ]>
                      (<[ "y" := lit_int 7 ]> {[ "x" := lit_int 3 ]});
                  stdout := [Println "7"] |})).
Proof. vm_compute. reflexivity. Qed.

Example empty_script (math_Pow : float64 -> float64 -> float64) :
  run_script (Init math_Pow) 0 EmptyString = Ok (Some (Ok Init_vm)).
Proof. vm_compute. reflexivity. Qed.

(* ================================================================== *)
(** * Part III. Further properties                                     *)
(* ================================================================== *)

(** ** Storing and resolving *)

Lemma valid_finite_cases (m : positive) (e : Z) :
  bounded prec emax m e = true ->
  (2 ^ 52 <= Zpos m < 2 ^ 53 /\ -1074 <= e <= 971) \/
  (Zpos m < 2 ^ 52 /\ e = -1074).
Proof.
  unfold bounded, canonical_mantissa, fexp, emin, prec, emax.
  rewrite andb_true_iff, Z.eqb_eq, Z.leb_le. intros [Hc He].
  pose proof (digits2_pos_bounds m) as [Hlo Hhi].
  destruct (Z.max_spec (Zpos (digits2_pos m) + e - 53) (3 - 1024 - 53))
    as [[Hlt Hmax] | [Hge Hmax]]; rewrite Hmax in Hc.
  - right. split; [|lia].
    assert (Hd : Zpos (digits2_pos m) <= 52) by lia.
    assert (2 ^ Zpos (digits2_pos m) <= 2 ^ 52) by (apply Z.pow_le_mono_r; lia).
    lia.
  - left. assert (Hd : Zpos (digits2_pos m) = 53) by lia.
    rewrite Hd in Hlo, Hhi. change (53 - 1) with 52 in Hlo. lia.
Qed.

Lemma testbit_63 (s : bool) (r : Z) :
  0 <= r < 2 ^ 63 ->
  Z.testbit ((if s then 2 ^ 63 else 0) + r) 63 = s.
Proof.
  intros Hr. rewrite Z.testbit_odd, Z.shiftr_div_pow2 by lia.
  destruct s.
  - replace ((2 ^ 63 + r) / 2 ^ 63) with 1; [reflexivity|].
    apply Z.div_unique with r; lia.
  - rewrite Z.add_0_l, Z.div_small by lia. reflexivity.
Qed.

Lemma Float64bits_range (f : float64) :
  valid_float f -> 0 <= Float64bits f < 2 ^ 64.
Proof.
  unfold valid_float. destruct f as [s|s| |s m e]; simpl.
  - intros _. destruct s; lia.
  - intros _. destruct s; lia.
  - intros _. lia.
  - intros Hb. apply valid_finite_cases in Hb.
    destruct Hb as [[Hm He] | [Hm He]].
    + destruct (Z.leb_spec (2 ^ 52) (Zpos m)); [|lia]. destruct s; lia.
    + destruct (Z.leb_spec (2 ^ 52) (Zpos m)); [lia|]. destruct s; lia.
Qed.

Lemma Float64frombits_bits (f : float64) :
  valid_float f -> Float64frombits (Float64bits f) = f.
Proof.
  unfold valid_float. destruct f as [s|s| |s m e].
  - intros _. unfold Float64frombits, Float64bits.
    replace ((if s then 2 ^ 63 else 0)) with ((if s then 2 ^ 63 else 0) + 0) by lia.
    rewrite testbit_63 by lia. destruct s; reflexivity.
  - intros _. unfold Float64frombits, Float64bits.
    rewrite testbit_63 by lia. destruct s; reflexivity.
  - intros _. reflexivity.
  - cbn [valid_binary]. intros Hb. apply valid_finite_cases in Hb.
    unfold Float64frombits, Float64bits.
    destruct Hb as [[Hm He] | [Hm He]].
    + destruct (Z.leb_spec (2 ^ 52) (Zpos m)); [|lia].
      set (r := (e + 1075) * 2 ^ 52 + (Zpos m - 2 ^ 52)).
      assert (Hr : 0 <= r < 2 ^ 63) by (unfold r; lia).
      rewrite testbit_63 by exact Hr.
      assert (HE : (((if s then 2 ^ 63 else 0) + r) / 2 ^ 52) mod 2 ^ 11 = e + 1075).
      { replace (((if s then 2 ^ 63 else 0) + r) / 2 ^ 52)
          with ((if s then 2 ^ 11 else 0) + (e + 1075)).
        - destruct s.
          + replace (2 ^ 11 + (e + 1075)) with ((e + 1075) + 1 * 2 ^ 11) by lia.
            rewrite Z.mod_add by lia. apply Z.mod_small. lia.
          + rewrite Z.add_0_l. apply Z.mod_small. lia.
        - apply Z.div_unique with (Zpos m - 2 ^ 52); [lia|].
          unfold r. destruct s; lia. }
      assert (HF : ((if s then 2 ^ 63 else 0) + r) mod 2 ^ 52 = Zpos m - 2 ^ 52).
      { symmetry.
        apply Z.mod_unique with ((if s then 2 ^ 11 else 0) + (e + 1075)); [lia|].
        unfold r. destruct s; lia. }
      rewrite HE, HF.
      destruct (Z.eqb_spec (e + 1075) 2047); [lia|].
      destruct (Z.eqb_spec (e + 1075) 0); [lia|].
      replace (Zpos m - 2 ^ 52 + 2 ^ 52) with (Zpos m) by lia.
      f_equal. lia.
    + destruct (Z.leb_spec (2 ^ 52) (Zpos m)); [lia|].
      assert (Hr : 0 <= Zpos m < 2 ^ 63) by lia.
      rewrite testbit_63 by exact Hr.
      assert (HE : (((if s then 2 ^ 63 else 0) + Zpos m) / 2 ^ 52) mod 2 ^ 11 = 0).
      { replace (((if s then 2 ^ 63 else 0) + Zpos m) / 2 ^ 52)
          with (if s then 2 ^ 11 else 0).
        - destruct s; reflexivity.
        - apply Z.div_unique with (Zpos m); [lia|]. destruct s; lia. }
      assert (HF : ((if s then 2 ^ 63 else 0) + Zpos m) mod 2 ^ 52 = Zpos m).
      { symmetry. apply Z.mod_unique with (if s then 2 ^ 11 else 0); [lia|].
        destruct s; lia. }
      rewrite HE, HF. simpl. subst e. reflexivity.
Qed.

Lemma Float64frombits_valid (b : Z) : valid_float (Float64frombits b).
Proof.
  unfold valid_float, Float64frombits.
  pose proof (Z.mod_pos_bound (b / 2 ^ 52) (2 ^ 11) ltac:(lia)) as HE.
  pose proof (Z.mod_pos_bound b (2 ^ 52) ltac:(lia)) as HF.
  set (E := (b / 2 ^ 52) mod 2 ^ 11) in *. set (frac := b mod 2 ^ 52) in *.
  destruct (Z.eqb_spec E 2047).
  { destruct (frac =? 0); reflexivity. }
  destruct (Z.eqb_spec E 0).
  { destruct frac as [|m|m] eqn:Hfr; try reflexivity.
    cbn [valid_binary]. unfold bounded, canonical_mantissa, fexp, emin, prec, emax.
    rewrite andb_true_iff, Z.eqb_eq, Z.leb_le. split; [|lia].
    pose proof (Zdigits2_le (Zpos m) 52 ltac:(lia) ltac:(lia) ltac:(lia)) as Hd.
    cbn [Zdigits2] in Hd. lia. }
  destruct (frac + 2 ^ 52) as [|m|m] eqn:Hfr; try reflexivity.
  cbn [valid_binary]. unfold bounded, canonical_mantissa, fexp, emin, prec, emax.
  rewrite andb_true_iff, Z.eqb_eq, Z.leb_le.
  pose proof (Zdigits2_le (Zpos m) 53 ltac:(lia) ltac:(lia) ltac:(lia)) as Hd1.
  pose proof (Zdigits2_ge (Zpos m) 52 ltac:(lia) ltac:(lia)) as Hd2.
  cbn [Zdigits2] in Hd1, Hd2. lia.
Qed.

Lemma decode_itoentity (vm vm' : IcebergVM) (value : scalar) (source : Entity)
    (type_mask : Z) :
  storable value ->
  itoentity vm value = Ok source ->
  E_type source = kind_of value /\
  decode vm' source type_mask =
    if Z.land (kind_of value) type_mask =? 0
    then Fail (RuntimeError (exec_pos vm') "Type ERROR: Type mismatch")
    else Ok (value, kind_of value).
Proof.
  intros Hs Hi.
  assert (Hk : E_type source = kind_of value).
  { destruct value; simpl in Hs, Hi; try contradiction; injection Hi as <-;
      reflexivity. }
  split; [exact Hk|].
  destruct (Z.eqb_spec (Z.land (kind_of value) type_mask) 0) as [Hz|Hnz].
  { apply decode_mismatch. rewrite Hk. exact Hz. }
  destruct value as [i|f|b|s| |]; simpl in Hs, Hi;
    try contradiction; injection Hi as <-.
  - apply decode_int; [exact Hs | exact Hnz].
  - unfold decode. simpl E_type. simpl Data. simpl in Hnz.
    destruct (Z.eqb_spec (Z.land T_FLOAT type_mask) 0); [contradiction|].
    rewrite read_write_uint64.
    rewrite Z.mod_small by (apply Float64bits_range; exact Hs).
    rewrite Float64frombits_bits by exact Hs. reflexivity.
  - apply decode_bool. exact Hnz.
  - unfold decode. simpl E_type. simpl Data. simpl in Hnz.
    destruct (Z.eqb_spec (Z.land T_STR type_mask) 0); [contradiction|].
    simpl. rewrite string_of_bytes_of_string. reflexivity.
Qed.

Lemma Assign_var_resolves
    (vm vm' : IcebergVM) (name : string) (value : scalar) (type_mask : Z) :
  storable value ->
  Assign_var vm name value = Ok vm' ->
  Get_argument vm' (sym name) type_mask =
    if Z.land (kind_of value) type_mask =? 0
    then Fail (RuntimeError (exec_pos vm') "Type ERROR: Type mismatch")
    else Ok (value, kind_of value).
Proof.
  intros Hs Ha. apply Assign_var_Ok in Ha.
  destruct Ha as (source & Hsrc & -> & _).
  destruct (decode_itoentity vm
              (set_var_table (<[name := source]> (var_table vm)) vm)
              value source type_mask Hs Hsrc) as [Hk Hd].
  rewrite (Get_argument_symbol _ name source).
  - exact Hd.
  - simpl. apply lookup_insert_eq.
  - rewrite Hk. destruct value; simpl in Hs; try contradiction; discriminate.
Qed.

(** X1.  What [Assign_var] stores under a name, [Get_argument] reads back
    through the symbol: the same host value with the kind of its Go type,
    for every mask that contains that kind, and the fatal type mismatch
    for every other mask.  The value is an [int64], a [float64], a [bool]
    or a [string]. *)
Theorem Assign_then_resolve
    (vm vm' : IcebergVM) (name : string) (value : scalar) (type_mask : Z) :
  storable value ->
  Assign_var vm name value = Ok vm' ->
  Get_argument vm' (sym name) type_mask =
    if Z.land (kind_of value) type_mask =? 0
    then Fail (RuntimeError (exec_pos vm') "Type ERROR: Type mismatch")
    else Ok (value, kind_of value).
Proof. apply Assign_var_resolves. Qed.

Lemma Assign_then_resolve_witness :
  storable (VInt 3) /\
  Assign_var Init_vm "x" (VInt 3) = Ok vm_x3 /\
  Get_argument vm_x3 (sym "x") T_ANY =
    if Z.land (kind_of (VInt 3)) T_ANY =? 0
    then Fail (RuntimeError (exec_pos vm_x3) "Type ERROR: Type mismatch")
    else Ok (VInt 3, kind_of (VInt 3)).
Proof.
  assert (H1 : storable (VInt 3)) by (unfold storable, MinInt64, MaxInt64; lia).
  assert (H2 : Assign_var Init_vm "x" (VInt 3) = Ok vm_x3)
    by (vm_compute; reflexivity).
  split; [exact H1|]. split; [exact H2|].
  exact (Assign_then_resolve Init_vm vm_x3 "x" (VInt 3) T_ANY H1 H2).
Defined.

Lemma wrap64_range (z : Z) : MinInt64 <= wrap64 z <= MaxInt64.
Proof.
  unfold wrap64, MinInt64, MaxInt64.
  pose proof (Z.mod_pos_bound (z + 2 ^ 63) (2 ^ 64) ltac:(lia)). lia.
Qed.

Lemma decode_shape (vm : IcebergVM) (arg : Entity) (type_mask : Z)
    (value : scalar) (kind : Z) :
  decode vm arg type_mask = Ok (value, kind) ->
  kind = E_type arg /\ Z.land kind type_mask <> 0 /\ resolved_shape value kind.
Proof.
  unfold decode, resolved_shape.
  destruct (Z.eqb_spec (Z.land (E_type arg) type_mask) 0) as [|Hm]; [discriminate|].
  destruct (Z.eqb_spec (E_type arg) T_INT) as [Ht|_].
  { destruct (read_uint64 (Data arg)); [discriminate|]. intros [= <- <-].
    rewrite Ht in *.
    split; [reflexivity | split; [exact Hm | split; [apply wrap64_range | auto]]]. }
  destruct (Z.eqb_spec (E_type arg) T_FLOAT) as [Ht|_].
  { destruct (read_uint64 (Data arg)); [discriminate|]. intros [= <- <-].
    rewrite Ht in *.
    split; [reflexivity | split; [exact Hm | split; [apply Float64frombits_valid | auto]]]. }
  destruct (Z.eqb_spec (E_type arg) T_BOOL) as [Ht|_].
  { destruct (read_bool (Data arg)); [discriminate|]. intros [= <- <-].
    rewrite Ht in *.
    split; [reflexivity | split; [exact Hm | split; [exact I | auto]]]. }
  destruct (Z.eqb_spec (E_type arg) T_STR) as [Ht|_].
  { intros [= <- <-]. rewrite Ht in *.
    split; [reflexivity | split; [exact Hm | split; [exact I | auto]]]. }
  destruct (Z.eqb_spec (E_type arg) T_LABEL) as [Ht|_]; [|discriminate].
  intros [= <- <-]. rewrite Ht in *.
  split; [reflexivity | split; [exact Hm | split; [exact I | eauto]]].
Qed.

Lemma Get_argument_rec_shape (depth : nat) :
  forall (vm : IcebergVM) (arg : Entity) (type_mask : Z) (value : scalar) (kind : Z),
    Get_argument_rec depth vm arg type_mask = Ok (value, kind) ->
    Z.land kind type_mask <> 0 /\ resolved_shape value kind.
Proof.
  induction depth as [|depth IH]; intros vm arg type_mask value kind H;
    simpl in H; destruct (E_type arg =? T_UNDET).
  - destruct (var_table vm !! _); discriminate.
  - apply decode_shape in H. tauto.
  - destruct (var_table vm !! _) as [e|]; [|discriminate].
    apply IH in H. exact H.
  - apply decode_shape in H. tauto.
Qed.

Lemma Get_argument_shape (vm : IcebergVM) (arg : Entity) (type_mask : Z)
    (value : scalar) (kind : Z) :
  Get_argument vm arg type_mask = Ok (value, kind) ->
  Z.land kind type_mask <> 0 /\ resolved_shape value kind.
Proof. apply Get_argument_rec_shape. Qed.

(** X2.  [let D, v]: when it succeeds, [D] resolves to the value [v]
    resolved to, with the same kind; a label operand is accepted and
    stored as a STR. *)
Theorem let_copies_the_resolved_value
    (vm vm' : IcebergVM) (d : string) (v : Entity) (value : scalar) (kind : Z) :
  Get_argument vm v T_ANY = Ok (value, kind) ->
  inst_let [sym d; v] vm = Ok vm' ->
  Get_argument vm' (sym d) T_ANY =
    Ok (value, if kind =? T_LABEL then T_STR else kind).
Proof.
  intros Hv Hlet. unfold inst_let in Hlet.
  rewrite (bind_Ok_l _ _ (sym d)) in Hlet by reflexivity.
  rewrite (bind_Ok_l _ _ d (Get_baresymbol_sym vm d)) in Hlet.
  rewrite (bind_Ok_l _ _ v) in Hlet by reflexivity.
  rewrite (bind_Ok_l _ _ _ Hv) in Hlet.
  destruct (Get_argument_shape _ _ _ _ _ Hv) as (_ & Hst & Hk).
  rewrite (Assign_var_resolves vm vm' d value T_ANY Hst Hlet).
  destruct Hk as [-> | [-> [s ->]]].
  - destruct value; simpl in Hst; try contradiction; reflexivity.
  - reflexivity.
Qed.

Lemma let_copies_the_resolved_value_witness :
  Get_argument Init_vm (lit_int 3) T_ANY = Ok (VInt 3, T_INT) /\
  inst_let [sym "x"; lit_int 3] Init_vm = Ok vm_x3 /\
  Get_argument vm_x3 (sym "x") T_ANY =
    Ok (VInt 3, if T_INT =? T_LABEL then T_STR else T_INT).
Proof.
  assert (H1 : Get_argument Init_vm (lit_int 3) T_ANY = Ok (VInt 3, T_INT))
    by (vm_compute; reflexivity).
  assert (H2 : inst_let [sym "x"; lit_int 3] Init_vm = Ok vm_x3)
    by (vm_compute; reflexivity).
  split; [exact H1|]. split; [exact H2|].
  exact (let_copies_the_resolved_value Init_vm vm_x3 "x" (lit_int 3) (VInt 3)
           T_INT H1 H2).
Defined.

(** ** What the classifier returns *)

Lemma slice_strip {A : Type} (q c : A) (body : list A) :
  slice (q :: body ++ [c]) 1 (Z.of_nat (length (q :: body ++ [c])) - 1) = Ok body.
Proof.
  unfold slice. cbn [length]. rewrite length_app. cbn [length].
  replace ((0 <=? 1) &&
           (1 <=? Z.of_nat (S (length body + 1)) - 1) &&
           (Z.of_nat (S (length body + 1)) - 1 <=? Z.of_nat (S (length body + 1))))
    with true by (symmetry; rewrite !andb_true_iff, !Z.leb_le; lia).
  replace (Z.to_nat (Z.of_nat (S (length body + 1)) - 1 - 1)) with (length body) by lia.
  change (Z.to_nat 1) with 1%nat. cbn [drop].
  rewrite drop_0, take_app_length. reflexivity.
Qed.

Lemma string_of_bytes_cons (c : ascii) (b : list ascii) :
  string_of_bytes (c :: b) = String c (string_of_bytes b).
Proof. reflexivity. Qed.

Lemma conv_arg_quoted (q c : ascii) (body : list ascii) :
  is_quote q ->
  conv_arg (q :: body ++ [c]) = Ok {| Data := body; E_type := T_STR |}.
Proof.
  intros Hq. unfold conv_arg. rewrite bytes_of_string_of_bytes.
  rewrite string_of_bytes_cons. unfold begins_with.
  assert (Hat : Ascii.eqb q "@" = false) by (destruct Hq as [-> | ->]; reflexivity).
  assert (Hqq : Ascii.eqb q dquote || Ascii.eqb q squote = true)
    by (destruct Hq as [-> | ->]; reflexivity).
  rewrite Hat, Hqq. rewrite slice_strip. reflexivity.
Qed.

(** X3.  A token of at least two bytes that begins with a quote is a STR
    whose payload is the token without its first and its last byte,
    whatever the last byte is; a token that begins with [@] is a LABEL
    whose payload is the whole token, [@] included. *)
Theorem classifier_strips_the_outer_bytes_of_a_quoted_token :
  (forall (body : list ascii) (c : ascii),
     conv_arg (dquote :: body ++ [c]) = Ok {| Data := body; E_type := T_STR |}) /\
  (forall (body : list ascii) (c : ascii),
     conv_arg (squote :: body ++ [c]) = Ok {| Data := body; E_type := T_STR |}) /\
  (forall rest : list ascii,
     conv_arg ("@"%char :: rest) =
       Ok {| Data := "@"%char :: rest; E_type := T_LABEL |}).
Proof.
  split; [intros; apply conv_arg_quoted; left; reflexivity|].
  split; [intros; apply conv_arg_quoted; right; reflexivity|].
  intros rest. unfold conv_arg. rewrite bytes_of_string_of_bytes. reflexivity.
Qed.

(** What the classifier gives, kind by kind. *)
Lemma conv_arg_Ok (tok : list ascii) (e : Entity) :
  conv_arg tok = Ok e ->
  (E_type e = T_LABEL /\ Data e = tok) \/
  E_type e = T_STR \/
  (E_type e = T_BOOL /\ exists b, Data e = write_bool b) \/
  (E_type e = T_INT /\ exists i, Data e = write_uint64 i) \/
  (E_type e = T_FLOAT /\ exists f, Data e = write_uint64 (Float64bits f)) \/
  (E_type e = T_UNDET /\ Data e = tok).
Proof.
  unfold conv_arg. rewrite bytes_of_string_of_bytes.
  destruct (begins_with "@" _).
  { intros [= <-]. left. auto. }
  destruct (_ || _).
  { intros H. inv_bind H. injection H as <-. right. left. reflexivity. }
  destruct (_ || _).
  { intros [= <-]. right. right. left. eauto. }
  destruct (ParseInt _).
  { intros [= <-]. right. right. right. left. eauto. }
  destruct (ParseFloat _).
  { intros [= <-]. right. right. right. right. left. eauto. }
  intros [= <-]. right. right. right. right. right. auto.
Qed.

(** X4.  Every operand the classifier returns that is not a bare symbol
    resolves, on every VM, with the kind the classifier gave it: the
    payload it wrote is one [Get_argument] can read. *)
Theorem classifier_literals_resolve
    (vm : IcebergVM) (tok : list ascii) (e : Entity) :
  conv_arg tok = Ok e ->
  E_type e <> T_UNDET ->
  exists value, Get_argument vm e T_ANY = Ok (value, E_type e).
Proof.
  intros Hc Hne. rewrite Get_argument_literal by exact Hne.
  unfold decode.
  destruct (conv_arg_Ok tok e Hc)
    as [[Ht _] | [Ht | [[Ht [b Hd]] | [[Ht [i Hd]] | [[Ht [f Hd]] | [Ht _]]]]]];
    rewrite Ht; try rewrite Hd;
    rewrite ?read_write_bool, ?read_write_uint64; simpl; eauto.
  contradiction.
Qed.

Lemma classifier_literals_resolve_witness :
  conv_arg (bytes_of_string "0.5") = Ok (lit_float half) /\
  E_type (lit_float half) <> T_UNDET /\
  exists value,
    Get_argument Init_vm (lit_float half) T_ANY =
      Ok (value, E_type (lit_float half)).
Proof.
  assert (H1 : conv_arg (bytes_of_string "0.5") = Ok (lit_float half))
    by (vm_compute; reflexivity).
  assert (H2 : E_type (lit_float half) <> T_UNDET) by (vm_compute; lia).
  split; [exact H1|]. split; [exact H2|].
  exact (classifier_literals_resolve Init_vm (bytes_of_string "0.5")
           (lit_float half) H1 H2).
Defined.

(** A bare symbol of the classifier classifies as a symbol again. *)
Lemma conv_arg_symbol_again (tok : list ascii) (e : Entity) :
  conv_arg tok = Ok e -> E_type e = T_UNDET ->
  Data e = tok /\ conv_arg (bytes_of_string (string_of_bytes (Data e))) = Ok e.
Proof.
  intros Hc Ht.
  destruct (conv_arg_Ok tok e Hc)
    as [[Hk _] | [Hk | [[Hk _] | [[Hk _] | [[Hk _] | [_ Hd]]]]]];
    try (rewrite Ht in Hk; discriminate Hk).
  split; [exact Hd|]. rewrite Hd, bytes_of_string_of_bytes. exact Hc.
Qed.

(** X5.  A bare symbol the classifier has produced is a name [Assign_var]
    accepts: [Get_baresymbol] returns the text of the token, and the first
    assignment to it binds it, whatever the value; neither the panic of
    the classifier nor [Invalid symbol name] can occur. *)
Theorem first_assignment_to_a_script_symbol_succeeds
    (vm : IcebergVM) (tok : list ascii) (e source : Entity) (value : scalar) :
  conv_arg tok = Ok e ->
  E_type e = T_UNDET ->
  itoentity vm value = Ok source ->
  var_table vm !! string_of_bytes tok = None ->
  Get_baresymbol vm e = Ok (string_of_bytes tok) /\
  Assign_var vm (string_of_bytes tok) value =
    Ok (set_var_table (<[string_of_bytes tok := source]> (var_table vm)) vm).
Proof.
  intros Hc Ht Hs Hl.
  destruct (conv_arg_symbol_again tok e Hc Ht) as [Hd Hagain].
  split.
  - unfold Get_baresymbol. rewrite Ht, Hd. reflexivity.
  - rewrite Hd in Hagain.
    rewrite (Assign_var_unbound vm _ value source e Hs Hl Hagain), Ht.
    reflexivity.
Qed.

Lemma first_assignment_to_a_script_symbol_succeeds_witness :
  conv_arg (bytes_of_string "x") = Ok (sym "x") /\
  E_type (sym "x") = T_UNDET /\
  itoentity Init_vm (VInt 3) = Ok (lit_int 3) /\
  var_table Init_vm !! string_of_bytes (bytes_of_string "x") = None /\
  Get_baresymbol Init_vm (sym "x") =
    Ok (string_of_bytes (bytes_of_string "x")) /\
  Assign_var Init_vm (string_of_bytes (bytes_of_string "x")) (VInt 3) =
    Ok (set_var_table
          (<[string_of_bytes (bytes_of_string "x") := lit_int 3]>
             (var_table Init_vm)) Init_vm).
Proof.
  assert (H1 : conv_arg (bytes_of_string "x") = Ok (sym "x"))
    by (vm_compute; reflexivity).
  assert (H2 : E_type (sym "x") = T_UNDET) by reflexivity.
  assert (H3 : itoentity Init_vm (VInt 3) = Ok (lit_int 3)) by reflexivity.
  assert (H4 : var_table Init_vm !! string_of_bytes (bytes_of_string "x") = None)
    by reflexivity.
  split; [exact H1|]. split; [exact H2|]. split; [exact H3|]. split; [exact H4|].
  exact (first_assignment_to_a_script_symbol_succeeds Init_vm
           (bytes_of_string "x") (sym "x") (lit_int 3) (VInt 3) H1 H2 H3 H4).
Defined.

(** ** Tokens *)

Lemma parse_args_loop_app (vm : IcebergVM) (cs1 cs2 : list Z) :
  forall st,
    parse_args_loop vm st (cs1 ++ cs2) =
      (st' ← parse_args_loop vm st cs1; parse_args_loop vm st' cs2).
Proof.
  induction cs1 as [|c cs1 IH]; intros st; simpl; [reflexivity|].
  destruct (parse_args_step vm st c) as [st1|f]; simpl; [apply IH | reflexivity].
Qed.

Lemma in_dquote_loop (vm : IcebergVM) (cs : list Z) :
  forall st,
    d_quote st = true ->
    Forall (fun c => c <> rune dquote) cs ->
    parse_args_loop vm st cs =
      Ok {| args := args st; buf := buf st ++ map to_byte cs; d_quote := true;
            s_quote := s_quote st; after_parentheses := after_parentheses st |}.
Proof.
  induction cs as [|c cs IH]; intros st Hd Hcs; simpl.
  - rewrite app_nil_r. destruct st; simpl in *; subst; reflexivity.
  - inversion Hcs as [|? ? Hc Hrest]; subst.
    unfold parse_args_step. rewrite Hd.
    destruct (Z.eqb_spec c (rune dquote)); [contradiction|]. simpl.
    rewrite IH by (simpl; assumption). simpl.
    rewrite <- app_assoc. reflexivity.
Qed.

Lemma in_squote_loop (vm : IcebergVM) (cs : list Z) :
  forall st,
    d_quote st = false -> s_quote st = true ->
    Forall (fun c => c <> rune squote) cs ->
    parse_args_loop vm st cs =
      Ok {| args := args st; buf := buf st ++ map to_byte cs; d_quote := false;
            s_quote := true; after_parentheses := after_parentheses st |}.
Proof.
  induction cs as [|c cs IH]; intros st Hd Hs Hcs; simpl.
  - rewrite app_nil_r. destruct st; simpl in *; subst; reflexivity.
  - inversion Hcs as [|? ? Hc Hrest]; subst.
    unfold parse_args_step. rewrite Hd, Hs.
    destruct (Z.eqb_spec c (rune squote)); [contradiction|]. simpl.
    rewrite IH by (simpl; assumption). simpl.
    rewrite <- app_assoc. reflexivity.
Qed.

(** X6.  From outside a quoted region and with an empty buffer, the
    characters [q cs q], where [q] is a quote and [cs] does not contain
    it, add one STR operand: the bytes of [cs], with their spaces, their
    commas and the quotes of the other kind (a character above 255 is cut
    to its low byte).  The tokenizer is left outside any quoted region,
    with an empty buffer and [after_parentheses] set. *)
Theorem quoted_token_is_read_whole
    (vm : IcebergVM) (st : tokenizer) (cs : list Z) :
  d_quote st = false -> s_quote st = false -> buf st = [] ->
  (Forall (fun c => c <> rune dquote) cs ->
   parse_args_loop vm st (rune dquote :: cs ++ [rune dquote]) =
     Ok {| args := args st ++ [{| Data := map to_byte cs; E_type := T_STR |}];
           buf := []; d_quote := false; s_quote := false;
           after_parentheses := true |}) /\
  (Forall (fun c => c <> rune squote) cs ->
   parse_args_loop vm st (rune squote :: cs ++ [rune squote]) =
     Ok {| args := args st ++ [{| Data := map to_byte cs; E_type := T_STR |}];
           buf := []; d_quote := false; s_quote := false;
           after_parentheses := true |}).
Proof.
  intros Hd Hs Hb.
  destruct (open_quote_on_empty vm st Hd Hs Hb) as [Hod Hos].
  split; intros Hcs.
  - cbn [parse_args_loop]. rewrite Hod. cbn [mbind Result_bind].
    rewrite parse_args_loop_app.
    rewrite in_dquote_loop by (reflexivity || exact Hcs).
    cbn [mbind Result_bind parse_args_loop].
    unfold parse_args_step. simpl d_quote. cbv iota.
    rewrite Z.eqb_refl. unfold emit. simpl buf. rewrite Hb.
    change ((([] ++ [dquote]) ++ map to_byte cs) ++ [dquote])
      with (dquote :: map to_byte cs ++ [dquote]).
    rewrite conv_arg_quoted by (left; reflexivity). reflexivity.
  - cbn [parse_args_loop]. rewrite Hos. cbn [mbind Result_bind].
    rewrite parse_args_loop_app.
    rewrite in_squote_loop by (reflexivity || exact Hcs).
    cbn [mbind Result_bind parse_args_loop].
    unfold parse_args_step. simpl d_quote. simpl s_quote. cbv iota.
    rewrite Z.eqb_refl. unfold emit. simpl buf. rewrite Hb.
    change ((([] ++ [squote]) ++ map to_byte cs) ++ [squote])
      with (squote :: map to_byte cs ++ [squote]).
    rewrite conv_arg_quoted by (right; reflexivity). reflexivity.
Qed.

Lemma chars_a_b_lack_dquote : Forall (fun c => c <> rune dquote) chars_a_b.
Proof. repeat constructor; vm_compute; lia. Qed.

Lemma chars_a_b_lack_squote : Forall (fun c => c <> rune squote) chars_a_b.
Proof. repeat constructor; vm_compute; lia. Qed.

Lemma chars_4_2_token : Forall token_char chars_4_2.
Proof. repeat constructor; vm_compute; lia. Qed.

Lemma quoted_token_is_read_whole_witness :
  d_quote tokenizer_start = false /\
  s_quote tokenizer_start = false /\
  buf tokenizer_start = [] /\
  parse_args_loop Init_vm tokenizer_start
    (rune dquote :: chars_a_b ++ [rune dquote]) =
    Ok {| args := args tokenizer_start ++
                  [{| Data := map to_byte chars_a_b; E_type := T_STR |}];
          buf := []; d_quote := false; s_quote := false;
          after_parentheses := true |}.
Proof.
  assert (H1 : d_quote tokenizer_start = false) by reflexivity.
  assert (H2 : s_quote tokenizer_start = false) by reflexivity.
  assert (H3 : buf tokenizer_start = []) by reflexivity.
  split; [exact H1|]. split; [exact H2|]. split; [exact H3|].
  exact (proj1 (quoted_token_is_read_whole Init_vm tokenizer_start chars_a_b
                  H1 H2 H3) chars_a_b_lack_dquote).
Defined.

Lemma unquoted_loop (vm : IcebergVM) (cs : list Z) :
  forall st,
    d_quote st = false -> s_quote st = false -> after_parentheses st = false ->
    Forall token_char cs ->
    parse_args_loop vm st cs =
      Ok {| args := args st; buf := buf st ++ unquoted_bytes cs; d_quote := false;
            s_quote := false; after_parentheses := false |}.
Proof.
  unfold unquoted_bytes.
  induction cs as [|c cs IH]; intros st Hd Hs Hap Hcs; simpl.
  - rewrite app_nil_r. destruct st; simpl in *; subst; reflexivity.
  - inversion Hcs as [|? ? (Hc1 & Hc2 & Hc3) Hrest]; subst.
    unfold parse_args_step. rewrite Hd, Hs, Hap.
    destruct (Z.eqb_spec c (rune ",")); [contradiction|].
    destruct (Z.eqb_spec c (rune dquote)); [contradiction|].
    destruct (Z.eqb_spec c (rune squote)); [contradiction|].
    destruct (Z.eqb_spec c (rune " ")) as [Hsp|Hsp]; simpl.
    + rewrite IH by assumption.
      rewrite filter_cons_False by (intros H; apply H; exact Hsp). reflexivity.
    + rewrite IH by (simpl; assumption). simpl.
      rewrite filter_cons_True by exact Hsp. simpl.
      rewrite <- app_assoc. reflexivity.
Qed.

(** X7.  Outside quotes, a run of characters without comma and quote,
    followed by a comma, adds one operand: the classifier applied to the
    buffer followed by the bytes of the run without its spaces.  Spaces
    inside a token vanish ([4 2] is read as [42]), and a comma after an
    empty token gives the classifier an empty token. *)
Theorem unquoted_token_drops_its_spaces
    (vm : IcebergVM) (st : tokenizer) (cs : list Z) :
  d_quote st = false -> s_quote st = false -> after_parentheses st = false ->
  Forall token_char cs ->
  parse_args_loop vm st (cs ++ [rune ","]) =
    (e ← conv_arg (buf st ++ unquoted_bytes cs);
     Ok {| args := args st ++ [e]; buf := []; d_quote := false;
           s_quote := false; after_parentheses := false |}).
Proof.
  intros Hd Hs Hap Hcs. rewrite parse_args_loop_app.
  rewrite (unquoted_loop vm cs st Hd Hs Hap Hcs).
  cbn [mbind Result_bind parse_args_loop].
  unfold parse_args_step. simpl d_quote. simpl s_quote. cbv iota.
  rewrite Z.eqb_refl. simpl after_parentheses. cbv iota. simpl negb. cbv iota.
  unfold emit. simpl buf.
  destruct (conv_arg (buf st ++ unquoted_bytes cs)); reflexivity.
Qed.

Lemma unquoted_token_drops_its_spaces_witness :
  d_quote tokenizer_start = false /\
  s_quote tokenizer_start = false /\
  after_parentheses tokenizer_start = false /\
  conv_arg (buf tokenizer_start ++ unquoted_bytes chars_4_2) = Ok (lit_int 42) /\
  parse_args_loop Init_vm tokenizer_start (chars_4_2 ++ [rune ","]) =
    (e ← conv_arg (buf tokenizer_start ++ unquoted_bytes chars_4_2);
     Ok {| args := args tokenizer_start ++ [e]; buf := []; d_quote := false;
           s_quote := false; after_parentheses := false |}).
Proof.
  assert (H1 : d_quote tokenizer_start = false) by reflexivity.
  assert (H2 : s_quote tokenizer_start = false) by reflexivity.
  assert (H3 : after_parentheses tokenizer_start = false) by reflexivity.
  split; [exact H1|]. split; [exact H2|]. split; [exact H3|].
  split; [vm_compute; reflexivity|].
  exact (unquoted_token_drops_its_spaces Init_vm tokenizer_start chars_4_2
           H1 H2 H3 chars_4_2_token).
Defined.

Lemma runes_from_length (b : list ascii) :
  forall skip : nat, (length (runes_from skip b) <= length b)%nat.
Proof.
  induction b as [|b0 rest IH]; intros skip; simpl; [lia|].
  destruct skip as [|k].
  - destruct (decode_rune b0 rest) as [r w]. simpl. specialize (IH w). lia.
  - specialize (IH k). lia.
Qed.

Lemma bytes_of_string_length (s : string) :
  length (bytes_of_string s) = String.length s.
Proof. induction s as [|c r IH]; simpl; [reflexivity | f_equal; exact IH]. Qed.

(** A string has at most as many runes as bytes. *)
Lemma runes_length (s : string) : (length (runes s) <= String.length s)%nat.
Proof.
  unfold runes. rewrite <- bytes_of_string_length. apply runes_from_length.
Qed.

Lemma emit_buf (st st' : tokenizer) : emit st = Ok st' -> buf st' = [].
Proof.
  unfold emit. intros H. apply bind_Ok in H. destruct H as (e & _ & H).
  injection H as <-. reflexivity.
Qed.

(** A turn of the loop writes at most one byte. *)
Lemma parse_args_step_buf (vm : IcebergVM) (st st' : tokenizer) (c : Z) :
  parse_args_step vm st c = Ok st' ->
  (length (buf st') <= S (length (buf st)))%nat.
Proof.
  unfold parse_args_step, compile_error.
  repeat match goal with
         | |- context [if ?b then _ else _] => destruct b
         end;
    try discriminate;
    try (intros [= <-]; simpl; rewrite ?length_app; simpl; lia);
    intros H;
    lazymatch type of H with
    | emit _ = Ok _ => apply emit_buf in H; rewrite H; simpl; lia
    | _ =>
        apply bind_Ok in H; destruct H as (st1 & H1 & H); injection H as <-;
        apply emit_buf in H1; simpl; rewrite H1; simpl; lia
    end.
Qed.

Lemma parse_args_loop_buf (vm : IcebergVM) (cs : list Z) :
  forall st st',
    parse_args_loop vm st cs = Ok st' ->
    (length (buf st') <= length (buf st) + length cs)%nat.
Proof.
  induction cs as [|c cs IH]; intros st st' H; simpl in H.
  - injection H as <-. lia.
  - apply bind_Ok in H. destruct H as (st1 & H1 & H).
    apply parse_args_step_buf in H1. apply IH in H. simpl. lia.
Qed.

(** X8.  The tokenizer works in a buffer of [len(line)] bytes.  At every
    point of the loop the bytes buffered plus the characters still to read
    do not exceed the length of the line: each write [buf[buf_idx]] is
    inside the buffer, and so is the slice [buf[:buf_idx]] after the
    loop. *)
Theorem tokenizer_writes_stay_in_the_buffer
    (vm : IcebergVM) (line : string) (read rest : list Z) (st : tokenizer) :
  runes line = read ++ rest ->
  parse_args_loop vm tokenizer_start read = Ok st ->
  (length (buf st) + length rest <= String.length line)%nat.
Proof.
  intros Hr Hl. apply parse_args_loop_buf in Hl. simpl in Hl.
  pose proof (runes_length line) as Hn. rewrite Hr, length_app in Hn. lia.
Qed.

Lemma tokenizer_writes_stay_in_the_buffer_witness :
  runes "a,b" = [rune "a"] ++ [rune ","; rune "b"] /\
  parse_args_loop Init_vm tokenizer_start [rune "a"] = Ok (push "a" tokenizer_start) /\
  (length (buf (push "a" tokenizer_start)) + length [rune ","; rune "b"] <=
   String.length "a,b")%nat.
Proof.
  assert (H1 : runes "a,b" = [rune "a"] ++ [rune ","; rune "b"])
    by (vm_compute; reflexivity).
  assert (H2 : parse_args_loop Init_vm tokenizer_start [rune "a"] =
               Ok (push "a" tokenizer_start)) by (vm_compute; reflexivity).
  split; [exact H1|]. split; [exact H2|].
  exact (tokenizer_writes_stay_in_the_buffer Init_vm "a,b" [rune "a"]
           [rune ","; rune "b"] (push "a" tokenizer_start) H1 H2).
Defined.

(** ** A logic for the handlers *)

Lemma Init_vm_values_stored : values_stored Init_vm.
Proof. apply map_Forall_empty. Qed.

Lemma wp_bind {A B : Type} (F : Failure -> Prop) (r : Result A)
    (k : A -> Result B) (Q : B -> Prop) :
  wp F r (fun x => wp F (k x) Q) -> wp F (r ≫= k) Q.
Proof. destruct r; simpl; auto. Qed.

Lemma wp_Ok {A : Type} (F : Failure -> Prop) (x : A) (Q : A -> Prop) :
  Q x -> wp F (Ok x) Q.
Proof. auto. Qed.

Lemma wp_Runtime_error {A : Type} (pos : Z) (vm : IcebergVM) (message : string)
    (Q : A -> Prop) :
  exec_pos vm = pos -> wp (run_failure pos) (Runtime_error vm message) Q.
Proof. intros <-. left. eauto. Qed.

Lemma wp_index {A : Type} (F : Failure -> Prop) (a : list A) (i : Z) (x : A)
    (Q : A -> Prop) :
  a !! Z.to_nat i = Some x -> 0 <= i -> Q x -> wp F (index a i) Q.
Proof.
  intros Hl Hi HQ. unfold index.
  destruct (Z.ltb_spec i 0); [lia|]. rewrite Hl. exact HQ.
Qed.

Lemma wp_int64_rem (pos x y : Z) (Q : Z -> Prop) :
  (forall r, Q r) -> wp (run_failure pos) (int64_rem x y) Q.
Proof.
  intros HQ. unfold int64_rem. destruct (y =? 0); [right; reflexivity | apply HQ].
Qed.

Lemma decode_Fail (vm : IcebergVM) (arg : Entity) (type_mask : Z) (f : Failure) :
  decode vm arg type_mask = Fail f ->
  exists message, f = RuntimeError (exec_pos vm) message.
Proof.
  unfold decode, read_failed, Runtime_error.
  repeat match goal with
         | |- context [if ?b then _ else _] => destruct b
         | |- context [match ?x with inl _ => _ | inr _ => _ end] => destruct x
         end;
    intros [= <-] || discriminate; eauto.
Qed.

Lemma value_kind_not_symbol (k : Z) : value_kind k -> (k =? T_UNDET) = false.
Proof. intros [-> | [-> | [-> | ->]]]; reflexivity. Qed.

(** With values of the four kinds in the table, a symbol is resolved in one
    indirection. *)
Lemma Get_argument_one_indirection (vm : IcebergVM) (name : string)
    (e : Entity) (type_mask : Z) :
  values_stored vm -> var_table vm !! name = Some e ->
  Get_argument vm (sym name) type_mask = decode vm e type_mask.
Proof.
  intros Hst Hl. unfold Get_argument. simpl.
  rewrite string_of_bytes_of_string, Hl.
  pose proof (value_kind_not_symbol _ (Hst _ _ Hl)) as Hk.
  destruct (size (var_table vm)); simpl; rewrite Hk; reflexivity.
Qed.

Lemma Get_argument_Fail (vm : IcebergVM) (arg : Entity) (type_mask : Z)
    (f : Failure) :
  values_stored vm ->
  Get_argument vm arg type_mask = Fail f ->
  exists message, f = RuntimeError (exec_pos vm) message.
Proof.
  intros Hst. unfold Get_argument. simpl.
  destruct (E_type arg =? T_UNDET); [|apply decode_Fail].
  destruct (var_table vm !! _) as [e|] eqn:Hl.
  - pose proof (value_kind_not_symbol _ (Hst _ _ Hl)) as Hk.
    destruct (size (var_table vm)); simpl; rewrite Hk; apply decode_Fail.
  - intros [= <-]. eauto.
Qed.

Lemma wp_Get_argument (pos : Z) (vm : IcebergVM) (arg : Entity) (type_mask : Z)
    (Q : scalar * Z -> Prop) :
  exec_pos vm = pos -> values_stored vm ->
  (forall value kind,
     Z.land kind type_mask <> 0 -> resolved_shape value kind -> Q (value, kind)) ->
  wp (run_failure pos) (Get_argument vm arg type_mask) Q.
Proof.
  intros <- Hst HQ.
  destruct (Get_argument vm arg type_mask) as [[value kind]|f] eqn:H.
  - apply Get_argument_shape in H. apply HQ; tauto.
  - apply Get_argument_Fail in H; [|exact Hst]. destruct H as [m ->]. left. eauto.
Qed.

Lemma wp_Get_baresymbol (pos : Z) (vm : IcebergVM) (arg : Entity)
    (Q : string -> Prop) :
  exec_pos vm = pos -> classified arg ->
  (forall name, assignable name -> Q name) ->
  wp (run_failure pos) (Get_baresymbol vm arg) Q.
Proof.
  intros <- [tok Hc] HQ. unfold Get_baresymbol.
  destruct (Z.eqb_spec (E_type arg) T_UNDET) as [Ht|]; simpl.
  - apply HQ. exists arg. apply (conv_arg_symbol_again tok arg Hc Ht).
  - left. eauto.
Qed.

Lemma itoentity_kind (vm : IcebergVM) (value : scalar) (source : Entity) :
  itoentity vm value = Ok source -> value_kind (E_type source).
Proof.
  unfold value_kind.
  destruct value; simpl; intros [= <-] || discriminate; simpl; auto.
Qed.

Lemma wp_Assign_var (pos : Z) (vm : IcebergVM) (name : string) (value : scalar)
    (Q : IcebergVM -> Prop) :
  exec_pos vm = pos ->
  assignable name -> value <> VNamed -> value <> VOther ->
  values_stored vm ->
  (forall vm', values_stored vm' -> exec_pos vm' = exec_pos vm ->
               label_table vm' = label_table vm -> Q vm') ->
  wp (run_failure pos) (Assign_var vm name value) Q.
Proof.
  intros <- [e He] Hn Hv Hst HQ. unfold Assign_var.
  destruct (itoentity vm value) as [source|f] eqn:Hs.
  2: { destruct value; try discriminate Hs; contradiction. }
  simpl. pose proof (itoentity_kind _ _ _ Hs) as Hk.
  assert (Hins : values_stored
                   (set_var_table (<[name := source]> (var_table vm)) vm)).
  { unfold values_stored. simpl. apply map_Forall_insert_2; assumption. }
  destruct (var_table vm !! name) as [registered|].
  - destruct (negb _); [left; eauto|]. apply HQ; auto.
  - rewrite He. simpl. destruct (negb _); [left; eauto|]. apply HQ; auto.
Qed.

Lemma shape_cases (value : scalar) (kind : Z) :
  resolved_shape value kind ->
  (exists i, value = VInt i /\ kind = T_INT) \/
  (exists f, value = VFloat f /\ kind = T_FLOAT) \/
  (exists b, value = VBool b /\ kind = T_BOOL) \/
  (exists s, value = VString s /\ (kind = T_STR \/ kind = T_LABEL)).
Proof.
  intros [Hst [-> | [-> [s ->]]]].
  - destruct value; simpl in Hst; try contradiction; eauto 8.
  - eauto 8.
Qed.

Ltac shape Hs Hm :=
  destruct (shape_cases _ _ Hs)
    as [(? & -> & ->) | [(? & -> & ->) | [(? & -> & ->) | (? & -> & [-> | ->])]]];
  try (exfalso; apply Hm; reflexivity); clear Hs Hm.

Ltac post :=
  idtac;
  match goal with
  | |- handler_post _ _ =>
      unfold handler_post; simpl;
      repeat split; solve [assumption | congruence | eauto]
  end.

Ltac wp_step :=
  idtac;
  lazymatch goal with
  | |- wp _ (mbind _ _) _ => apply wp_bind
  | |- wp _ (Ok _) _ => apply wp_Ok; cbv beta iota
  | |- wp _ (index _ _) _ => eapply wp_index; [reflexivity | lia | cbv beta iota]
  | |- wp _ (Get_argument _ _ _) _ =>
      let Hm := fresh "Hm" in
      let Hs := fresh "Hs" in
      apply wp_Get_argument;
      [reflexivity | assumption | intros ? ? Hm Hs; shape Hs Hm; cbv beta iota]
  | |- wp _ (Get_baresymbol _ _) _ =>
      apply wp_Get_baresymbol;
      [reflexivity | assumption | intros ? ?; cbv beta iota]
  | |- wp _ (Assign_var _ _ _) _ =>
      apply wp_Assign_var;
      [reflexivity | assumption | cbn [andb negb]; discriminate
      | cbn [andb negb]; discriminate | assumption
      | intros ? ? ? ?]
  | |- wp _ (Runtime_error _ _) _ => apply wp_Runtime_error; reflexivity
  | |- wp _ (read_failed _ _) _ => apply wp_Runtime_error; reflexivity
  | |- wp _ (int64_rem _ _) _ => apply wp_int64_rem; intros ?
  | |- wp _ (if ?b then _ else _) _ =>
      first [ let v := eval vm_compute in b in
              lazymatch v with
              | true => change b with true
              | false => change b with false
              end; cbv beta iota
            | destruct b ]
  | |- wp _ (match ?x with Some _ => _ | None => _ end) _ => destruct x eqn:?
  | |- wp _ (match ?x with true => _ | false => _ end) _ => destruct x
  end.

Ltac operand1 args Hlen Hcl :=
  let a := fresh "a" in
  let Hc := fresh "Hc" in
  destruct args as [|a args]; [simpl in Hlen; lia|];
  apply Forall_cons in Hcl; destruct Hcl as [Hc Hcl].

Tactic Notation "operands" integer(n) ident(args) ident(Hlen) ident(Hcl) :=
  do n (operand1 args Hlen Hcl);
  destruct args; [|simpl in Hlen; lia]; clear Hlen Hcl.

Lemma inst_nop_well_behaved : well_behaved 0 inst_nop.
Proof. intros args vm _ _ Hst. apply wp_Ok. post. Qed.

Lemma inst_let_well_behaved : well_behaved 2 inst_let.
Proof.
  intros args vm Hlen Hcl Hst. operands 2 args Hlen Hcl.
  unfold inst_let. repeat wp_step; post.
Qed.

Lemma arb_calc_well_behaved (math_Pow : float64 -> float64 -> float64)
    (operator : string) :
  well_behaved 3 (fun args => arb_calc math_Pow args operator).
Proof.
  intros args vm Hlen Hcl Hst. operands 3 args Hlen Hcl.
  unfold arb_calc. repeat wp_step; post.
Qed.

Lemma inst_cmp_well_behaved : well_behaved 4 inst_cmp.
Proof.
  intros args vm Hlen Hcl Hst. operands 4 args Hlen Hcl.
  unfold inst_cmp. repeat wp_step; post.
Qed.

Lemma arb_bool_well_behaved (operator : string) :
  well_behaved 3 (fun args => arb_bool args operator).
Proof.
  intros args vm Hlen Hcl Hst. operands 3 args Hlen Hcl.
  unfold arb_bool. repeat wp_step; post.
Qed.

Lemma inst_not_well_behaved : well_behaved 2 inst_not.
Proof.
  intros args vm Hlen Hcl Hst. operands 2 args Hlen Hcl.
  unfold inst_not. repeat wp_step; post.
Qed.

Lemma inst_int_well_behaved : well_behaved 2 inst_int.
Proof.
  intros args vm Hlen Hcl Hst. operands 2 args Hlen Hcl.
  unfold inst_int. repeat wp_step; post.
Qed.

Lemma inst_float_well_behaved : well_behaved 2 inst_float.
Proof.
  intros args vm Hlen Hcl Hst. operands 2 args Hlen Hcl.
  unfold inst_float. repeat wp_step; post.
Qed.

Lemma inst_bool_well_behaved : well_behaved 2 inst_bool.
Proof.
  intros args vm Hlen Hcl Hst. operands 2 args Hlen Hcl.
  unfold inst_bool. repeat wp_step; post.
Qed.

Lemma inst_str_well_behaved : well_behaved 2 inst_str.
Proof.
  intros args vm Hlen Hcl Hst. operands 2 args Hlen Hcl.
  unfold inst_str. repeat wp_step; post.
Qed.

Lemma inst_cat_well_behaved : well_behaved 3 inst_cat.
Proof.
  intros args vm Hlen Hcl Hst. operands 3 args Hlen Hcl.
  unfold inst_cat. repeat wp_step; post.
Qed.

Lemma inst_goto_well_behaved : well_behaved 1 inst_goto.
Proof.
  intros args vm Hlen Hcl Hst. operands 1 args Hlen Hcl.
  unfold inst_goto. repeat wp_step; post.
Qed.

Lemma inst_when_well_behaved : well_behaved 2 inst_when.
Proof.
  intros args vm Hlen Hcl Hst. operands 2 args Hlen Hcl.
  unfold inst_when. repeat wp_step; post.
Qed.

Lemma dump_check_wp (vm : IcebergVM) (entries : list (string * Entity)) :
  values_stored vm ->
  wp (run_failure (exec_pos vm)) (dump_check vm entries) (fun _ => True).
Proof.
  intros Hst. induction entries as [|[name value] rest IH]; simpl; [exact I|].
  apply wp_bind. apply wp_Get_argument; [reflexivity | exact Hst|].
  intros _ _ _ _. exact IH.
Qed.

Lemma inst_dump_well_behaved : well_behaved 0 inst_dump.
Proof.
  intros args vm _ _ Hst. unfold inst_dump. apply wp_bind.
  pose proof (dump_check_wp vm (map_to_list (var_table vm)) Hst) as H.
  destruct (dump_check vm _); simpl in *; [|exact H].
  post.
Qed.

Lemma inst_print_well_behaved : well_behaved 1 inst_print.
Proof.
  intros args vm Hlen Hcl Hst. operands 1 args Hlen Hcl.
  unfold inst_print. repeat wp_step; post.
Qed.

(** ** Compiled programs *)

Create HintDb contract.
#[local] Hint Resolve inst_nop_well_behaved inst_let_well_behaved
  inst_cmp_well_behaved inst_not_well_behaved inst_int_well_behaved
  inst_float_well_behaved inst_bool_well_behaved inst_str_well_behaved
  inst_cat_well_behaved inst_goto_well_behaved inst_when_well_behaved
  inst_dump_well_behaved inst_print_well_behaved : contract.

Lemma Init_well_behaved (math_Pow : float64 -> float64 -> float64) :
  well_behaved_table (Init math_Pow).
Proof.
  unfold well_behaved_table, Init.
  repeat (apply map_Forall_insert_2;
          [first [ apply (arb_calc_well_behaved math_Pow)
                 | apply arb_bool_well_behaved
                 | solve [auto with contract] ] |]).
  apply map_Forall_empty.
Qed.

Lemma start_well_behaved (math_Pow : float64 -> float64 -> float64) :
  well_behaved_table (start math_Pow).
Proof.
  apply map_Forall_insert_2; [apply inst_print_well_behaved|].
  apply Init_well_behaved.
Qed.

(** X9.  A handler of the table of [start] (the table of [Init] and
    [print]), called with as many operands as the table says, all from
    the classifier, on a VM whose variables hold values of the four
    kinds, stops only with a runtime diagnostic that carries the current
    instruction number, or with the division by zero of [mod]: no operand
    index is out of range, no type assertion fails, the classifier does
    not panic and [Get_argument] returns. *)
Theorem builtin_handler_stops_only_as_written
    (math_Pow : float64 -> float64 -> float64) (name : string)
    (d : InstructionDesc) (args : list Entity) (vm : IcebergVM) (f : Failure) :
  start math_Pow !! name = Some d ->
  Z.of_nat (length args) = N_args d ->
  Forall classified args ->
  values_stored vm ->
  Function d args vm = Fail f ->
  (exists message, f = RuntimeError (exec_pos vm) message) \/
  f = GoPanic "runtime error: integer divide by zero".
Proof.
  intros Hd Hlen Hcl Hst Hf.
  pose proof (start_well_behaved math_Pow _ _ Hd args vm Hlen Hcl Hst) as H.
  rewrite Hf in H. exact H.
Qed.

Lemma lit_label_classified (name : string) :
  begins_with "@" name = true -> classified (lit_label name).
Proof.
  intros H. exists (bytes_of_string name). unfold conv_arg.
  rewrite string_of_bytes_of_string, H. reflexivity.
Qed.

Lemma builtin_handler_stops_only_as_written_witness :
  start pow_unused !! "goto" = Some (desc inst_goto 1) /\
  Z.of_nat (length [lit_label "@nope"]) = N_args (desc inst_goto 1) /\
  Function (desc inst_goto 1) [lit_label "@nope"] Init_vm =
    Fail (RuntimeError 0 "Argument ERROR: Unset label @nope") /\
  ((exists message,
      RuntimeError 0 "Argument ERROR: Unset label @nope" =
        RuntimeError (exec_pos Init_vm) message) \/
   RuntimeError 0 "Argument ERROR: Unset label @nope" =
     GoPanic "runtime error: integer divide by zero").
Proof.
  assert (H1 : start pow_unused !! "goto" = Some (desc inst_goto 1))
    by reflexivity.
  assert (H2 : Z.of_nat (length [lit_label "@nope"]) = N_args (desc inst_goto 1))
    by reflexivity.
  assert (H3 : Forall classified [lit_label "@nope"])
    by (repeat constructor; apply lit_label_classified; reflexivity).
  assert (H4 : Function (desc inst_goto 1) [lit_label "@nope"] Init_vm =
               Fail (RuntimeError 0 "Argument ERROR: Unset label @nope"))
    by (vm_compute; reflexivity).
  split; [exact H1|]. split; [exact H2|]. split; [exact H4|].
  exact (builtin_handler_stops_only_as_written pow_unused "goto"
           (desc inst_goto 1) [lit_label "@nope"] Init_vm _
           H1 H2 H3 Init_vm_values_stored H4).
Defined.

Lemma start_plain (math_Pow : float64 -> float64 -> float64) :
  plain_table (start math_Pow).
Proof.
  split.
  - eexists. split; [reflexivity|reflexivity].
  - unfold start, Init.
    repeat (apply map_Forall_insert_2; [reflexivity|]).
    apply map_Forall_empty.
Qed.

Lemma Init_plain (math_Pow : float64 -> float64 -> float64) :
  plain_table (Init math_Pow).
Proof.
  split.
  - eexists. split; [reflexivity|reflexivity].
  - unfold Init.
    repeat (apply map_Forall_insert_2; [reflexivity|]).
    apply map_Forall_empty.
Qed.

(** ** One turn, and the loop *)
Lemma Run_step_wp (Inst_table : gmap string InstructionDesc)
    (code : Bytecode) (vm : IcebergVM) :
  well_behaved_table Inst_table -> well_formed Inst_table code ->
  running code vm -> exec_pos vm < Z.of_nat (length (inst_list code)) ->
  wp (run_failure (exec_pos vm)) (Run_step Inst_table code vm) (running code).
Proof.
  intros HT (Hk & Hlab & Hmax) (Hst & Hl & Hpos) Hlt. unfold Run_step.
  destruct (lookup_lt_is_Some_2 (inst_list code) (Z.to_nat (exec_pos vm))
              ltac:(lia)) as [instr Hi].
  apply wp_bind. eapply wp_index; [exact Hi | lia |].
  rewrite Forall_lookup in Hk.
  destruct (Hk _ _ Hi) as [(d & Hd & Hn) Hcl]. rewrite Hd.
  apply wp_bind.
  pose proof (HT _ _ Hd (Args instr) vm (eq_sym Hn) Hcl Hst) as Hh.
  destruct (Function d (Args instr) vm) as [vm1|f]; simpl in *; [|exact Hh].
  destruct Hh as (Hst1 & Hl1 & Hp1).
  assert (0 <= exec_pos vm1 < Z.of_nat (length (inst_list code))) as Hr.
  { destruct Hp1 as [-> | [L HL]]; [lia|]. apply (Hlab L). rewrite <- Hl. exact HL. }
  split; [exact Hst1|]. split; [simpl; congruence|]. simpl.
  rewrite wrap64_small by (unfold MinInt64, MaxInt64 in *; lia). lia.
Qed.

Lemma Run_loop_wp (Inst_table : gmap string InstructionDesc) (code : Bytecode) :
  well_behaved_table Inst_table -> well_formed Inst_table code ->
  forall (fuel : nat) (vm : IcebergVM) (r : Result IcebergVM),
    running code vm ->
    Run_loop fuel Inst_table code vm = Some r ->
    wp (stops_within (Z.of_nat (length (inst_list code)))) r
       (fun vm' => running code vm' /\
                   exec_pos vm' = Z.of_nat (length (inst_list code))).
Proof.
  intros HT Hwf. induction fuel as [|fuel IH]; intros vm r Hrun H; simpl in H;
    destruct (Z.leb_spec (exec_pos vm) (Z.of_nat (length (inst_list code)) - 1))
      as [Hle|Hgt].
  - discriminate H.
  - injection H as <-. simpl. split; [exact Hrun|].
    destruct Hrun as (_ & _ & Hp). lia.
  - pose proof (Run_step_wp _ _ _ HT Hwf Hrun ltac:(lia)) as Hs.
    destruct (Run_step Inst_table code vm) as [vm1|f]; simpl in Hs.
    + apply (IH vm1 r Hs H).
    + injection H as <-. simpl. destruct Hrun as (_ & _ & Hp).
      destruct Hs as [[message ->] | ->]; [left | right; reflexivity].
      eexists _, _. split; [reflexivity | lia].
  - injection H as <-. simpl. split; [exact Hrun|].
    destruct Hrun as (_ & _ & Hp). lia.
Qed.

Lemma Run_enter_running (code : Bytecode) (vm : IcebergVM) :
  values_stored vm -> running code (Run_enter code vm).
Proof.
  intros Hst. split; [exact Hst|]. split; [reflexivity|]. simpl. lia.
Qed.

(** ** The assembler *)
Lemma emit_classified (st st' : tokenizer) :
  Forall classified (args st) -> emit st = Ok st' ->
  Forall classified (args st').
Proof.
  intros Hcl H. unfold emit in H. apply bind_Ok in H.
  destruct H as (e & He & H). injection H as <-. simpl.
  apply Forall_app. split; [exact Hcl|].
  apply Forall_cons. split; [eexists; exact He | constructor].
Qed.

Lemma parse_args_step_classified (vm : IcebergVM) (st st' : tokenizer) (c : Z) :
  Forall classified (args st) ->
  parse_args_step vm st c = Ok st' ->
  Forall classified (args st').
Proof.
  intros Hcl. unfold parse_args_step, compile_error.
  repeat match goal with
         | |- context [if ?b then _ else _] => destruct b
         end;
    try (intros [= <-]; exact Hcl); try discriminate;
    intros H;
    lazymatch type of H with
    | emit _ = Ok _ => eapply emit_classified; [exact Hcl | exact H]
    | _ =>
        apply bind_Ok in H; destruct H as (st1 & H1 & H); injection H as <-;
        simpl; eapply emit_classified; [|exact H1]; exact Hcl
    end.
Qed.

Lemma parse_args_loop_classified (vm : IcebergVM) (cs : list Z) :
  forall st st',
    Forall classified (args st) ->
    parse_args_loop vm st cs = Ok st' ->
    Forall classified (args st').
Proof.
  induction cs as [|c cs IH]; intros st st' Hcl H; simpl in H.
  - injection H as <-. exact Hcl.
  - apply bind_Ok in H. destruct H as (st1 & H1 & H).
    eapply IH; [|exact H]. eapply parse_args_step_classified; eassumption.
Qed.

Lemma parse_args_classified (vm : IcebergVM) (line : string) (l : list Entity) :
  parse_args vm line = Ok l -> Forall classified l.
Proof.
  unfold parse_args. intros H.
  apply bind_Ok in H. destruct H as (st1 & H1 & H).
  apply parse_args_loop_classified in H1; [|constructor].
  apply bind_Ok in H. destruct H as (st2 & H2 & H).
  assert (Forall classified (args st2)) as Hcl.
  { destruct (negb _); [eapply emit_classified; eassumption|].
    injection H2 as <-. exact H1. }
  unfold compile_error in H.
  destruct (d_quote st2); [discriminate|].
  destruct (s_quote st2); [discriminate|].
  injection H as <-. exact Hcl.
Qed.

Lemma chk_nargs_Ok (vm : IcebergVM) (l : list Entity) (n : Z) (u : unit) :
  chk_nargs vm l n = Ok u -> n = Z.of_nat (length l).
Proof.
  unfold chk_nargs, compile_error.
  destruct (Z.ltb_spec n (Z.of_nat (length l))); [discriminate|].
  destruct (Z.ltb_spec (Z.of_nat (length l)) n); [discriminate|].
  intros _. lia.
Qed.

Lemma parse_oneline_assembled (Inst_table : gmap string InstructionDesc)
    (vm : IcebergVM) (line : string) (program program' : list instruction) :
  Forall (assembled Inst_table) program ->
  parse_oneline Inst_table vm line program = Ok program' ->
  Forall (assembled Inst_table) program' /\
  (length program' <= S (length program))%nat.
Proof.
  intros Hp. unfold parse_oneline, compile_error.
  destruct (lacks " " line).
  - destruct (Inst_table !! line) as [d|] eqn:Hd.
    + intros H. apply bind_Ok in H. destruct H as (u & Hu & H).
      injection H as <-. apply chk_nargs_Ok in Hu. split.
      * apply Forall_app. split; [exact Hp|]. apply Forall_cons.
        split; [|constructor]. left. split; [|constructor].
        exists d. simpl. auto.
      * rewrite length_app. simpl. lia.
    + destruct (begins_with "@" line) eqn:Hat.
      * intros [= <-]. split.
        -- apply Forall_app. split; [exact Hp|]. apply Forall_cons.
           split; [|constructor]. right. simpl. auto.
        -- rewrite length_app. simpl. lia.
      * destruct (negb _); [discriminate|]. intros [= <-]. split; [exact Hp | lia].
  - destruct (SplitN2 " " line) as [instr operands].
    destruct (Inst_table !! instr) as [d|] eqn:Hd.
    + intros H. apply bind_Ok in H. destruct H as (l & Hl & H).
      apply bind_Ok in H. destruct H as (u & Hu & H).
      injection H as <-. apply chk_nargs_Ok in Hu.
      apply parse_args_classified in Hl. split.
      * apply Forall_app. split; [exact Hp|]. apply Forall_cons.
        split; [|constructor]. left. split; [|exact Hl].
        exists d. simpl. auto.
      * rewrite length_app. simpl. lia.
    + destruct (begins_with "@" instr); discriminate.
Qed.

Lemma parse_lines_assembled (Inst_table : gmap string InstructionDesc)
    (lines : list string) :
  forall (i : Z) (vm vm' : IcebergVM) (program program' : list instruction),
    Forall (assembled Inst_table) program ->
    parse_lines Inst_table i lines vm program = Ok (vm', program') ->
    Forall (assembled Inst_table) program' /\
    (length program' <= length program + length lines)%nat.
Proof.
  induction lines as [|line lines IH]; intros i vm vm' program program' Hp H;
    simpl in H.
  - injection H as _ <-. split; [exact Hp | lia].
  - apply bind_Ok in H. destruct H as (p1 & H1 & H).
    apply parse_oneline_assembled in H1; [|exact Hp]. destruct H1 as [Hp1 Hl1].
    apply IH in H; [|exact Hp1]. destruct H as [Hp' Hl']. split; [exact Hp'|].
    simpl. lia.
Qed.

Lemma set_labels_from_fst (rest : list instruction) :
  forall (pre : list instruction) (labels : gmap string Z),
    (set_labels_from (length pre) rest (pre ++ rest) labels).1 =
      pre ++ map relabel rest.
Proof.
  induction rest as [|instr rest IH]; intros pre labels; simpl; [reflexivity|].
  unfold relabel at 1.
  destruct (begins_with "@" (Inst instr)).
  - rewrite alter_app_r_alt by lia. rewrite Nat.sub_diag. simpl.
    rewrite (cons_middle (as_nop instr)), app_assoc.
    replace (S (length pre)) with (length (pre ++ [as_nop instr]))
      by (rewrite length_app; simpl; lia).
    rewrite IH, <- app_assoc. reflexivity.
  - rewrite (cons_middle instr pre rest), app_assoc.
    replace (S (length pre)) with (length (pre ++ [instr]))
      by (rewrite length_app; simpl; lia).
    rewrite IH, <- app_assoc. reflexivity.
Qed.

(** [set_labels] rewrites the mnemonics of the label lines and nothing
    else. *)
Lemma set_labels_fst (program : list instruction) :
  (set_labels program).1 = map relabel program.
Proof. apply (set_labels_from_fst program []). Qed.

Lemma relabel_known (Inst_table : gmap string InstructionDesc)
    (instr : instruction) :
  plain_table Inst_table -> assembled Inst_table instr ->
  known_instruction Inst_table (relabel instr).
Proof.
  intros [(dn & Hn & Hn0) Hplain] [Hk | (Hnone & Hat & Hargs)]; unfold relabel.
  - destruct Hk as [(d & Hd & Hlen) Hcl].
    rewrite (Hplain _ _ Hd). split; eauto.
  - rewrite Hat. split; simpl; [|rewrite Hargs; constructor].
    exists dn. rewrite Hargs. simpl. auto.
Qed.

Lemma Split_length (sep : ascii) (s : string) :
  (length (Split sep s) <= S (String.length s))%nat.
Proof.
  induction s as [|c r IH]; simpl; [lia|].
  destruct (Ascii.eqb c sep); simpl; [lia|].
  destruct (Split sep r); simpl in *; lia.
Qed.

Lemma Gen_bytecode_known (Inst_table : gmap string InstructionDesc)
    (vm vm' : IcebergVM) (script : string) (code : Bytecode) :
  plain_table Inst_table ->
  Gen_bytecode Inst_table vm script = Ok (vm', code) ->
  Forall (known_instruction Inst_table) (inst_list code) /\
  (length (inst_list code) <= length (Split "010" script))%nat.
Proof.
  intros Hplain H.
  unfold Gen_bytecode, parse_script in H.
  apply bind_Ok in H. destruct H as ([vm1 [program labels]] & H1 & H).
  injection H as _ <-. simpl in *.
  apply bind_Ok in H1. destruct H1 as ([vm2 program0] & H2 & H1).
  injection H1 as _ Hset.
  apply parse_lines_assembled in H2; [|constructor]. destruct H2 as [Hasm Hl].
  pose proof (set_labels_fst program0) as Hfst. rewrite Hset in Hfst.
  simpl in Hfst. subst program. split.
  - apply Forall_map. eapply Forall_impl; [exact Hasm|].
    intros instr. apply relabel_known. exact Hplain.
  - rewrite length_map. simpl in Hl. lia.
Qed.

Lemma Gen_bytecode_well_formed (Inst_table : gmap string InstructionDesc)
    (vm vm' : IcebergVM) (script : string) (code : Bytecode) :
  plain_table Inst_table ->
  Z.of_nat (String.length script) < MaxInt64 ->
  Gen_bytecode Inst_table vm script = Ok (vm', code) ->
  well_formed Inst_table code.
Proof.
  intros Hplain Hlen H.
  destruct (Gen_bytecode_known _ _ _ _ _ Hplain H) as [Hk Hl].
  split; [exact Hk|]. split.
  - intros L i. apply (Gen_bytecode_labels_in_range _ _ _ _ _ L i H).
  - pose proof (Split_length "010" script). lia.
Qed.

(** X10.  In a table that has [nop] for no operand and no mnemonic that
    begins with [@], every instruction of a compiled program has a handler
    in the table, carries exactly the number of operands the table gives
    for its mnemonic, and all its operands come from the classifier.  So
    the loop of [Run] never calls a nil handler. *)
Theorem compiled_instructions_match_the_table
    (Inst_table : gmap string InstructionDesc) (vm vm' : IcebergVM)
    (script : string) (code : Bytecode) (instr : instruction) :
  plain_table Inst_table ->
  Gen_bytecode Inst_table vm script = Ok (vm', code) ->
  instr ∈ inst_list code ->
  (exists d, Inst_table !! Inst instr = Some d /\
             N_args d = Z.of_nat (length (Args instr))) /\
  Forall classified (Args instr).
Proof.
  intros Hplain H Hin.
  destruct (Gen_bytecode_known _ _ _ _ _ Hplain H) as [Hk _].
  rewrite Forall_forall in Hk. exact (Hk instr Hin).
Qed.

Lemma goto_in_loop_code :
  {| Inst := "goto"; Args := [lit_label "@loop"] |} ∈ inst_list loop_code.
Proof. simpl. set_solver. Qed.

Lemma compiled_instructions_match_the_table_witness :
  plain_table (Init pow_unused) /\
  Gen_bytecode (Init pow_unused) Init_vm loop_script =
    Ok (set_exec_pos 3 Init_vm, loop_code) /\
  (exists d, Init pow_unused !! "goto" = Some d /\ N_args d = 1) /\
  Forall classified [lit_label "@loop"].
Proof.
  assert (H1 : Gen_bytecode (Init pow_unused) Init_vm loop_script =
               Ok (set_exec_pos 3 Init_vm, loop_code))
    by (vm_compute; reflexivity).
  split; [exact (Init_plain pow_unused)|]. split; [exact H1|].
  exact (compiled_instructions_match_the_table (Init pow_unused) Init_vm
           (set_exec_pos 3 Init_vm) loop_script loop_code
           {| Inst := "goto"; Args := [lit_label "@loop"] |}
           (Init_plain pow_unused) H1 goto_in_loop_code).
Defined.

(** ** Runs of compiled scripts *)

Lemma Gen_bytecode_vm (Inst_table : gmap string InstructionDesc)
    (vm vm' : IcebergVM) (script : string) (code : Bytecode) :
  Gen_bytecode Inst_table vm script = Ok (vm', code) ->
  vm' = set_exec_pos (Z.of_nat (length (Split "010" script)) - 1) vm.
Proof.
  unfold Gen_bytecode, parse_script. intros H.
  apply bind_Ok in H. destruct H as ([vm1 [program labels]] & H1 & H).
  injection H as <- _.
  apply bind_Ok in H1. destruct H1 as ([vm2 program0] & H2 & H1).
  injection H1 as <- _.
  assert (Hgen : forall lines i vm vm2 p p',
            parse_lines Inst_table i lines vm p = Ok (vm2, p') ->
            vm2 = match lines with
                  | [] => vm
                  | _ => set_exec_pos (i + Z.of_nat (length lines) - 1) vm
                  end).
  { induction lines as [|line lines IH]; intros i v v2 p p' Hp; simpl in Hp.
    - injection Hp as <- _. reflexivity.
    - apply bind_Ok in Hp. destruct Hp as (p1 & _ & Hp).
      apply IH in Hp. subst v2. destruct lines as [|l ls].
      + simpl. f_equal. lia.
      + unfold set_exec_pos. simpl. f_equal. lia. }
  apply Hgen in H2. subst vm2.
  destruct (Split "010" script) eqn:Hs.
  - destruct script as [|c r]; simpl in Hs; [discriminate|].
    destruct (Ascii.eqb c "010"); [discriminate|].
    destruct (Split "010" r); discriminate.
  - reflexivity.
Qed.

Lemma Gen_bytecode_values_stored (Inst_table : gmap string InstructionDesc)
    (vm vm' : IcebergVM) (script : string) (code : Bytecode) :
  values_stored vm ->
  Gen_bytecode Inst_table vm script = Ok (vm', code) ->
  values_stored vm'.
Proof. intros Hst H. apply Gen_bytecode_vm in H. subst vm'. exact Hst. Qed.

Lemma run_script_wp (math_Pow : float64 -> float64 -> float64)
    (fuel : nat) (script : string) (r : Result IcebergVM) :
  Z.of_nat (String.length script) < MaxInt64 ->
  run_script (start math_Pow) fuel script = Ok (Some r) ->
  wp (stops_within (Z.of_nat (length (Split "010" script)))) r values_stored.
Proof.
  intros Hlen H. unfold run_script in H.
  apply bind_Ok in H. destruct H as ([vm code] & Hg & H). injection H as H.
  pose proof (Gen_bytecode_well_formed _ _ _ _ _ (start_plain math_Pow) Hlen Hg)
    as Hwf.
  pose proof (Gen_bytecode_values_stored _ _ _ _ _ Init_vm_values_stored Hg)
    as Hst.
  pose proof (Run_loop_wp _ _ (start_well_behaved math_Pow) Hwf fuel _ r
                (Run_enter_running code vm Hst) H) as Hr.
  destruct (Gen_bytecode_known _ _ _ _ _ (start_plain math_Pow) Hg) as [_ Hl].
  destruct r as [vm'|f]; simpl in *.
  - destruct Hr as [[Hs _] _]. exact Hs.
  - destruct Hr as [(pos & message & -> & Hp) | ->]; [left | right; reflexivity].
    eexists _, _. split; [reflexivity | lia].
Qed.

(** X11.  A script compiled and run on a fresh VM with the table of
    [start] stops abnormally only with a runtime diagnostic, whose
    instruction number is below the number of lines of the script, or with
    the division by zero of [mod]: the loop never fetches outside the
    program, never calls a missing handler, and no handler panics in
    another way. *)
Theorem compiled_script_stops_only_as_written
    (math_Pow : float64 -> float64 -> float64)
    (fuel : nat) (script : string) (f : Failure) :
  Z.of_nat (String.length script) < MaxInt64 ->
  run_script (start math_Pow) fuel script = Ok (Some (Fail f)) ->
  (exists pos message,
     f = RuntimeError pos message /\
     0 <= pos < Z.of_nat (length (Split "010" script))) \/
  f = GoPanic "runtime error: integer divide by zero".
Proof. intros Hlen H. exact (run_script_wp math_Pow fuel script _ Hlen H). Qed.

Lemma compiled_script_stops_only_as_written_witness :
  Z.of_nat (String.length "mod 1.0, 0.5, r") < MaxInt64 /\
  run_script (start pow_unused) 1 "mod 1.0, 0.5, r" =
    Ok (Some (Fail (GoPanic "runtime error: integer divide by zero"))) /\
  ((exists pos message,
      GoPanic "runtime error: integer divide by zero" =
        RuntimeError pos message /\
      0 <= pos < Z.of_nat (length (Split "010" "mod 1.0, 0.5, r"))) \/
   GoPanic "runtime error: integer divide by zero" =
     GoPanic "runtime error: integer divide by zero").
Proof.
  assert (H1 : Z.of_nat (String.length "mod 1.0, 0.5, r") < MaxInt64)
    by (vm_compute; reflexivity).
  assert (H2 : run_script (start pow_unused) 1 "mod 1.0, 0.5, r" =
               Ok (Some (Fail (GoPanic "runtime error: integer divide by zero"))))
    by (vm_compute; reflexivity).
  split; [exact H1|]. split; [exact H2|].
  exact (compiled_script_stops_only_as_written pow_unused 1 "mod 1.0, 0.5, r"
           _ H1 H2).
Defined.

(** X12.  After a run that ends normally every variable holds an INT, a
    FLOAT, a BOOL or a STR, never a symbol: [Get_argument] on a bound
    symbol makes one recursive call and decodes the stored value. *)
Theorem variables_after_a_run_resolve_in_one_step
    (math_Pow : float64 -> float64 -> float64)
    (fuel : nat) (script : string) (vm : IcebergVM)
    (name : string) (e : Entity) (type_mask : Z) :
  Z.of_nat (String.length script) < MaxInt64 ->
  run_script (start math_Pow) fuel script = Ok (Some (Ok vm)) ->
  var_table vm !! name = Some e ->
  (E_type e = T_INT \/ E_type e = T_FLOAT \/ E_type e = T_BOOL \/
   E_type e = T_STR) /\
  Get_argument vm (sym name) type_mask = decode vm e type_mask.
Proof.
  intros Hlen H Hl.
  pose proof (run_script_wp math_Pow fuel script _ Hlen H) as Hst. simpl in Hst.
  split; [exact (Hst _ _ Hl) | apply Get_argument_one_indirection; assumption].
Qed.

Lemma variables_after_a_run_resolve_in_one_step_witness :
  Z.of_nat (String.length "let x, 3") < MaxInt64 /\
  run_script (start pow_unused) 1 "let x, 3" = Ok (Some (Ok vm_after_first)) /\
  var_table vm_after_first !! "x" = Some (lit_int 3) /\
  (E_type (lit_int 3) = T_INT \/ E_type (lit_int 3) = T_FLOAT \/
   E_type (lit_int 3) = T_BOOL \/ E_type (lit_int 3) = T_STR) /\
  Get_argument vm_after_first (sym "x") T_ANY =
    decode vm_after_first (lit_int 3) T_ANY.
Proof.
  assert (H1 : Z.of_nat (String.length "let x, 3") < MaxInt64)
    by (vm_compute; reflexivity).
  assert (H2 : run_script (start pow_unused) 1 "let x, 3" =
               Ok (Some (Ok vm_after_first))) by (vm_compute; reflexivity).
  assert (H3 : var_table vm_after_first !! "x" = Some (lit_int 3))
    by reflexivity.
  split; [exact H1|]. split; [exact H2|]. split; [exact H3|].
  exact (variables_after_a_run_resolve_in_one_step pow_unused 1 "let x, 3"
           vm_after_first "x" (lit_int 3) T_ANY H1 H2 H3).
Defined.

(** ** Straight-line code *)
Lemma Assign_var_pc (vm vm' : IcebergVM) (symbol : string) (value : scalar) :
  Assign_var vm symbol value = Ok vm' -> exec_pos vm' = exec_pos vm.
Proof.
  intros H. apply Assign_var_Ok in H. destruct H as (source & _ & -> & _).
  reflexivity.
Qed.

Lemma warned_pc (vm vm2 vm' : IcebergVM) (symbol : string) (value : scalar) :
  vm2 = vm \/ (exists message, vm2 = Runtime_warning vm message) ->
  Assign_var vm2 symbol value = Ok vm' ->
  exec_pos vm' = exec_pos vm.
Proof.
  intros Hvm H. apply Assign_var_pc in H.
  destruct Hvm as [-> | [message ->]]; exact H.
Qed.

Ltac cast_pc H Hcast :=
  eapply warned_pc; [|exact H];
  repeat match type of Hcast with
         | (if ?b then _ else _) = Ok _ => destruct b
         | match ?x with _ => _ end = Ok _ => destruct x
         end;
  try discriminate Hcast; injection Hcast as <- _; eauto.

Lemma inst_nop_keeps_pc : keeps_pc inst_nop.
Proof. intros args vm vm' [= <-]. reflexivity. Qed.

Lemma inst_let_keeps_pc : keeps_pc inst_let.
Proof.
  intros args vm vm' H. unfold inst_let in H. peel 4 H.
  apply Assign_var_pc in H. exact H.
Qed.

Lemma arb_calc_keeps_pc (math_Pow : float64 -> float64 -> float64)
    (operator : string) :
  keeps_pc (fun args => arb_calc math_Pow args operator).
Proof.
  intros args vm vm' H. unfold arb_calc in H. peel 8 H.
  apply Assign_var_pc in H. exact H.
Qed.

Lemma inst_cmp_keeps_pc : keeps_pc inst_cmp.
Proof.
  intros args vm vm' H. unfold inst_cmp in H. peel 9 H.
  apply Assign_var_pc in H. exact H.
Qed.

Lemma arb_bool_keeps_pc (operator : string) :
  keeps_pc (fun args => arb_bool args operator).
Proof.
  intros args vm vm' H. unfold arb_bool in H. peel 7 H.
  apply Assign_var_pc in H. exact H.
Qed.

Lemma inst_not_keeps_pc : keeps_pc inst_not.
Proof.
  intros args vm vm' H. unfold inst_not in H. peel 4 H.
  destruct s; try discriminate H. apply Assign_var_pc in H. exact H.
Qed.

Lemma inst_int_keeps_pc : keeps_pc inst_int.
Proof.
  intros args vm vm' H. unfold inst_int in H.
  inv_bind H. inv_bind H. destruct a0 as [operand type_o]. simpl in H.
  inv_bind H. destruct a0 as [vm2 source]. rename Ha1 into Hcast. simpl in H.
  inv_bind H. inv_bind H.
  cast_pc H Hcast.
Qed.

Lemma inst_float_keeps_pc : keeps_pc inst_float.
Proof.
  intros args vm vm' H. unfold inst_float in H.
  inv_bind H. inv_bind H. destruct a0 as [operand type_o]. simpl in H.
  inv_bind H. destruct a0 as [vm2 source]. rename Ha1 into Hcast. simpl in H.
  inv_bind H. inv_bind H.
  cast_pc H Hcast.
Qed.

Lemma inst_bool_keeps_pc : keeps_pc inst_bool.
Proof.
  intros args vm vm' H. unfold inst_bool in H.
  inv_bind H. inv_bind H. destruct a0 as [operand type_o]. simpl in H.
  inv_bind H. destruct a0 as [vm2 source]. rename Ha1 into Hcast. simpl in H.
  inv_bind H. inv_bind H.
  cast_pc H Hcast.
Qed.

Lemma inst_str_keeps_pc : keeps_pc inst_str.
Proof.
  intros args vm vm' H. unfold inst_str in H.
  inv_bind H. inv_bind H. destruct a0 as [operand type_o]. simpl in H.
  inv_bind H. destruct a0 as [vm2 source]. rename Ha1 into Hcast. simpl in H.
  inv_bind H. inv_bind H.
  cast_pc H Hcast.
Qed.

Lemma inst_cat_keeps_pc : keeps_pc inst_cat.
Proof.
  intros args vm vm' H. unfold inst_cat in H. peel 6 H.
  destruct s; try discriminate H. destruct s0; try discriminate H.
  apply Assign_var_pc in H. exact H.
Qed.

Lemma inst_dump_keeps_pc : keeps_pc inst_dump.
Proof.
  intros args vm vm' H. unfold inst_dump in H. inv_bind H.
  injection H as <-. reflexivity.
Qed.

Lemma inst_print_keeps_pc : keeps_pc inst_print.
Proof.
  intros args vm vm' H. unfold inst_print in H. peel 2 H.
  destruct s; try discriminate H. injection H as <-. reflexivity.
Qed.

Create HintDb pc.
#[local] Hint Resolve inst_nop_keeps_pc inst_let_keeps_pc inst_cmp_keeps_pc
  inst_not_keeps_pc inst_int_keeps_pc inst_float_keeps_pc inst_bool_keeps_pc
  inst_str_keeps_pc inst_cat_keeps_pc inst_dump_keeps_pc inst_print_keeps_pc
  : pc.

Lemma start_jumps (math_Pow : float64 -> float64 -> float64) :
  jumps_by_goto_and_when (start math_Pow).
Proof.
  unfold jumps_by_goto_and_when, start, Init.
  repeat (apply map_Forall_insert_2;
          [first [ left; reflexivity
                 | right; left; reflexivity
                 | right; right; apply (arb_calc_keeps_pc math_Pow)
                 | right; right; apply arb_bool_keeps_pc
                 | right; right; solve [auto with pc] ] |]).
  apply map_Forall_empty.
Qed.

Lemma Run_step_straight (Inst_table : gmap string InstructionDesc)
    (code : Bytecode) (vm vm' : IcebergVM) :
  jumps_by_goto_and_when Inst_table -> straight_line code ->
  Z.of_nat (length (inst_list code)) <= MaxInt64 ->
  0 <= exec_pos vm ->
  Run_step Inst_table code vm = Ok vm' ->
  exec_pos vm' = exec_pos vm + 1.
Proof.
  intros HT Hsl Hmax H0 Hs. unfold Run_step in Hs. inv_bind Hs.
  pose proof (index_in_range _ _ _ Ha) as Hr.
  assert (Hin : a ∈ inst_list code).
  { unfold index in Ha. destruct (exec_pos vm <? 0); [discriminate Ha|].
    destruct (inst_list code !! Z.to_nat (exec_pos vm)) eqn:Hl; [|discriminate Ha].
    injection Ha as <-. eapply list_elem_of_lookup_2, Hl. }
  unfold straight_line in Hsl. rewrite Forall_forall in Hsl.
  destruct (Hsl a Hin) as [Hg Hw].
  destruct (Inst_table !! Inst a) as [d|] eqn:Hd; [|discriminate Hs].
  inv_bind Hs. injection Hs as <-. simpl.
  destruct (HT _ _ Hd) as [? | [? | Hpc]]; [contradiction | contradiction |].
  rewrite (Hpc _ _ _ Ha0).
  apply wrap64_small. unfold MinInt64, MaxInt64 in *. lia.
Qed.

Lemma straight_line_loop (Inst_table : gmap string InstructionDesc)
    (code : Bytecode) :
  jumps_by_goto_and_when Inst_table -> straight_line code ->
  Z.of_nat (length (inst_list code)) <= MaxInt64 ->
  forall (fuel : nat) (vm : IcebergVM),
    0 <= exec_pos vm ->
    Z.of_nat (length (inst_list code)) - exec_pos vm <= Z.of_nat fuel ->
    exists r, Run_loop fuel Inst_table code vm = Some r.
Proof.
  intros HT Hsl Hmax. induction fuel as [|fuel IH]; intros vm H0 Hf; simpl;
    destruct (Z.leb_spec (exec_pos vm) (Z.of_nat (length (inst_list code)) - 1))
      as [Hle|Hgt]; eauto; [lia|].
  destruct (Run_step Inst_table code vm) as [vm1|f] eqn:Hs; [|eauto].
  pose proof (Run_step_straight _ _ _ _ HT Hsl Hmax H0 Hs) as Hp.
  apply IH; lia.
Qed.

(** X13.  Only [goto] and [when] move the program counter.  A program
    without them, of any origin and on any VM, ends after at most one turn
    of the loop for each instruction: with that many turns [Run] has
    returned, normally or with a failure. *)
Theorem straight_line_code_halts
    (math_Pow : float64 -> float64 -> float64) (code : Bytecode)
    (vm : IcebergVM) :
  straight_line code ->
  Z.of_nat (length (inst_list code)) <= MaxInt64 ->
  exists r, Run (length (inst_list code)) (start math_Pow) code vm = Some r.
Proof.
  intros Hsl Hmax. unfold Run.
  apply (straight_line_loop _ _ (start_jumps math_Pow) Hsl Hmax); simpl; lia.
Qed.

Lemma first_code_straight : straight_line first_code.
Proof. repeat constructor; discriminate. Qed.

Lemma straight_line_code_halts_witness :
  straight_line first_code /\
  Z.of_nat (length (inst_list first_code)) <= MaxInt64 /\
  exists r,
    Run (length (inst_list first_code)) (start pow_unused) first_code Init_vm =
      Some r.
Proof.
  assert (H2 : Z.of_nat (length (inst_list first_code)) <= MaxInt64)
    by (vm_compute; discriminate).
  split; [exact first_code_straight|]. split; [exact H2|].
  exact (straight_line_code_halts pow_unused first_code Init_vm
           first_code_straight H2).
Defined.

(** ** How the assembler stops *)

Lemma emit_Fail (st : tokenizer) (f : Failure) :
  emit st = Fail f -> f = slice_panic.
Proof.
  unfold emit. destruct (conv_arg (buf st)) eqn:Hc; simpl; [discriminate|].
  intros [= <-]. eapply conv_arg_Fail, Hc.
Qed.

Lemma parse_args_step_Fail (vm : IcebergVM) (st : tokenizer) (c : Z)
    (f : Failure) :
  parse_args_step vm st c = Fail f ->
  compile_failure (exec_pos vm + 1) (exec_pos vm + 1) f.
Proof.
  unfold parse_args_step, compile_error, compile_failure.
  repeat match goal with
         | |- context [if ?b then _ else _] => destruct b
         end;
    try discriminate;
    try (intros [= <-]; left; eexists _, _; split; [reflexivity | lia]);
    intros H.
  - destruct (emit (push dquote st)) eqn:He; simpl in H; [discriminate|].
    injection H as <-. right. eapply emit_Fail, He.
  - destruct (emit (push squote st)) eqn:He; simpl in H; [discriminate|].
    injection H as <-. right. eapply emit_Fail, He.
  - right. eapply emit_Fail, H.
Qed.

Lemma parse_args_loop_Fail (vm : IcebergVM) (cs : list Z) :
  forall (st : tokenizer) (f : Failure),
    parse_args_loop vm st cs = Fail f ->
    compile_failure (exec_pos vm + 1) (exec_pos vm + 1) f.
Proof.
  induction cs as [|c cs IH]; intros st f H; simpl in H; [discriminate|].
  destruct (parse_args_step vm st c) as [st1|f1] eqn:Hs; simpl in H.
  - eapply IH, H.
  - injection H as <-. eapply parse_args_step_Fail, Hs.
Qed.

Lemma parse_args_Fail (vm : IcebergVM) (line : string) (f : Failure) :
  parse_args vm line = Fail f ->
  compile_failure (exec_pos vm + 1) (exec_pos vm + 1) f.
Proof.
  unfold parse_args. intros H.
  destruct (parse_args_loop vm tokenizer_start (runes line)) as [st|f1] eqn:Hl;
    simpl in H.
  2: { injection H as <-. eapply parse_args_loop_Fail, Hl. }
  destruct (if negb (Z.of_nat (length (buf st)) =? 0) then emit st else Ok st)
    as [st2|f2] eqn:He; simpl in H.
  2: { injection H as <-. destruct (negb _); [|discriminate He].
       right. eapply emit_Fail, He. }
  unfold compile_error in H.
  destruct (d_quote st2);
    [injection H as <-; left; eexists _, _; split; [reflexivity | lia]|].
  destruct (s_quote st2);
    [injection H as <-; left; eexists _, _; split; [reflexivity | lia]|].
  discriminate H.
Qed.

Lemma chk_nargs_Fail (vm : IcebergVM) (l : list Entity) (n : Z) (f : Failure) :
  chk_nargs vm l n = Fail f ->
  compile_failure (exec_pos vm + 1) (exec_pos vm + 1) f.
Proof.
  unfold chk_nargs, compile_error.
  destruct (_ <? _); [intros [= <-]; left; eexists _, _; split; [reflexivity | lia]|].
  destruct (_ <? _); [intros [= <-]; left; eexists _, _; split; [reflexivity | lia]|].
  discriminate.
Qed.

Lemma parse_oneline_Fail (Inst_table : gmap string InstructionDesc)
    (vm : IcebergVM) (line : string) (program : list instruction) (f : Failure) :
  parse_oneline Inst_table vm line program = Fail f ->
  compile_failure (exec_pos vm + 1) (exec_pos vm + 1) f.
Proof.
  unfold parse_oneline.
  destruct (lacks " " line).
  - destruct (Inst_table !! line) as [d|].
    + destruct (chk_nargs vm [] (N_args d)) eqn:Hc; simpl; [discriminate|].
      intros [= <-]. eapply chk_nargs_Fail, Hc.
    + destruct (begins_with "@" line); [discriminate|].
      destruct (negb _); [|discriminate].
      intros [= <-]. left. eexists _, _. split; [reflexivity | lia].
  - destruct (SplitN2 " " line) as [instr operands].
    destruct (Inst_table !! instr) as [d|].
    + destruct (parse_args vm operands) as [l|f1] eqn:Hp; simpl.
      * destruct (chk_nargs vm l (N_args d)) eqn:Hc; simpl; [discriminate|].
        intros [= <-]. eapply chk_nargs_Fail, Hc.
      * intros [= <-]. eapply parse_args_Fail, Hp.
    + destruct (begins_with "@" instr); intros [= <-]; left; eexists _, _;
        (split; [reflexivity | lia]).
Qed.

Lemma parse_lines_Fail (Inst_table : gmap string InstructionDesc)
    (lines : list string) :
  forall (i : Z) (vm : IcebergVM) (program : list instruction) (f : Failure),
    parse_lines Inst_table i lines vm program = Fail f ->
    compile_failure (i + 1) (i + Z.of_nat (length lines)) f.
Proof.
  induction lines as [|line lines IH]; intros i vm program f H; simpl in H;
    [discriminate|].
  destruct (parse_oneline _ _ _ _) as [p1|f1] eqn:Ho; simpl in H.
  - apply IH in H. destruct H as [(l & m & -> & Hr) | ->]; [left|right; reflexivity].
    eexists _, _. split; [reflexivity|]. simpl length. lia.
  - injection H as <-. apply parse_oneline_Fail in Ho. simpl in Ho.
    destruct Ho as [(l & m & -> & Hr) | ->]; [left|right; reflexivity].
    eexists _, _. split; [reflexivity|]. simpl length. lia.
Qed.

(** X14.  [Gen_bytecode] stops only with a compile error, whose line
    number counts from one and is at most the number of lines of the
    script, or with the panic of the classifier on a token that is one
    quote; it never raises a runtime error. *)
Theorem assembler_stops_on_a_line_of_the_script
    (Inst_table : gmap string InstructionDesc) (vm : IcebergVM)
    (script : string) (f : Failure) :
  Gen_bytecode Inst_table vm script = Fail f ->
  (exists line message,
     f = CompileError line message /\
     1 <= line <= Z.of_nat (length (Split "010" script))) \/
  f = GoPanic "runtime error: slice bounds out of range".
Proof.
  unfold Gen_bytecode, parse_script. intros H.
  destruct (parse_lines Inst_table 0 (Split "010" script) vm [])
    as [[vm1 program]|f1] eqn:Hp; simpl in H.
  { destruct (set_labels program); discriminate H. }
  injection H as <-. apply parse_lines_Fail in Hp. exact Hp.
Qed.

Lemma assembler_stops_on_a_line_of_the_script_witness :
  Gen_bytecode (Init pow_unused) Init_vm "foo" =
    Fail (CompileError 1 "Syntax ERROR: Unknown instruction foo") /\
  ((exists line message,
      CompileError 1 "Syntax ERROR: Unknown instruction foo" =
        CompileError line message /\
      1 <= line <= Z.of_nat (length (Split "010" "foo"))) \/
   CompileError 1 "Syntax ERROR: Unknown instruction foo" =
     GoPanic "runtime error: slice bounds out of range").
Proof.
  assert (H1 : Gen_bytecode (Init pow_unused) Init_vm "foo" =
               Fail (CompileError 1 "Syntax ERROR: Unknown instruction foo"))
    by (vm_compute; reflexivity).
  split; [exact H1|].
  exact (assembler_stops_on_a_line_of_the_script (Init pow_unused) Init_vm
           "foo" _ H1).
Defined.

(** X15.  A successful [Gen_bytecode] changes nothing of the VM but
    [exec_pos], which it leaves at the index of the last line of the
    script, the number of its lines minus one: variables, labels and
    output are as before. *)
Theorem assembler_moves_only_the_line_counter
    (Inst_table : gmap string InstructionDesc) (vm vm' : IcebergVM)
    (script : string) (code : Bytecode) :
  Gen_bytecode Inst_table vm script = Ok (vm', code) ->
  vm' = {| exec_pos := Z.of_nat (length (Split "010" script)) - 1;
           label_table := label_table vm; var_table := var_table vm;
           stdout := stdout vm |}.
Proof. intros H. rewrite (Gen_bytecode_vm _ _ _ _ _ H). reflexivity. Qed.

Lemma assembler_moves_only_the_line_counter_witness :
  Gen_bytecode (Init pow_unused) vm_after_first loop_script =
    Ok ({| exec_pos := 3; label_table := ∅;
           var_table := {[ "x" := lit_int 3 ]}; stdout := [] |}, loop_code) /\
  {| exec_pos := 3; label_table := ∅;
     var_table := {[ "x" := lit_int 3 ]}; stdout := [] |} =
  {| exec_pos := Z.of_nat (length (Split "010" loop_script)) - 1;
     label_table := label_table vm_after_first;
     var_table := var_table vm_after_first;
     stdout := stdout vm_after_first |}.
Proof.
  assert (H1 : Gen_bytecode (Init pow_unused) vm_after_first loop_script =
               Ok ({| exec_pos := 3; label_table := ∅;
                      var_table := {[ "x" := lit_int 3 ]}; stdout := [] |},
                   loop_code))
    by (vm_compute; reflexivity).
  split; [exact H1|].
  exact (assembler_moves_only_the_line_counter (Init pow_unused) vm_after_first
           _ loop_script loop_code H1).
Defined.

(** X16.  An operand text whose last character is a quote that opens a
    token (the tokenizer is outside quotes with an empty buffer when it
    reads it) is not reported as a missing quote: the buffer, that one
    quote, is handed to the classifier, which panics on its slice.
    [print] followed by one double quote is such a line. *)
Theorem opening_quote_at_end_of_line_panics
    (vm : IcebergVM) (line : string) (cs : list Z) (st : tokenizer) (q : ascii) :
  is_quote q ->
  runes line = cs ++ [rune q] ->
  parse_args_loop vm tokenizer_start cs = Ok st ->
  d_quote st = false -> s_quote st = false -> buf st = [] ->
  parse_args vm line = Fail (GoPanic "runtime error: slice bounds out of range").
Proof.
  intros Hq Hr Hl Hd Hs Hb. unfold parse_args.
  rewrite Hr, parse_args_loop_app, Hl. cbn [mbind Result_bind parse_args_loop].
  destruct (open_quote_on_empty vm st Hd Hs Hb) as [Hod Hos].
  destruct Hq as [-> | ->].
  - rewrite Hod. cbn [mbind Result_bind]. unfold emit, push, set_quotes. simpl.
    rewrite Hb. reflexivity.
  - rewrite Hos. cbn [mbind Result_bind]. unfold emit, push, set_quotes. simpl.
    rewrite Hb. reflexivity.
Qed.

Lemma opening_quote_at_end_of_line_panics_witness :
  is_quote dquote /\
  runes lone_dquote = [] ++ [rune dquote] /\
  parse_args_loop Init_vm tokenizer_start [] = Ok tokenizer_start /\
  parse_args Init_vm lone_dquote =
    Fail (GoPanic "runtime error: slice bounds out of range").
Proof.
  assert (H1 : is_quote dquote) by (left; reflexivity).
  assert (H2 : runes lone_dquote = [] ++ [rune dquote]) by reflexivity.
  assert (H3 : parse_args_loop Init_vm tokenizer_start [] = Ok tokenizer_start)
    by reflexivity.
  split; [exact H1|]. split; [exact H2|]. split; [exact H3|].
  exact (opening_quote_at_end_of_line_panics Init_vm lone_dquote []
           tokenizer_start dquote H1 H2 H3 eq_refl eq_refl eq_refl).
Defined.

(** ** The label table, and [when] *)

Lemma set_labels_from_app (xs : list instruction) :
  forall (ys : list instruction) (i : nat) (np : list instruction)
         (labels : gmap string Z),
    set_labels_from i (xs ++ ys) np labels =
      set_labels_from (i + length xs) ys
        (set_labels_from i xs np labels).1 (set_labels_from i xs np labels).2.
Proof.
  induction xs as [|x xs IH]; intros ys i np labels; simpl.
  - rewrite Nat.add_0_r. reflexivity.
  - destruct (begins_with "@" (Inst x)); rewrite IH; simpl;
      rewrite Nat.add_succ_r; reflexivity.
Qed.

Lemma set_labels_from_other (L : string) (rest : list instruction) :
  forall (i : nat) (np : list instruction) (labels : gmap string Z),
    Forall (fun instr => Inst instr <> L) rest ->
    (set_labels_from i rest np labels).2 !! L = labels !! L.
Proof.
  induction rest as [|instr rest IH]; intros i np labels Hne; simpl;
    [reflexivity|].
  apply Forall_cons in Hne. destruct Hne as [Hi Hne].
  destruct (begins_with "@" (Inst instr)); rewrite IH by exact Hne;
    [apply lookup_insert_ne; exact Hi | reflexivity].
Qed.

(** X17.  A label defined more than once points at its last definition:
    for a label line at index [length before] that no later line repeats,
    the table holds that index, whatever comes before it. *)
Theorem last_definition_of_a_label_wins
    (before after : list instruction) (L : string) (operands : list Entity) :
  begins_with "@" L = true ->
  Forall (fun instr => Inst instr <> L) after ->
  (set_labels (before ++ {| Inst := L; Args := operands |} :: after)).2 !! L =
    Some (Z.of_nat (length before)).
Proof.
  intros Hat Hne. unfold set_labels. rewrite set_labels_from_app. simpl.
  rewrite Hat. rewrite set_labels_from_other by exact Hne.
  apply lookup_insert_eq.
Qed.

Lemma plain_nop_is_not_label_a :
  Forall (fun instr => Inst instr <> "@a") [plain_nop].
Proof. repeat constructor; discriminate. Qed.

Lemma last_definition_of_a_label_wins_witness :
  begins_with "@" "@a" = true /\
  (set_labels ([label_a; plain_nop] ++
               {| Inst := "@a"; Args := [] |} :: [plain_nop])).2 !! "@a" =
    Some (Z.of_nat (length [label_a; plain_nop])).
Proof.
  assert (H1 : begins_with "@" "@a" = true) by reflexivity.
  split; [exact H1|].
  exact (last_definition_of_a_label_wins [label_a; plain_nop] [plain_nop]
           "@a" [] H1 plain_nop_is_not_label_a).
Defined.

(** X18.  The label table holds nothing but the label lines of the
    program: an entry is the index of an instruction whose mnemonic was
    that label, and the label begins with [@]. *)
Theorem only_label_lines_enter_the_table
    (program : list instruction) (L : string) (i : Z) :
  (set_labels program).2 !! L = Some i ->
  begins_with "@" L = true /\
  exists instr, program !! Z.to_nat i = Some instr /\ Inst instr = L /\ 0 <= i.
Proof.
  unfold set_labels.
  assert (Hgen : forall rest k np labels,
            (set_labels_from k rest np labels).2 !! L = Some i ->
            labels !! L = Some i \/
            (begins_with "@" L = true /\
             exists instr, rest !! (Z.to_nat i - k)%nat = Some instr /\
                           Inst instr = L /\ Z.of_nat k <= i)).
  { induction rest as [|instr rest IH]; intros k np labels H; simpl in H;
      [left; exact H|].
    destruct (begins_with "@" (Inst instr)) eqn:Hat.
    - apply IH in H. destruct H as [H | (Hb & x & Hx & Hi & Hk)].
      + destruct (decide (Inst instr = L)) as [He|Hn].
        * rewrite He, lookup_insert_eq in H. injection H as <-.
          right. rewrite <- He. split; [exact Hat|]. exists instr.
          rewrite Nat2Z.id, Nat.sub_diag. simpl. split; [reflexivity|].
          split; [reflexivity | lia].
        * rewrite lookup_insert_ne in H by exact Hn. left. exact H.
      + right. split; [exact Hb|]. exists x.
        replace (Z.to_nat i - k)%nat with (S (Z.to_nat i - S k)) by lia.
        simpl. split; [exact Hx|]. split; [exact Hi | lia].
    - apply IH in H. destruct H as [H | (Hb & x & Hx & Hi & Hk)]; [left; exact H|].
      right. split; [exact Hb|]. exists x.
      replace (Z.to_nat i - k)%nat with (S (Z.to_nat i - S k)) by lia.
      simpl. split; [exact Hx|]. split; [exact Hi | lia]. }
  intros H. apply Hgen in H. destruct H as [H | (Hb & x & Hx & Hi & Hk)].
  - rewrite lookup_empty in H. discriminate H.
  - split; [exact Hb|]. exists x. rewrite Nat.sub_0_r in Hx. auto with lia.
Qed.

Lemma only_label_lines_enter_the_table_witness :
  (set_labels [plain_nop; label_a]).2 !! "@a" = Some 1 /\
  begins_with "@" "@a" = true /\
  exists instr,
    [plain_nop; label_a] !! Z.to_nat 1 = Some instr /\
    Inst instr = "@a" /\ 0 <= 1.
Proof.
  assert (H1 : (set_labels [plain_nop; label_a]).2 !! "@a" = Some 1)
    by (vm_compute; reflexivity).
  split; [exact H1|].
  exact (only_label_lines_enter_the_table [plain_nop; label_a] "@a" 1 H1).
Defined.

(** X19.  The program [set_labels] returns is the program it was given
    with the mnemonic of every label line replaced by [nop]: same length,
    same order, same operands. *)
Theorem set_labels_renames_the_label_lines (program : list instruction) :
  (set_labels program).1 =
    map (fun instr => if begins_with "@" (Inst instr)
                      then {| Inst := "nop"; Args := Args instr |}
                      else instr) program.
Proof. apply set_labels_fst. Qed.

(** X20.  A turn of the loop on [when cond, @L] with [@L] in the label
    table: when the condition is true [exec_pos] becomes the index of the
    label plus one, when it is false the index of the [when] plus one;
    nothing else of the VM changes. *)
Theorem when_branches_on_its_condition
    (Inst_table : gmap string InstructionDesc) (code : Bytecode)
    (vm : IcebergVM) (cond : Entity) (L : string) (b : bool) (type_c : Z)
    (prog_idx : Z) :
  Inst_table !! "when" = Some (desc inst_when 2) ->
  index (inst_list code) (exec_pos vm) =
    Ok {| Inst := "when"; Args := [cond; lit_label L] |} ->
  Get_argument vm cond T_BOOL = Ok (VBool b, type_c) ->
  label_table vm !! L = Some prog_idx ->
  MinInt64 <= prog_idx < MaxInt64 ->
  exec_pos vm < MaxInt64 ->
  Run_step Inst_table code vm =
    Ok {| exec_pos := (if b then prog_idx else exec_pos vm) + 1;
          label_table := label_table vm; var_table := var_table vm;
          stdout := stdout vm |}.
Proof.
  intros Htab Hfetch Hc Hl Hr Hmax. unfold Run_step. rewrite Hfetch. simpl.
  rewrite Htab. simpl. rewrite (inst_when_resolved vm cond L b type_c Hc), Hl.
  simpl. pose proof (index_in_range _ _ _ Hfetch) as Hpos.
  destruct b; simpl; rewrite wrap64_small
    by (unfold MinInt64, MaxInt64 in *; lia); reflexivity.
Qed.

Lemma when_branches_on_its_condition_witness :
  (Init pow_unused !! "when" = Some (desc inst_when 2) /\
   index (inst_list when_code) (exec_pos vm_at_when) =
     Ok {| Inst := "when"; Args := [lit_bool true; lit_label "@top"] |} /\
   Get_argument vm_at_when (lit_bool true) T_BOOL = Ok (VBool true, T_BOOL) /\
   label_table vm_at_when !! "@top" = Some 0 /\
   MinInt64 <= 0 < MaxInt64 /\
   exec_pos vm_at_when < MaxInt64 /\
   Run_step (Init pow_unused) when_code vm_at_when =
     Ok {| exec_pos := 1; label_table := {[ "@top" := 0 ]};
           var_table := ∅; stdout := [] |}) /\
  (index (inst_list when_code) (exec_pos vm_at_second_when) =
     Ok {| Inst := "when"; Args := [lit_bool false; lit_label "@top"] |} /\
   Get_argument vm_at_second_when (lit_bool false) T_BOOL =
     Ok (VBool false, T_BOOL) /\
   label_table vm_at_second_when !! "@top" = Some 0 /\
   exec_pos vm_at_second_when < MaxInt64 /\
   Run_step (Init pow_unused) when_code vm_at_second_when =
     Ok {| exec_pos := 4; label_table := {[ "@top" := 0 ]};
           var_table := ∅; stdout := [] |}).
Proof.
  assert (H1 : Init pow_unused !! "when" = Some (desc inst_when 2))
    by reflexivity.
  assert (H2 : index (inst_list when_code) (exec_pos vm_at_when) =
               Ok {| Inst := "when"; Args := [lit_bool true; lit_label "@top"] |})
    by reflexivity.
  assert (H3 : Get_argument vm_at_when (lit_bool true) T_BOOL =
               Ok (VBool true, T_BOOL)) by reflexivity.
  assert (H4 : label_table vm_at_when !! "@top" = Some 0) by reflexivity.
  assert (H5 : MinInt64 <= 0 < MaxInt64) by (unfold MinInt64, MaxInt64; lia).
  assert (H6 : exec_pos vm_at_when < MaxInt64) by (vm_compute; reflexivity).
  assert (H7 : index (inst_list when_code) (exec_pos vm_at_second_when) =
               Ok {| Inst := "when";
                     Args := [lit_bool false; lit_label "@top"] |})
    by reflexivity.
  assert (H8 : Get_argument vm_at_second_when (lit_bool false) T_BOOL =
               Ok (VBool false, T_BOOL)) by reflexivity.
  assert (H9 : label_table vm_at_second_when !! "@top" = Some 0)
    by reflexivity.
  assert (H10 : exec_pos vm_at_second_when < MaxInt64)
    by (vm_compute; reflexivity).
  split.
  - split; [exact H1|]. split; [exact H2|]. split; [exact H3|].
    split; [exact H4|]. split; [exact H5|]. split; [exact H6|].
    exact (when_branches_on_its_condition (Init pow_unused) when_code
             vm_at_when (lit_bool true) "@top" true T_BOOL 0
             H1 H2 H3 H4 H5 H6).
  - split; [exact H7|]. split; [exact H8|]. split; [exact H9|].
    split; [exact H10|].
    exact (when_branches_on_its_condition (Init pow_unused) when_code
             vm_at_second_when (lit_bool false) "@top" false T_BOOL 0
             H1 H7 H8 H9 H5 H10).
Defined.

(** ** Integers a float holds exactly *)

Lemma iter_pos_shr_1_exact (n : positive) :
  forall z w : Z,
    0 < w -> z = w * 2 ^ Zpos n ->
    @SpecFloat.iter_pos shr_record shr_1 n
      {| shr_m := z; shr_r := false; shr_s := false |} =
    {| shr_m := w; shr_r := false; shr_s := false |}.
Proof.
  assert (Hpow : forall q : positive, 0 < 2 ^ Zpos q)
    by (intros q; apply Z.pow_pos_nonneg; lia).
  assert (Hone : forall z w : Z, 0 < w -> z = w * 2 ->
            shr_1 {| shr_m := z; shr_r := false; shr_s := false |} =
            {| shr_m := w; shr_r := false; shr_s := false |}).
  { intros z w Hw ->. destruct w as [|p|p]; try lia.
    replace (Zpos p * 2) with (Zpos p~0) by lia. reflexivity. }
  induction n as [n IH|n IH|]; intros z w Hw Hz; cbn [SpecFloat.iter_pos].
  - pose proof (Hpow n).
    rewrite (Hone z (w * 2 ^ Zpos n * 2 ^ Zpos n)).
    + rewrite (IH _ (w * 2 ^ Zpos n)) by nia. apply IH; [exact Hw | reflexivity].
    + nia.
    + rewrite Hz, pow2_xI. lia.
  - pose proof (Hpow n).
    rewrite (IH z (w * 2 ^ Zpos n)).
    + apply IH; [exact Hw | reflexivity].
    + nia.
    + rewrite Hz, pow2_xO. lia.
  - apply Hone; [exact Hw|]. rewrite Hz. reflexivity.
Qed.

Lemma Zdigits2_bounds (z : Z) :
  0 < z -> 2 ^ (Zdigits2 z - 1) <= z < 2 ^ Zdigits2 z.
Proof. intros Hz. destruct z as [|p|p]; try lia. apply digits2_pos_bounds. Qed.

Lemma Zdigits2_pos (z : Z) : 0 < z -> 0 < Zdigits2 z.
Proof. intros Hz. destruct z as [|p|p]; try lia. simpl. lia. Qed.

Lemma Zdigits2_scaled (w k : Z) :
  0 < w -> 0 <= k -> Zdigits2 (w * 2 ^ k) = Zdigits2 w + k.
Proof.
  intros Hw Hk. pose proof (Zdigits2_bounds w Hw) as [Hlo Hhi].
  pose proof (Zdigits2_pos w Hw) as Hd.
  assert (Hp : 0 < 2 ^ k) by (apply Z.pow_pos_nonneg; lia).
  assert (H1 : 2 ^ (Zdigits2 w + k - 1) <= w * 2 ^ k).
  { replace (Zdigits2 w + k - 1) with (Zdigits2 w - 1 + k) by lia.
    rewrite Z.pow_add_r by lia. nia. }
  assert (H2 : w * 2 ^ k < 2 ^ (Zdigits2 w + k)).
  { rewrite Z.pow_add_r by lia. nia. }
  apply Z.le_antisymm.
  - apply Zdigits2_le; lia.
  - pose proof (Zdigits2_ge (w * 2 ^ k) (Zdigits2 w + k - 1) H1 ltac:(lia)). lia.
Qed.

(** A mantissa of 53 bits followed by [k] zero bits is rounded to
    itself. *)
Lemma binary_round_aux_exact (s : bool) (w : positive) (t k mx : Z) :
  Zdigits2 (Zpos w) = 53 -> -52 <= t <= 0 -> 0 <= k ->
  mx = Zpos w * 2 ^ k ->
  binary_round_aux prec emax s mx (t - k) loc_Exact = S754_finite s w t.
Proof.
  intros Hw Ht Hk Hmx.
  assert (Hp : 0 < 2 ^ k) by (apply Z.pow_pos_nonneg; lia).
  assert (Hmx0 : 0 < mx) by nia.
  assert (Hd : Zdigits2 mx = 53 + k).
  { rewrite Hmx, Zdigits2_scaled by lia. lia. }
  assert (Hfirst : shr_fexp prec emax mx (t - k) loc_Exact =
                   ({| shr_m := Zpos w; shr_r := false; shr_s := false |}, t)).
  { unfold shr_fexp, shr. rewrite Hd, fexp_normal by lia.
    replace (53 + k + (t - k) - 53 - (t - k)) with k by lia.
    destruct k as [|p|p]; try lia.
    - simpl. rewrite Hmx. f_equal; [f_equal; lia | lia].
    - cbn [shr_record_of_loc].
      rewrite (iter_pos_shr_1_exact p mx (Zpos w)) by (lia || exact Hmx).
      f_equal. lia. }
  assert (Hsecond : shr_fexp prec emax (Zpos w) t loc_Exact =
                    ({| shr_m := Zpos w; shr_r := false; shr_s := false |}, t)).
  { unfold shr_fexp, shr. rewrite Hw, fexp_normal by lia.
    replace (53 + t - 53 - t) with 0 by lia. reflexivity. }
  unfold binary_round_aux. rewrite Hfirst.
  cbn [shr_m loc_of_shr_record round_nearest_even]. rewrite Hsecond.
  cbn [shr_m].
  replace (t <=? emax - prec) with true
    by (symmetry; apply Z.leb_le; unfold emax, prec; lia).
  reflexivity.
Qed.

Lemma binary_round_exact (s : bool) (mx : positive) (e v : Z) :
  0 < v -> v < 2 ^ 53 -> e <= 0 -> Zpos mx = v * 2 ^ (- e) ->
  exists (w : positive) (t : Z),
    binary_round prec emax s mx e = S754_finite s w t /\
    -52 <= t <= 0 /\ Zdigits2 (Zpos w) = 53 /\ Zpos w = v * 2 ^ (- t).
Proof.
  intros Hv Hlt He Hmx.
  pose proof (Zdigits2_bounds v Hv) as [Hlo Hhi].
  pose proof (Zdigits2_pos v Hv) as Hdpos.
  assert (Hdv : Zdigits2 v <= 53) by (apply Zdigits2_le; lia).
  set (t := Zdigits2 v - 53).
  assert (Hpt : 0 < 2 ^ (- t)) by (apply Z.pow_pos_nonneg; lia).
  assert (Hw0 : 0 < v * 2 ^ (- t)) by nia.
  destruct (v * 2 ^ (- t)) as [|w|w] eqn:Ew; try lia.
  assert (Hwd : Zdigits2 (Zpos w) = 53).
  { rewrite <- Ew, Zdigits2_scaled by lia. unfold t. lia. }
  exists w, t.
  split; [|split; [unfold t; lia | split; [exact Hwd | symmetry; exact Ew]]].
  unfold binary_round, shl_align.
  assert (Hd : Zpos (digits2_pos mx) + e = Zdigits2 v).
  { change (Zpos (digits2_pos mx)) with (Zdigits2 (Zpos mx)).
    rewrite Hmx, Zdigits2_scaled by lia. lia. }
  rewrite Hd, fexp_normal by lia. fold t.
  destruct (t - e) as [|k|k] eqn:Hk.
  - replace e with (t - 0) at 1 by lia.
    apply binary_round_aux_exact; try lia. rewrite Hmx.
    replace (- e) with (- t) by lia. rewrite Ew, Z.pow_0_r. lia.
  - replace e with (t - Zpos k) at 1 by lia.
    apply binary_round_aux_exact; try lia. rewrite Hmx.
    replace (- e) with (- t + Zpos k) by lia.
    rewrite Z.pow_add_r, Z.mul_assoc, Ew by lia. reflexivity.
  - replace t with (t - 0) at 1 by lia.
    apply binary_round_aux_exact; try lia.
    rewrite iter_xO_value, Hmx, <- Ew, Z.pow_0_r.
    replace (- t) with (- e + Zpos k) by lia.
    rewrite Z.pow_add_r by lia. ring.
Qed.

(** The integer [v], given as [M * 2^e], is normalised without loss. *)
Lemma binary_normalize_exact (M e v : Z) (szero : bool) :
  small v -> e <= 0 -> M = v * 2 ^ (- e) ->
  exact_int (binary_normalize prec emax M e szero) v.
Proof.
  unfold small. intros Hv He HM.
  assert (Hp : 0 < 2 ^ (- e)) by (apply Z.pow_pos_nonneg; lia).
  unfold binary_normalize. destruct M as [|mx|mx].
  - simpl. nia.
  - assert (H0 : 0 < v) by nia.
    destruct (binary_round_exact false mx e v H0 ltac:(lia) He HM)
      as (w & t & -> & Ht & Hw & Hwv).
    simpl. auto.
  - assert (H0 : 0 < - v) by nia.
    destruct (binary_round_exact true mx e (- v) H0 ltac:(lia) He ltac:(lia))
      as (w & t & -> & Ht & Hw & Hwv).
    simpl. split; [exact Ht|]. split; [exact Hw|]. lia.
Qed.

Lemma float64_of_int_exact (v : Z) : small v -> exact_int (float64_of_int v) v.
Proof.
  intros Hv. unfold float64_of_int.
  apply binary_normalize_exact; [exact Hv | lia | simpl; lia].
Qed.

Lemma exact_int_small (f : float64) (v : Z) : exact_int f v -> small v.
Proof.
  unfold small. destruct f as [s|s| |s m e]; simpl; try contradiction.
  - intros ->. simpl. lia.
  - intros (He & Hd & Hv).
    pose proof (digits2_pos_bounds m) as [_ Hhi].
    change (Zdigits2 (Zpos m)) with (Zpos (digits2_pos m)) in Hd.
    rewrite Hd in Hhi.
    assert (Hp : 0 < 2 ^ (- e)) by (apply Z.pow_pos_nonneg; lia).
    destruct s; simpl in Hv; nia.
Qed.

Lemma int64_of_float_exact (f : float64) (v : Z) :
  exact_int f v -> int64_of_float f = v.
Proof.
  intros H. pose proof (exact_int_small f v H) as Hs. unfold small in Hs.
  assert (Hin : in_int64 v = true).
  { unfold in_int64, MinInt64, MaxInt64.
    rewrite andb_true_iff, !Z.leb_le. lia. }
  destruct f as [s|s| |s m e]; simpl in H; try contradiction.
  - subst v. reflexivity.
  - destruct H as (He & Hd & Hv). unfold int64_of_float, trunc_Z.
    assert (Hp : 0 < 2 ^ (- e)) by (apply Z.pow_pos_nonneg; lia).
    assert (Hval : cond_Zopp s
                     (if 0 <=? e then Z.shiftl (Zpos m) e
                      else Z.shiftr (Zpos m) (- e)) = v).
    { destruct (Z.leb_spec 0 e) as [H0|H0].
      - replace e with 0 in * by lia. rewrite Z.shiftl_0_r. simpl in Hv. lia.
      - rewrite Z.shiftr_div_pow2 by lia.
        destruct s; simpl in *.
        + replace (Zpos m) with ((- v) * 2 ^ (- e)) by lia.
          rewrite Z.div_mul by lia. lia.
        + rewrite Hv, Z.div_mul by lia. reflexivity. }
    rewrite Hval, Hin. reflexivity.
Qed.

Lemma shl_align_value (m : positive) (e ez : Z) :
  ez <= e -> Zpos (shl_align m e ez).1 = Zpos m * 2 ^ (e - ez).
Proof.
  intros H. unfold shl_align. destruct (ez - e) as [|k|k] eqn:Hk; try lia.
  - replace (e - ez) with 0 by lia. simpl. lia.
  - simpl. rewrite iter_xO_value. f_equal. f_equal. lia.
Qed.

Lemma aligned (s : bool) (m : positive) (e ez v : Z) :
  ez <= e -> e <= 0 -> cond_Zopp s (Zpos m) = v * 2 ^ (- e) ->
  cond_Zopp s (Zpos (shl_align m e ez).1) = v * 2 ^ (- ez).
Proof.
  intros Hz He Hv. rewrite shl_align_value by exact Hz.
  replace (- ez) with (- e + (e - ez)) by lia.
  rewrite Z.pow_add_r by lia.
  destruct s; simpl in *; lia.
Qed.

Lemma fadd_exact (fa fb : float64) (a b : Z) :
  exact_int fa a -> exact_int fb b -> small (a + b) ->
  exact_int (fadd fa fb) (a + b).
Proof.
  intros Ha Hb Hs. unfold fadd.
  destruct fa as [sa|sa| |sa ma ea], fb as [sb|sb| |sb mb eb];
    simpl in Ha, Hb; try contradiction.
  - subst. destruct sa, sb; reflexivity.
  - subst. simpl. exact Hb.
  - subst. simpl. rewrite Z.add_0_r. exact Ha.
  - destruct Ha as (Hea & Hda & Hva), Hb as (Heb & Hdb & Hvb).
    cbn [SFadd]. apply binary_normalize_exact; [exact Hs | lia |].
    rewrite (aligned sa ma ea _ a) by (lia || exact Hva).
    rewrite (aligned sb mb eb _ b) by (lia || exact Hvb). lia.
Qed.

Lemma fsub_exact (fa fb : float64) (a b : Z) :
  exact_int fa a -> exact_int fb b -> small (a - b) ->
  exact_int (fsub fa fb) (a - b).
Proof.
  intros Ha Hb Hs. unfold fsub.
  destruct fa as [sa|sa| |sa ma ea], fb as [sb|sb| |sb mb eb];
    simpl in Ha, Hb; try contradiction.
  - subst. destruct sa, sb; reflexivity.
  - subst. simpl. destruct Hb as (Heb & Hdb & Hvb).
    split; [exact Heb|]. split; [exact Hdb|]. destruct sb; simpl in *; lia.
  - subst. simpl. rewrite Z.sub_0_r. exact Ha.
  - destruct Ha as (Hea & Hda & Hva), Hb as (Heb & Hdb & Hvb).
    cbn [SFsub]. apply binary_normalize_exact; [exact Hs | lia |].
    rewrite (aligned sa ma ea _ a) by (lia || exact Hva).
    rewrite (aligned sb mb eb _ b) by (lia || exact Hvb). lia.
Qed.

Lemma fmul_exact (fa fb : float64) (a b : Z) :
  exact_int fa a -> exact_int fb b -> small (a * b) ->
  exact_int (fmul fa fb) (a * b).
Proof.
  intros Ha Hb Hs. unfold fmul.
  destruct fa as [sa|sa| |sa ma ea], fb as [sb|sb| |sb mb eb];
    simpl in Ha, Hb; try contradiction.
  - subst. reflexivity.
  - subst. reflexivity.
  - subst. simpl. lia.
  - destruct Ha as (Hea & Hda & Hva), Hb as (Heb & Hdb & Hvb).
    cbn [SFmul].
    pose proof (digits2_pos_bounds ma) as [Hla Hha].
    pose proof (digits2_pos_bounds mb) as [Hlb Hhb].
    change (Zdigits2 (Zpos ma)) with (Zpos (digits2_pos ma)) in Hda.
    change (Zdigits2 (Zpos mb)) with (Zpos (digits2_pos mb)) in Hdb.
    rewrite Hda in Hla, Hha. rewrite Hdb in Hlb, Hhb.
    assert (Hpa : 0 < 2 ^ (- ea)) by (apply Z.pow_pos_nonneg; lia).
    assert (Hpb : 0 < 2 ^ (- eb)) by (apply Z.pow_pos_nonneg; lia).
    (* the product of the mantissas is |a * b| shifted *)
    set (v := Z.abs (a * b)).
    assert (Hprod : Zpos (ma * mb) = v * 2 ^ (- (ea + eb))).
    { unfold v. rewrite Pos2Z.inj_mul.
      replace (- (ea + eb)) with (- ea + - eb) by lia.
      rewrite Z.pow_add_r by lia.
      assert (Zpos ma = Z.abs a * 2 ^ (- ea)) by (destruct sa; simpl in Hva; nia).
      assert (Zpos mb = Z.abs b * 2 ^ (- eb)) by (destruct sb; simpl in Hvb; nia).
      rewrite Z.abs_mul. nia. }
    assert (Hv0 : 0 < v).
    { assert (0 < Zpos (ma * mb)) by lia.
      assert (0 < 2 ^ (- (ea + eb))) by (apply Z.pow_pos_nonneg; lia). nia. }
    unfold small in Hs. fold v in Hs.
    pose proof (Zdigits2_bounds v Hv0) as [Hlo Hhi].
    pose proof (Zdigits2_pos v Hv0) as Hdpos.
    assert (Hdv : Zdigits2 v <= 53) by (apply Zdigits2_le; lia).
    set (t := Zdigits2 v - 53).
    assert (Hpt : 0 < 2 ^ (- t)) by (apply Z.pow_pos_nonneg; lia).
    assert (Hw0 : 0 < v * 2 ^ (- t)) by nia.
    destruct (v * 2 ^ (- t)) as [|w|w] eqn:Ew; try lia.
    assert (Hwd : Zdigits2 (Zpos w) = 53).
    { rewrite <- Ew, Zdigits2_scaled by lia. unfold t. lia. }
    (* the shift: the product has at least 105 bits *)
    assert (Hk : 0 <= t - (ea + eb)).
    { assert (H104 : 2 ^ 104 <= Zpos (ma * mb)).
      { rewrite Pos2Z.inj_mul. change (2 ^ 104) with (2 ^ 52 * 2 ^ 52).
        change (53 - 1) with 52 in *. nia. }
      assert (Hup : Zpos (ma * mb) < 2 ^ (Zdigits2 v - (ea + eb))).
      { rewrite Hprod.
        replace (Zdigits2 v - (ea + eb)) with (Zdigits2 v + - (ea + eb)) by lia.
        rewrite Z.pow_add_r by lia.
        assert (0 < 2 ^ (- (ea + eb))) by (apply Z.pow_pos_nonneg; lia). nia. }
      assert (Hlt : 2 ^ 104 < 2 ^ (Zdigits2 v - (ea + eb))) by lia.
      apply Z.pow_lt_mono_r_iff in Hlt; unfold t; lia. }
    replace (ea + eb) with (t - (t - (ea + eb))) by lia.
    rewrite (binary_round_aux_exact (xorb sa sb) w t (t - (ea + eb)))
      by first [ exact Hwd | unfold t; lia | exact Hk
               | rewrite Hprod, <- Ew;
                 replace (- (ea + eb)) with (- t + (t - (ea + eb))) by lia;
                 rewrite Z.pow_add_r by lia; lia ].
    simpl. split; [unfold t; lia|]. split; [exact Hwd|].
    rewrite <- Ew. unfold v.
    assert (Hsa : (sa = true /\ a < 0) \/ (sa = false /\ 0 < a))
      by (destruct sa; simpl in Hva; [left | right]; split; auto; nia).
    assert (Hsb : (sb = true /\ b < 0) \/ (sb = false /\ 0 < b))
      by (destruct sb; simpl in Hvb; [left | right]; split; auto; nia).
    destruct Hsa as [[-> Hsa] | [-> Hsa]], Hsb as [[-> Hsb] | [-> Hsb]];
      simpl; nia.
Qed.

(** ** Integer arithmetic through floats *)

Lemma exact_int_valid (f : float64) (v : Z) : exact_int f v -> valid_float f.
Proof.
  unfold valid_float. destruct f as [s|s| |s m e]; simpl; try contradiction; auto.
  intros (He & Hd & _). unfold bounded, canonical_mantissa.
  rewrite Hd, fexp_normal by lia.
  rewrite andb_true_iff, Z.eqb_eq, Z.leb_le. unfold emax, prec. lia.
Qed.

(** [arb_calc] on two INT operands, up to the operator. *)
Lemma arb_calc_int (math_Pow : float64 -> float64 -> float64)
    (vm : IcebergVM) (x y : Entity) (d operator : string) (a b : Z) :
  Get_argument vm x (Z.lor T_INT T_FLOAT) = Ok (VInt a, T_INT) ->
  Get_argument vm y T_INT = Ok (VInt b, T_INT) ->
  forall op : float64 -> float64 -> float64,
    (operator = "+" /\ op = fadd) \/ (operator = "-" /\ op = fsub) \/
    (operator = "*" /\ op = fmul) ->
    arb_calc math_Pow [x; y; sym d] operator vm =
      Assign_var vm d
        (VInt (int64_of_float (op (float64_of_int a) (float64_of_int b)))).
Proof.
  intros Ha Hb op Hop. unfold arb_calc.
  rewrite (bind_Ok_l _ _ x) by reflexivity.
  rewrite (bind_Ok_l _ _ _ Ha).
  rewrite (bind_Ok_l _ _ y) by reflexivity.
  rewrite (bind_Ok_l _ _ _ Hb).
  change (T_INT =? T_INT) with true. cbv iota.
  rewrite (bind_Ok_l _ _ (float64_of_int a, float64_of_int b)) by reflexivity.
  destruct Hop as [[-> ->] | [[-> ->] | [-> ->]]];
    (rewrite (bind_Ok_l _ _ (_, false)) by reflexivity);
    rewrite (bind_Ok_l _ _ (sym d)) by reflexivity;
    rewrite (bind_Ok_l _ _ d (Get_baresymbol_sym vm d)); reflexivity.
Qed.

(** X21.  [add], [sub] and [mul] compute on [float64] also when both
    operands are INT.  For operands of magnitude below [2^53] whose sum,
    difference or product is below [2^53] as well, nothing is lost: the
    destination is assigned the INT [a + b], [a - b] or [a * b]. *)
Theorem int_arithmetic_is_exact_below_2_53
    (math_Pow : float64 -> float64 -> float64)
    (vm : IcebergVM) (x y : Entity) (d : string) (a b : Z) :
  Get_argument vm x (Z.lor T_INT T_FLOAT) = Ok (VInt a, T_INT) ->
  Get_argument vm y T_INT = Ok (VInt b, T_INT) ->
  Z.abs a < 2 ^ 53 -> Z.abs b < 2 ^ 53 ->
  (Z.abs (a + b) < 2 ^ 53 ->
   inst_add math_Pow [x; y; sym d] vm = Assign_var vm d (VInt (a + b))) /\
  (Z.abs (a - b) < 2 ^ 53 ->
   inst_sub math_Pow [x; y; sym d] vm = Assign_var vm d (VInt (a - b))) /\
  (Z.abs (a * b) < 2 ^ 53 ->
   inst_mul math_Pow [x; y; sym d] vm = Assign_var vm d (VInt (a * b))).
Proof.
  intros Ha Hb Hsa Hsb.
  pose proof (float64_of_int_exact a Hsa) as Hfa.
  pose proof (float64_of_int_exact b Hsb) as Hfb.
  split; [|split]; intros Hs.
  - unfold inst_add.
    rewrite (arb_calc_int math_Pow vm x y d "+" a b Ha Hb fadd) by auto.
    rewrite (int64_of_float_exact _ _ (fadd_exact _ _ _ _ Hfa Hfb Hs)).
    reflexivity.
  - unfold inst_sub.
    rewrite (arb_calc_int math_Pow vm x y d "-" a b Ha Hb fsub) by auto.
    rewrite (int64_of_float_exact _ _ (fsub_exact _ _ _ _ Hfa Hfb Hs)).
    reflexivity.
  - unfold inst_mul.
    rewrite (arb_calc_int math_Pow vm x y d "*" a b Ha Hb fmul) by auto.
    rewrite (int64_of_float_exact _ _ (fmul_exact _ _ _ _ Hfa Hfb Hs)).
    reflexivity.
Qed.

Lemma int_arithmetic_is_exact_below_2_53_witness :
  Get_argument Init_vm (lit_int 2) (Z.lor T_INT T_FLOAT) = Ok (VInt 2, T_INT) /\
  Get_argument Init_vm (lit_int 3) T_INT = Ok (VInt 3, T_INT) /\
  Z.abs 2 < 2 ^ 53 /\ Z.abs 3 < 2 ^ 53 /\ Z.abs (2 * 3) < 2 ^ 53 /\
  inst_mul pow_unused [lit_int 2; lit_int 3; sym "r"] Init_vm =
    Assign_var Init_vm "r" (VInt (2 * 3)).
Proof.
  assert (H1 : Get_argument Init_vm (lit_int 2) (Z.lor T_INT T_FLOAT) =
               Ok (VInt 2, T_INT)) by (vm_compute; reflexivity).
  assert (H2 : Get_argument Init_vm (lit_int 3) T_INT = Ok (VInt 3, T_INT))
    by (vm_compute; reflexivity).
  assert (H3 : Z.abs 2 < 2 ^ 53) by (vm_compute; reflexivity).
  assert (H4 : Z.abs 3 < 2 ^ 53) by (vm_compute; reflexivity).
  assert (H5 : Z.abs (2 * 3) < 2 ^ 53) by (vm_compute; reflexivity).
  split; [exact H1|]. split; [exact H2|]. split; [exact H3|].
  split; [exact H4|]. split; [exact H5|].
  exact (proj2 (proj2 (int_arithmetic_is_exact_below_2_53 pow_unused Init_vm
                         (lit_int 2) (lit_int 3) "r" 2 3 H1 H2 H3 H4)) H5).
Defined.

(** X22.  [float F, x] followed by [int I, F] gives [I] the INT [x]
    held, for every [x] of magnitude below [2^53]; the second cast reads a
    FLOAT and emits no warning. *)
Theorem float_then_int_restores_a_small_integer
    (vm vm1 : IcebergVM) (x : Entity) (F I : string) (i : Z) :
  Get_argument vm x (Z.lor T_INT T_FLOAT) = Ok (VInt i, T_INT) ->
  Z.abs i < 2 ^ 53 ->
  inst_float [sym F; x] vm = Ok vm1 ->
  inst_int [sym I; sym F] vm1 = Assign_var vm1 I (VInt i).
Proof.
  intros Hx Hs Hf.
  pose proof (float64_of_int_exact i Hs) as Hex.
  unfold inst_float in Hf.
  rewrite (bind_Ok_l _ _ x) in Hf by reflexivity.
  rewrite (bind_Ok_l _ _ _ Hx) in Hf.
  change (T_INT =? T_FLOAT) with false in Hf. cbv iota in Hf.
  rewrite (bind_Ok_l _ _ (vm, float64_of_int i)) in Hf by reflexivity.
  rewrite (bind_Ok_l _ _ (sym F)) in Hf by reflexivity.
  rewrite (bind_Ok_l _ _ F (Get_baresymbol_sym vm F)) in Hf.
  pose proof (Assign_var_resolves vm vm1 F (VFloat (float64_of_int i))
                (Z.lor T_INT T_FLOAT) (exact_int_valid _ _ Hex) Hf) as Hres.
  change (Z.land (kind_of (VFloat (float64_of_int i))) (Z.lor T_INT T_FLOAT) =? 0)
    with false in Hres. cbv iota in Hres.
  unfold inst_int.
  rewrite (bind_Ok_l _ _ (sym F)) by reflexivity.
  rewrite (bind_Ok_l _ _ _ Hres).
  change (kind_of (VFloat (float64_of_int i)) =? T_INT) with false. cbv iota.
  rewrite (bind_Ok_l _ _ (vm1, int64_of_float (float64_of_int i))) by reflexivity.
  rewrite (bind_Ok_l _ _ (sym I)) by reflexivity.
  rewrite (bind_Ok_l _ _ I (Get_baresymbol_sym vm1 I)).
  rewrite (int64_of_float_exact _ _ Hex). reflexivity.
Qed.

Lemma float_then_int_restores_a_small_integer_witness :
  Get_argument Init_vm (lit_int 3) (Z.lor T_INT T_FLOAT) = Ok (VInt 3, T_INT) /\
  Z.abs 3 < 2 ^ 53 /\
  inst_float [sym "F"; lit_int 3] Init_vm = Ok vm_F3 /\
  inst_int [sym "I"; sym "F"] vm_F3 = Assign_var vm_F3 "I" (VInt 3).
Proof.
  assert (H1 : Get_argument Init_vm (lit_int 3) (Z.lor T_INT T_FLOAT) =
               Ok (VInt 3, T_INT)) by (vm_compute; reflexivity).
  assert (H2 : Z.abs 3 < 2 ^ 53) by (vm_compute; reflexivity).
  assert (H3 : inst_float [sym "F"; lit_int 3] Init_vm = Ok vm_F3)
    by (vm_compute; reflexivity).
  split; [exact H1|]. split; [exact H2|]. split; [exact H3|].
  exact (float_then_int_restores_a_small_integer Init_vm vm_F3 (lit_int 3)
           "F" "I" 3 H1 H2 H3).
Defined.

(** X23.  [mod] on two INT operands of magnitude below [2^53], the second
    not zero, assigns the remainder of Go's [%] on the integers (its sign
    is the one of the dividend): the conversions to [float64] and back
    lose nothing, and the divisor does not truncate to zero. *)
Theorem mod_of_small_integers_is_the_remainder
    (math_Pow : float64 -> float64 -> float64)
    (vm : IcebergVM) (x y : Entity) (d : string) (a b : Z) :
  Get_argument vm x (Z.lor T_INT T_FLOAT) = Ok (VInt a, T_INT) ->
  Get_argument vm y T_INT = Ok (VInt b, T_INT) ->
  Z.abs a < 2 ^ 53 -> Z.abs b < 2 ^ 53 -> b <> 0 ->
  inst_mod math_Pow [x; y; sym d] vm = Assign_var vm d (VInt (Z.rem a b)).
Proof.
  intros Ha Hb Hsa Hsb Hnz. unfold inst_mod.
  rewrite (arb_calc_nonzero_int math_Pow vm x y (sym d) "%" a b T_INT)
    by (auto; right; right; reflexivity).
  rewrite (bind_Ok_l _ _ d (Get_baresymbol_sym vm d)).
  change (String.eqb "%" "//") with false. change (String.eqb "%" "/") with false.
  cbv zeta iota.
  rewrite (int64_of_float_exact _ _ (float64_of_int_exact a Hsa)).
  rewrite (int64_of_float_exact _ _ (float64_of_int_exact b Hsb)).
  assert (Hr : small (Z.rem a b)).
  { unfold small. pose proof (Z.rem_bound_abs a b Hnz). lia. }
  rewrite (int64_of_float_exact _ _ (float64_of_int_exact _ Hr)).
  reflexivity.
Qed.

Lemma mod_of_small_integers_is_the_remainder_witness :
  Get_argument Init_vm (lit_int (-7)) (Z.lor T_INT T_FLOAT) =
    Ok (VInt (-7), T_INT) /\
  Get_argument Init_vm (lit_int 3) T_INT = Ok (VInt 3, T_INT) /\
  Z.abs (-7) < 2 ^ 53 /\ Z.abs 3 < 2 ^ 53 /\ 3 <> 0 /\
  inst_mod pow_unused [lit_int (-7); lit_int 3; sym "r"] Init_vm =
    Assign_var Init_vm "r" (VInt (Z.rem (-7) 3)).
Proof.
  assert (H1 : Get_argument Init_vm (lit_int (-7)) (Z.lor T_INT T_FLOAT) =
               Ok (VInt (-7), T_INT)) by (vm_compute; reflexivity).
  assert (H2 : Get_argument Init_vm (lit_int 3) T_INT = Ok (VInt 3, T_INT))
    by (vm_compute; reflexivity).
  assert (H3 : Z.abs (-7) < 2 ^ 53) by (vm_compute; reflexivity).
  assert (H4 : Z.abs 3 < 2 ^ 53) by (vm_compute; reflexivity).
  assert (H5 : 3 <> 0) by lia.
  split; [exact H1|]. split; [exact H2|]. split; [exact H3|].
  split; [exact H4|]. split; [exact H5|].
  exact (mod_of_small_integers_is_the_remainder pow_unused Init_vm
           (lit_int (-7)) (lit_int 3) "r" (-7) 3 H1 H2 H3 H4 H5).
Defined.

(** Of two mantissas of 53 bits, the one with the smaller exponent holds
    the smaller integer. *)
Lemma scaled_lt (u v P Q m n : Z) :
  0 < Q -> 2 * Q <= P -> m = u * P -> n = v * Q ->
  m < 2 ^ 53 -> 2 ^ 52 <= n -> u < v.
Proof.
  intros HQ HP Hm Hn Hhi Hlo.
  destruct (Z.lt_ge_cases u v) as [|Hge]; [assumption|]. exfalso.
  assert (Hv : 0 < v) by nia.
  assert (H1 : v * P <= u * P) by (apply Z.mul_le_mono_nonneg_r; lia).
  assert (H2 : v * (2 * Q) <= v * P) by (apply Z.mul_le_mono_nonneg_l; lia).
  change (2 ^ 53) with (2 * 2 ^ 52) in Hhi. lia.
Qed.

Lemma SFcompare_exact (fa fc : float64) (a c : Z) :
  exact_int fa a -> exact_int fc c -> SFcompare fa fc = Some (a ?= c).
Proof.
  intros Ha Hc.
  destruct fa as [sa|sa| |sa ma ea], fc as [sc|sc| |sc mc ec];
    simpl in Ha, Hc; try contradiction.
  - subst. reflexivity.
  - subst. destruct Hc as (He & _ & Hv).
    assert (Hp : 0 < 2 ^ (- ec)) by (apply Z.pow_pos_nonneg; lia).
    cbn [SFcompare]. f_equal. symmetry.
    destruct sc; simpl in Hv; cbv iota;
      [apply Z.compare_gt_iff | apply Z.compare_lt_iff]; nia.
  - subst. destruct Ha as (He & _ & Hv).
    assert (Hp : 0 < 2 ^ (- ea)) by (apply Z.pow_pos_nonneg; lia).
    cbn [SFcompare]. f_equal. symmetry.
    destruct sa; simpl in Hv; cbv iota;
      [apply Z.compare_lt_iff | apply Z.compare_gt_iff]; nia.
  - destruct Ha as (Hea & Hda & Hva), Hc as (Hec & Hdc & Hvc).
    pose proof (digits2_pos_bounds ma) as [Hla Hha].
    pose proof (digits2_pos_bounds mc) as [Hlc Hhc].
    change (Zdigits2 (Zpos ma)) with (Zpos (digits2_pos ma)) in Hda.
    change (Zdigits2 (Zpos mc)) with (Zpos (digits2_pos mc)) in Hdc.
    rewrite Hda in Hla, Hha. rewrite Hdc in Hlc, Hhc.
    change (53 - 1) with 52 in *.
    assert (Hpa : 0 < 2 ^ (- ea)) by (apply Z.pow_pos_nonneg; lia).
    assert (Hpc : 0 < 2 ^ (- ec)) by (apply Z.pow_pos_nonneg; lia).
    assert (Hstep : forall e1 e2 : Z, e1 < e2 -> e2 <= 0 ->
              2 * 2 ^ (- e2) <= 2 ^ (- e1)).
    { intros e1 e2 H12 H2.
      replace (- e1) with (1 + (- e2 + (e2 - e1 - 1))) by lia.
      rewrite !Z.pow_add_r by lia. change (2 ^ 1) with 2.
      assert (0 < 2 ^ (- e2)) by (apply Z.pow_pos_nonneg; lia).
      assert (0 < 2 ^ (e2 - e1 - 1)) by (apply Z.pow_pos_nonneg; lia). nia. }
    cbn [SFcompare]. f_equal. symmetry.
    rewrite Pos.compare_cont_spec. cbn [Pos.switch_Eq].
    destruct sa, sc; simpl in Hva, Hvc; cbv iota.
    + destruct (Z.compare_spec ea ec) as [Heq|Hlt|Hgt].
      * subst ec. rewrite Pos2Z.inj_compare.
        destruct (Z.compare_spec (Zpos ma) (Zpos mc)); cbn [CompOpp];
          [apply Z.compare_eq_iff | apply Z.compare_gt_iff
          | apply Z.compare_lt_iff]; nia.
      * apply Z.compare_gt_iff.
        pose proof (scaled_lt (- a) (- c) _ _ (Zpos ma) (Zpos mc) Hpc
                      (Hstep ea ec Hlt ltac:(lia)) ltac:(lia) ltac:(lia) Hha Hlc).
        lia.
      * apply Z.compare_lt_iff.
        pose proof (scaled_lt (- c) (- a) _ _ (Zpos mc) (Zpos ma) Hpa
                      (Hstep ec ea ltac:(lia) ltac:(lia)) ltac:(lia) ltac:(lia)
                      Hhc Hla).
        lia.
    + apply Z.compare_lt_iff.
      assert (a < 0) by nia. assert (0 < c) by nia. lia.
    + apply Z.compare_gt_iff.
      assert (0 < a) by nia. assert (c < 0) by nia. lia.
    + destruct (Z.compare_spec ea ec) as [Heq|Hlt|Hgt].
      * subst ec. rewrite Pos2Z.inj_compare.
        destruct (Z.compare_spec (Zpos ma) (Zpos mc));
          [apply Z.compare_eq_iff | apply Z.compare_lt_iff
          | apply Z.compare_gt_iff]; nia.
      * apply Z.compare_lt_iff.
        exact (scaled_lt a c _ _ (Zpos ma) (Zpos mc) Hpc
                 (Hstep ea ec Hlt ltac:(lia)) Hva Hvc Hha Hlc).
      * apply Z.compare_gt_iff.
        exact (scaled_lt c a _ _ (Zpos mc) (Zpos ma) Hpa
                 (Hstep ec ea ltac:(lia) ltac:(lia)) Hvc Hva Hhc Hla).
Qed.

Lemma inst_cmp_small_integers
    (vm : IcebergVM) (x o z : Entity) (d op : string) (a c : Z) :
  Get_argument vm x (Z.lxor (Z.lxor T_ANY T_BOOL) T_LABEL) = Ok (VInt a, T_INT) ->
  Get_argument vm o T_STR = Ok (VString op, T_STR) ->
  Get_argument vm z T_INT = Ok (VInt c, T_INT) ->
  Z.abs a < 2 ^ 53 -> Z.abs c < 2 ^ 53 ->
  inst_cmp [x; o; z; sym d] vm =
    match compare_by op (Some (a ?= c)) with
    | Some b => Assign_var vm d (VBool b)
    | None =>
        Runtime_error vm
          ("Argument ERROR: Unknown oeprator " +:+ hex_of_string op +:+
           ", " +:+ hex_of_string "<")
    end.
Proof.
  intros Hx Ho Hz Hsa Hsc. unfold inst_cmp.
  rewrite (bind_Ok_l _ _ x) by reflexivity.
  rewrite (bind_Ok_l _ _ _ Hx).
  rewrite (bind_Ok_l _ _ o) by reflexivity.
  rewrite (bind_Ok_l _ _ _ Ho).
  rewrite (bind_Ok_l _ _ z) by reflexivity.
  rewrite (bind_Ok_l _ _ _ Hz).
  change (T_INT =? T_STR) with false. change (T_INT =? T_INT) with true.
  cbv iota.
  rewrite (bind_Ok_l _ _ (float64_of_int a, float64_of_int c)) by reflexivity.
  rewrite (SFcompare_exact _ _ a c (float64_of_int_exact a Hsa)
             (float64_of_int_exact c Hsc)).
  destruct (compare_by op (Some (a ?= c))) as [b|]; [|reflexivity].
  rewrite (bind_Ok_l _ _ b) by reflexivity.
  rewrite (bind_Ok_l _ _ (sym d)) by reflexivity.
  rewrite (bind_Ok_l _ _ d (Get_baresymbol_sym vm d)). reflexivity.
Qed.

(** X24.  [cmp] on two INT operands compares their [float64] images; for
    operands [a] and [c] of magnitude below [2^53] the BOOL assigned to
    the destination is the one of the comparator on the integers
    themselves: [a > c], [a >= c], [a == c], [a <= c], [a < c] and
    [a != c] for the six comparators, and any other comparator is the
    fatal argument error. *)
Theorem cmp_orders_small_integers_as_integers
    (vm : IcebergVM) (x o z : Entity) (d op : string) (a c : Z) :
  Get_argument vm x (Z.lxor (Z.lxor T_ANY T_BOOL) T_LABEL) = Ok (VInt a, T_INT) ->
  Get_argument vm o T_STR = Ok (VString op, T_STR) ->
  Get_argument vm z T_INT = Ok (VInt c, T_INT) ->
  Z.abs a < 2 ^ 53 -> Z.abs c < 2 ^ 53 ->
  (op = ">" -> inst_cmp [x; o; z; sym d] vm = Assign_var vm d (VBool (c <? a))) /\
  (op = ">=" -> inst_cmp [x; o; z; sym d] vm = Assign_var vm d (VBool (c <=? a))) /\
  (op = "==" -> inst_cmp [x; o; z; sym d] vm = Assign_var vm d (VBool (a =? c))) /\
  (op = "<=" -> inst_cmp [x; o; z; sym d] vm = Assign_var vm d (VBool (a <=? c))) /\
  (op = "<" -> inst_cmp [x; o; z; sym d] vm = Assign_var vm d (VBool (a <? c))) /\
  (op = "!=" ->
   inst_cmp [x; o; z; sym d] vm = Assign_var vm d (VBool (negb (a =? c)))) /\
  (op <> ">" -> op <> ">=" -> op <> "==" -> op <> "<=" -> op <> "<" ->
   op <> "!=" ->
   inst_cmp [x; o; z; sym d] vm =
     Fail (RuntimeError (exec_pos vm)
             ("Argument ERROR: Unknown oeprator " +:+ hex_of_string op +:+
              ", " +:+ hex_of_string "<"))).
Proof.
  intros Hx Ho Hz Hsa Hsc.
  pose proof (inst_cmp_small_integers vm x o z d op a c Hx Ho Hz Hsa Hsc) as H.
  repeat split.
  1-6: intros ->; rewrite H; unfold compare_by;
    cbn [String.eqb Ascii.eqb Bool.eqb]; cbv iota;
    unfold Z.ltb, Z.leb; rewrite ?Z.eqb_compare, ?(Z.compare_antisym a c);
    destruct (a ?= c); reflexivity.
  - intros H1 H2 H3 H4 H5 H6. rewrite H. unfold compare_by.
    repeat match goal with
           | |- context [String.eqb op ?t] =>
               destruct (String.eqb_spec op t); [congruence|]
           end.
    reflexivity.
Qed.

Lemma cmp_orders_small_integers_as_integers_witness :
  Get_argument Init_vm (lit_int 2) (Z.lxor (Z.lxor T_ANY T_BOOL) T_LABEL) =
    Ok (VInt 2, T_INT) /\
  Get_argument Init_vm (lit_int 3) T_INT = Ok (VInt 3, T_INT) /\
  Z.abs 2 < 2 ^ 53 /\ Z.abs 3 < 2 ^ 53 /\
  Get_argument Init_vm (lit_str "<") T_STR = Ok (VString "<", T_STR) /\
  inst_cmp [lit_int 2; lit_str "<"; lit_int 3; sym "r"] Init_vm =
    Ok {| exec_pos := 0; label_table := ∅;
          var_table := {[ "r" := lit_bool true ]}; stdout := [] |} /\
  Get_argument Init_vm (lit_str ">") T_STR = Ok (VString ">", T_STR) /\
  inst_cmp [lit_int 2; lit_str ">"; lit_int 3; sym "r"] Init_vm =
    Ok {| exec_pos := 0; label_table := ∅;
          var_table := {[ "r" := lit_bool false ]}; stdout := [] |}.
Proof.
  assert (H1 : Get_argument Init_vm (lit_int 2)
                 (Z.lxor (Z.lxor T_ANY T_BOOL) T_LABEL) = Ok (VInt 2, T_INT))
    by (vm_compute; reflexivity).
  assert (H2 : Get_argument Init_vm (lit_str "<") T_STR =
               Ok (VString "<", T_STR)) by (vm_compute; reflexivity).
  assert (H3 : Get_argument Init_vm (lit_int 3) T_INT = Ok (VInt 3, T_INT))
    by (vm_compute; reflexivity).
  assert (H4 : Z.abs 2 < 2 ^ 53) by (vm_compute; reflexivity).
  assert (H5 : Z.abs 3 < 2 ^ 53) by (vm_compute; reflexivity).
  assert (H6 : Get_argument Init_vm (lit_str ">") T_STR =
               Ok (VString ">", T_STR)) by (vm_compute; reflexivity).
  split; [exact H1|]. split; [exact H3|]. split; [exact H4|].
  split; [exact H5|]. split; [exact H2|].
  split.
  { exact (proj1 (proj2 (proj2 (proj2 (proj2
             (cmp_orders_small_integers_as_integers Init_vm (lit_int 2)
                (lit_str "<") (lit_int 3) "r" "<" 2 3 H1 H2 H3 H4 H5)))))
             eq_refl). }
  split; [exact H6|].
  exact (proj1 (cmp_orders_small_integers_as_integers Init_vm (lit_int 2)
                  (lit_str ">") (lit_int 3) "r" ">" 2 3 H1 H6 H3 H4 H5)
           eq_refl).
Defined.
